(** * qoqo: circuits, gate operations and basis-rotation measurements

    A shallow embedding of the parts of qoqo that carry its invariants:

    - [qoqo/operations/define_operations.py]        (module [define_operations])
    - [qoqo/circuit/circuit.py]                     (module [circuit])
    - [qoqo/operations/_operations_base_classes.py] (module [operations_base])
    - [qoqo/operations/single_qubit_gate_operations.py]
                                                    (module [single_qubit])
    - [qoqo/measurements/basis_rotation_measurement.py]
                                                    (module [basis_rotation])

    Python objects that are only ever replaced as a whole are modelled by
    state passing; the two methods whose contract is about object identity
    ([GateOperation.__copy__] and [GateOperation.__pow__]) run on an explicit
    store of objects.  Python floats are idealised: real numbers for the
    gate algebra (which needs [cos], [sin] and [sqrt]) and rationals for the
    measurement statistics (which only add, multiply and divide). *)

From Stdlib Require Import List String Ascii ZArith Bool Lia.
From Stdlib Require Import QArith Reals Lra.
Import ListNotations.

Close Scope Q_scope.
Close Scope R_scope.

Set Implicit Arguments.

(** ** Python runtime: exceptions, sequences, dictionaries *)

Module Py.

Inductive exception : Type :=
| TypeError | ValueError | KeyError | IndexError | AttributeError.

(** The outcome of a call: a value, or a raised exception. *)
Inductive result (A : Type) : Type :=
| Ok (a : A)
| Raise (e : exception).
Arguments Ok {A} a.
Arguments Raise {A} e.

Definition bind {A B} (r : result A) (k : A -> result B) : result B :=
  match r with
  | Ok a => k a
  | Raise e => Raise e
  end.

Definition of_option {A} (e : exception) (o : option A) : result A :=
  match o with
  | Some a => Ok a
  | None => Raise e
  end.

Definition len {A} (l : list A) : Z := Z.of_nat (List.length l).

(** [l[k]]: a negative index counts from the end; outside [-len, len)
    Python raises [IndexError]. *)
Definition normalize_index (n k : Z) : option nat :=
  if ((0 <=? k) && (k <? n))%Z then Some (Z.to_nat k)
  else if ((- n <=? k) && (k <? 0))%Z then Some (Z.to_nat (k + n))
  else None.

Definition getitem {A} (l : list A) (k : Z) : result A :=
  match normalize_index (len l) k with
  | Some i => of_option IndexError (nth_error l i)
  | None => Raise IndexError
  end.

(** [l.insert(i, x)]: the index is clamped to [0, len]. *)
Definition insert {A} (l : list A) (i : Z) (x : A) : list A :=
  let n := len l in
  let i1 := if (i <? 0)%Z then Z.max 0 (i + n) else Z.min i n in
  firstn (Z.to_nat i1) l ++ x :: skipn (Z.to_nat i1) l.

(** [del l[k]] *)
Definition delitem {A} (l : list A) (k : Z) : result (list A) :=
  match normalize_index (len l) k with
  | Some i => Ok (firstn i l ++ skipn (S i) l)
  | None => Raise IndexError
  end.

(** [l[k] = x] *)
Definition assign {A} (l : list A) (k : Z) (x : A) : result (list A) :=
  match normalize_index (len l) k with
  | Some i => Ok (firstn i l ++ x :: skipn (S i) l)
  | None => Raise IndexError
  end.

(** [range(start, stop, step)]: a step of zero is a [ValueError]. *)
Definition range3 (start stop step : Z) : result (list Z) :=
  if (step =? 0)%Z then Raise ValueError
  else
    let count :=
      (if 0 <? step then (stop - start + step - 1) / step
       else (start - stop - step - 1) / (- step))%Z in
    Ok (map (fun i => start + Z.of_nat i * step)%Z (seq 0 (Z.to_nat count))).

(** Keys of dictionaries: a type with a decidable equality. *)
Class Key (K : Type) : Type :=
  { keqb : K -> K -> bool;
    keqb_eq : forall a b, keqb a b = true <-> a = b }.

#[export] Instance string_key : Key string :=
  {| keqb := String.eqb; keqb_eq := String.eqb_eq |}.

#[export] Instance Z_key : Key Z :=
  {| keqb := Z.eqb; keqb_eq := Z.eqb_eq |}.

(** A [dict] keeps insertion order: an association list, one entry per
    key. *)
Definition dict (K V : Type) : Type := list (K * V).

Section Dict.
Context {K V : Type} `{Key K}.

Fixpoint get (d : dict K V) (k : K) : option V :=
  match d with
  | [] => None
  | (k1, v) :: r => if keqb k1 k then Some v else get r k
  end.

(** [d[k] = v]: overwrite in place, or append a new entry. *)
Fixpoint set (d : dict K V) (k : K) (v : V) : dict K V :=
  match d with
  | [] => [(k, v)]
  | (k1, v1) :: r =>
      if keqb k1 k then (k1, v) :: r else (k1, v1) :: set r k v
  end.

Definition keys (d : dict K V) : list K := map fst d.
Definition values (d : dict K V) : list V := map snd d.

(** [d[k]] as an expression: [KeyError] when the key is absent. *)
Definition item (d : dict K V) (k : K) : result V :=
  of_option KeyError (get d k).

(** [d.update(other)] *)
Definition update (d other : dict K V) : dict K V :=
  fold_left (fun acc kv => set acc (fst kv) (snd kv)) other d.
End Dict.

End Py.

Import Py.

(** ** [define_operations.py] *)

Module define_operations.

(** The attributes set by [Definition.__init__]. *)
Record DefinitionOp : Type :=
  { _name : string;
    _vartype : string;
    _length : Z;
    _is_input : bool;
    _is_output : bool }.

(** [Definition.__eq__]: name, then length, then vartype; the
    input/output flags are not compared. *)
Definition __eq__ (self other : DefinitionOp) : bool :=
  if negb (String.eqb (_name self) (_name other)) then false
  else if negb (Z.eqb (_length self) (_length other)) then false
  else if negb (String.eqb (_vartype self) (_vartype other)) then false
  else true.

(** [operation in definitions] on a list of definitions. *)
Definition contains (definitions : list DefinitionOp) (d : DefinitionOp)
  : bool :=
  existsb (fun e => __eq__ e d) definitions.

End define_operations.

(** ** [hqsbase.calculator]: the symbolic-or-literal number

    [CalculatorFloat] is a literal float or the text of a symbolic
    expression.  The library is not part of qoqo; what qoqo relies on is
    collected in the class [Calculator]: how a float prints, how symbolic
    expressions are composed, and the evaluator [parse_string], which
    returns a float or raises.

    A literal is carried as a real number where the program holds a
    double, whose arithmetic is that of the reals up to rounding.  A
    property that follows the shape of a computation, operation by
    operation, holds of the doubles as it stands; one that uses a law of
    the reals (associativity, a trigonometric identity, a norm equal to
    one) holds of the program up to rounding, and says so. *)

Module calculator.

Inductive CalculatorFloat : Type :=
| Float (x : R)
| Str (s : string).

Definition is_float (c : CalculatorFloat) : bool :=
  match c with
  | Float _ => true
  | Str _ => false
  end.

Class Calculator : Type :=
  { float_repr : R -> string;
    symbolic_binop : string -> string -> string -> string;
    symbolic_call : string -> string -> string;
    parse_string : string -> option R }.

Section Arithmetic.
Context {calc : Calculator}.

(** [str(c)], also what ['{}'.format(c)] prints. *)
Definition to_string (c : CalculatorFloat) : string :=
  match c with
  | Float x => float_repr x
  | Str s => s
  end.

Definition binop (name : string) (f : R -> R -> R)
  (a b : CalculatorFloat) : CalculatorFloat :=
  match a, b with
  | Float x, Float y => Float (f x y)
  | _, _ => Str (symbolic_binop name (to_string a) (to_string b))
  end.

Definition add := binop "+" Rplus.
Definition sub := binop "-" Rminus.
Definition mul := binop "*" Rmult.
Definition div := binop "/" Rdiv.

Definition call (name : string) (f : R -> R) (a : CalculatorFloat)
  : CalculatorFloat :=
  match a with
  | Float x => Float (f x)
  | Str s => Str (symbolic_call name s)
  end.

Definition cos := call "cos" Rtrigo_def.cos.
Definition sin := call "sin" Rtrigo_def.sin.

(** [CalculatorComplex]: a pair of [CalculatorFloat]s. *)
Record CalculatorComplex : Type :=
  { real : CalculatorFloat; imag : CalculatorFloat }.

Definition from_pair (re im : CalculatorFloat) : CalculatorComplex :=
  {| real := re; imag := im |}.

Definition cmul (a b : CalculatorComplex) : CalculatorComplex :=
  {| real := sub (mul (real a) (real b)) (mul (imag a) (imag b));
     imag := add (mul (real a) (imag b)) (mul (imag a) (real b)) |}.

Definition csub (a b : CalculatorComplex) : CalculatorComplex :=
  {| real := sub (real a) (real b); imag := sub (imag a) (imag b) |}.

Definition cadd (a b : CalculatorComplex) : CalculatorComplex :=
  {| real := add (real a) (real b); imag := add (imag a) (imag b) |}.

Definition conj (a : CalculatorComplex) : CalculatorComplex :=
  {| real := real a; imag := mul (Float (-1)) (imag a) |}.

End Arithmetic.

End calculator.

Import calculator.

(** ** Complex numbers and matrices ([numpy]) *)

Module numpy.

Local Open Scope R_scope.

Record C : Type := mkC { Re : R; Im : R }.

Definition C0 : C := mkC 0 0.
Definition C1 : C := mkC 1 0.
Definition Ci : C := mkC 0 1.
Definition RtoC (x : R) : C := mkC x 0.
Definition Cadd (a b : C) : C := mkC (Re a + Re b) (Im a + Im b).
Definition Csub (a b : C) : C := mkC (Re a - Re b) (Im a - Im b).
Definition Cmul (a b : C) : C :=
  mkC (Re a * Re b - Im a * Im b) (Re a * Im b + Im a * Re b).
Definition Copp (a : C) : C := mkC (- Re a) (- Im a).
Definition Cconj (a : C) : C := mkC (Re a) (- Im a).
(** [np.exp(1j * x)] *)
Definition Cexp_i (x : R) : C := mkC (Rtrigo_def.cos x) (Rtrigo_def.sin x).

(** A two-dimensional array, by rows. *)
Definition matrix : Type := list (list C).

Definition scale (c : C) (m : matrix) : matrix :=
  map (map (Cmul c)) m.

Definition dot (u v : list C) : C :=
  fold_right Cadd C0 (map (fun p => Cmul (fst p) (snd p)) (combine u v)).

Definition column (m : matrix) (j : nat) : list C :=
  map (fun row => nth j row C0) m.

(** [a @ b] for [a] of shape (n, k) and [b] of shape (k, m). *)
Definition matmul (a b : matrix) : matrix :=
  let m := match b with [] => O | row :: _ => List.length row end in
  map (fun row => map (fun j => dot row (column b j)) (seq 0 m)) a.

(** The conjugate transpose and the identity, to say what a unitary
    matrix is. *)
Definition dagger (m : matrix) : matrix :=
  let k := match m with [] => O | row :: _ => List.length row end in
  map (fun j => map Cconj (column m j)) (seq 0 k).

Definition identity (n : nat) : matrix :=
  map (fun i => map (fun j => if Nat.eqb i j then C1 else C0) (seq 0 n))
    (seq 0 n).


End numpy.

Import numpy.

(** ** [_operations_base_classes.py]: [GateOperation] *)

Module operations_base.

(** What a subclass of [GateOperation] fixes at class level.
    [unitary_matrix_from_parameters] is what
    [getattr(self, 'unitary_matrix_from_parameters', None)] finds; it is
    called with the [value] of every parameter, a float or a string. *)
Record GateClass : Type :=
  { __name__ : string;
    _ordered_qubits_dict_default : dict string Z;
    _ordered_parameter_dict_default : dict string CalculatorFloat;
    _rotation_strength_parameters : option (list string);
    unitary_matrix_from_parameters :
      option (dict string CalculatorFloat -> result matrix) }.

(** The instance attributes of a gate. *)
Record GateOperation : Type :=
  { _ordered_qubits_dict : dict string Z;
    _ordered_parameter_dict : dict string CalculatorFloat;
    _parametrized : bool;
    _involved_qubits : list Z }.

Definition is_parametrized (self : GateOperation) : bool :=
  _parametrized self.

(** [set(d.values())] *)
Definition set_of (l : list Z) : list Z := nodup Z.eq_dec l.

(** Equality of two sets of qubits. *)
Definition set_eqb (a b : list Z) : bool :=
  forallb (fun x => existsb (Z.eqb x) b) a
  && forallb (fun x => existsb (Z.eqb x) a) b.

(** [GateOperation.__init__] with [for_copy=False]; the keyword arguments
    come split into the qubit roles and the parameters. *)
Definition __init__ (cls : GateClass)
  (qubit_kwargs : dict string Z)
  (parameter_kwargs : dict string CalculatorFloat) : GateOperation :=
  let step_parameter (acc : dict string CalculatorFloat * bool)
                     (kv : string * CalculatorFloat) :=
    let key := fst kv in
    let v := match get parameter_kwargs key with
             | Some v => v
             | None => snd kv
             end in
    (set (fst acc) key v, if is_float v then snd acc else true) in
  let step_qubit (acc : dict string Z) (kv : string * Z) :=
    let key := fst kv in
    set acc key (match get qubit_kwargs key with
                 | Some q => q
                 | None => snd kv
                 end) in
  let ps := fold_left step_parameter
              (_ordered_parameter_dict_default cls) ([], false) in
  let qs := fold_left step_qubit (_ordered_qubits_dict_default cls) [] in
  {| _ordered_qubits_dict := qs;
     _ordered_parameter_dict := fst ps;
     _parametrized := snd ps;
     _involved_qubits := set_of (values qs) |}.

Section Substitution.
Context {calc : Calculator}.

(** The assignments prefixed to every expression:
    ['{}={}; '.format(key, val)] for each binding, in order. *)
Definition substitution_string (substitution_dict : dict string CalculatorFloat)
  : string :=
  fold_left
    (fun s kv => (s ++ fst kv ++ "=" ++ to_string (snd kv) ++ "; ")%string)
    substitution_dict ""%string.

(** The loop over [self._ordered_parameter_dict.keys()]: the dictionary as
    it stands when the loop ends or when [parse_string] raises. *)
Fixpoint substitute_loop (prefix : string) (keys : list string)
  (d : dict string CalculatorFloat)
  : dict string CalculatorFloat * result unit :=
  match keys with
  | [] => (d, Ok tt)
  | key :: rest =>
      match get d key with
      | None => (d, Raise KeyError)
      | Some (Float _) => substitute_loop prefix rest d
      | Some (Str value) =>
          match parse_string (prefix ++ "; " ++ value)%string with
          | None => (d, Raise ValueError)
          | Some new_parameter =>
              substitute_loop prefix rest (set d key (Float new_parameter))
          end
      end
  end.

(** [GateOperation.substitute_parameters]: the gate after the call and
    whether the call returned or raised. *)
Definition substitute_parameters (self : GateOperation)
  (substitution_dict : dict string CalculatorFloat)
  : GateOperation * result unit :=
  if is_parametrized self then
    let '(d, r) :=
      substitute_loop (substitution_string substitution_dict)
        (keys (_ordered_parameter_dict self)) (_ordered_parameter_dict self) in
    match r with
    | Ok _ =>
        ({| _ordered_qubits_dict := _ordered_qubits_dict self;
            _ordered_parameter_dict := d;
            _parametrized := false;
            _involved_qubits := _involved_qubits self |}, Ok tt)
    | Raise e =>
        ({| _ordered_qubits_dict := _ordered_qubits_dict self;
            _ordered_parameter_dict := d;
            _parametrized := _parametrized self;
            _involved_qubits := _involved_qubits self |}, Raise e)
    end
  else (self, Ok tt).

End Substitution.

(** The property [GateOperation.unitary_matrix]. *)
Definition unitary_matrix (cls : GateClass) (self : GateOperation)
  : result matrix :=
  if is_parametrized self then Raise ValueError
  else
    let parameters := _ordered_parameter_dict self in
    match unitary_matrix_from_parameters cls with
    | None => Raise AttributeError
    | Some matrix_method => matrix_method parameters
    end.

(** *** Gates as objects in a store

    [__copy__] and [__pow__] build new objects next to existing ones.  A
    gate object holds references to its two dictionaries and its qubit set,
    which are objects of their own. *)

Definition addr : Type := nat.

Record GateObject : Type :=
  { ob_class : GateClass;
    ob_qubits : addr;
    ob_parameters : addr;
    ob_parametrized : option bool;
    ob_involved : option addr }.

Inductive object : Type :=
| OQubits (d : dict string Z)
| OParameters (d : dict string CalculatorFloat)
| OSet (s : list Z)
| OGate (g : GateObject).

Definition store : Type := list object.

(** A computation on the store that returns or raises. *)
Definition M (A : Type) : Type := store -> store * result A.

Definition ret {A} (a : A) : M A := fun s => (s, Ok a).
Definition raise {A} (e : exception) : M A := fun s => (s, Raise e).
Definition mbind {A B} (m : M A) (k : A -> M B) : M B :=
  fun s => match m s with
           | (s1, Ok a) => k a s1
           | (s1, Raise e) => (s1, Raise e)
           end.

Declare Scope store_scope.
Delimit Scope store_scope with store.
Notation "x <- m ;; k" := (mbind m (fun x => k))
  (at level 100, m at next level, right associativity) : store_scope.
Notation "m ;;; k" := (mbind m (fun _ => k))
  (at level 100, right associativity) : store_scope.

Definition alloc (o : object) : M addr :=
  fun s => (s ++ [o], Ok (List.length s)).

Fixpoint replace_nth {A} (l : list A) (n : nat) (x : A) : list A :=
  match l, n with
  | [], _ => []
  | _ :: r, O => x :: r
  | y :: r, S m => y :: replace_nth r m x
  end.

Definition write (a : addr) (o : object) : M unit :=
  fun s => (replace_nth s a o, Ok tt).

Definition read_gate (a : addr) : M GateObject :=
  fun s => match nth_error s a with
           | Some (OGate g) => (s, Ok g)
           | _ => (s, Raise TypeError)
           end.

Definition read_qubits (a : addr) : M (dict string Z) :=
  fun s => match nth_error s a with
           | Some (OQubits d) => (s, Ok d)
           | _ => (s, Raise TypeError)
           end.

Definition read_parameters (a : addr) : M (dict string CalculatorFloat) :=
  fun s => match nth_error s a with
           | Some (OParameters d) => (s, Ok d)
           | _ => (s, Raise TypeError)
           end.

Definition read_set (a : addr) : M (list Z) :=
  fun s => match nth_error s a with
           | Some (OSet q) => (s, Ok q)
           | _ => (s, Raise TypeError)
           end.

Definition attribute {A} (o : option A) : M A :=
  match o with
  | Some a => ret a
  | None => raise AttributeError
  end.

Fixpoint for_each {A} (l : list A) (body : A -> M unit) : M unit :=
  match l with
  | [] => ret tt
  | x :: r => (body x ;;; for_each r body)%store
  end.

(** [GateOperation.__copy__]: the object made by [cls(for_copy=True)],
    then one fresh copy of each dictionary and of the qubit set. *)
Definition __copy__ (self : addr) : M addr :=
  (g <- read_gate self ;;
   q0 <- alloc (OQubits []) ;;
   p0 <- alloc (OParameters []) ;;
   self_copy <- alloc (OGate {| ob_class := ob_class g;
                                ob_qubits := q0;
                                ob_parameters := p0;
                                ob_parametrized := None;
                                ob_involved := None |}) ;;
   qs <- read_qubits (ob_qubits g) ;;
   q1 <- alloc (OQubits qs) ;;
   ps <- read_parameters (ob_parameters g) ;;
   p1 <- alloc (OParameters ps) ;;
   flag <- attribute (ob_parametrized g) ;;
   ia <- attribute (ob_involved g) ;;
   inv <- read_set ia ;;
   i1 <- alloc (OSet inv) ;;
   write self_copy (OGate {| ob_class := ob_class g;
                             ob_qubits := q1;
                             ob_parameters := p1;
                             ob_parametrized := Some flag;
                             ob_involved := Some i1 |}) ;;;
   ret self_copy)%store.

Section Power.
Context {calc : Calculator}.

(** [GateOperation.__pow__] *)
Definition __pow__ (self : addr) (other : CalculatorFloat) : M addr :=
  (return_operation <- __copy__ self ;;
   g <- read_gate self ;;
   match _rotation_strength_parameters (ob_class g) with
   | None => raise AttributeError
   | Some rotation_strength_parameters =>
       for_each rotation_strength_parameters
         (fun parameter =>
            mine <- read_parameters (ob_parameters g) ;;
            v <- (fun s => (s, item mine parameter)) ;;
            r <- read_gate return_operation ;;
            theirs <- read_parameters (ob_parameters r) ;;
            write (ob_parameters r)
              (OParameters (set theirs parameter (mul v other)))) ;;;
       r <- read_gate return_operation ;;
       theirs <- read_parameters (ob_parameters r) ;;
       (if existsb (fun p => negb (is_float p)) (values theirs)
        then write return_operation
               (OGate {| ob_class := ob_class r;
                         ob_qubits := ob_qubits r;
                         ob_parameters := ob_parameters r;
                         ob_parametrized := Some true;
                         ob_involved := ob_involved r |})
        else ret tt) ;;;
       ret return_operation
   end)%store.

End Power.

(** The attributes of the gate object at [a], read through its
    references. *)
Definition view (s : store) (a : addr) : option (GateClass * GateOperation) :=
  match nth_error s a with
  | Some (OGate g) =>
      match nth_error s (ob_qubits g), nth_error s (ob_parameters g),
            ob_parametrized g, ob_involved g with
      | Some (OQubits qs), Some (OParameters ps), Some flag, Some ia =>
          match nth_error s ia with
          | Some (OSet inv) =>
              Some (ob_class g,
                    {| _ordered_qubits_dict := qs;
                       _ordered_parameter_dict := ps;
                       _parametrized := flag;
                       _involved_qubits := inv |})
          | _ => None
          end
      | _, _, _, _ => None
      end
  | _ => None
  end.

(** [new_gate cls g] stores a gate with the attributes [g]. *)
Definition new_gate (cls : GateClass) (g : GateOperation) : M addr :=
  (q <- alloc (OQubits (_ordered_qubits_dict g)) ;;
   p <- alloc (OParameters (_ordered_parameter_dict g)) ;;
   i <- alloc (OSet (_involved_qubits g)) ;;
   alloc (OGate {| ob_class := cls;
                   ob_qubits := q;
                   ob_parameters := p;
                   ob_parametrized := Some (_parametrized g);
                   ob_involved := Some i |}))%store.

(** *** The vocabulary of the power properties *)

(** The six objects [__copy__] adds to a store of [n] objects for a gate
    with the attributes [g]: the two empty dictionaries of
    [cls(for_copy=True)], the copy, and the copies of the two dictionaries
    and of the qubit set, with [ps] in the place of the parameters. *)
Definition copied (n : nat) (cls : GateClass) (g : GateOperation)
  (ps : dict string CalculatorFloat) (flag : bool) : list object :=
  [OQubits []; OParameters [];
   OGate {| ob_class := cls;
            ob_qubits := n + 3;
            ob_parameters := n + 4;
            ob_parametrized := Some flag;
            ob_involved := Some (n + 5) |};
   OQubits (_ordered_qubits_dict g); OParameters ps;
   OSet (_involved_qubits g)].

Section Scaled.
Context {calc : Calculator}.

(** The loop of [__pow__] on the dictionary of the copy: [mine] is the
    dictionary of [self], which the loop reads. *)
Fixpoint scaled (mine theirs : dict string CalculatorFloat)
  (rotation_strength_parameters : list string) (other : CalculatorFloat)
  : dict string CalculatorFloat * result unit :=
  match rotation_strength_parameters with
  | [] => (theirs, Ok tt)
  | parameter :: rest =>
      match get mine parameter with
      | Some v => scaled mine (set theirs parameter (mul v other)) rest other
      | None => (theirs, Raise KeyError)
      end
  end.

End Scaled.

(** A gate has the attributes the constructor of its class gives it: the
    parameters and the qubit roles of the class, and the qubits involved. *)
Definition instance_of (cls : GateClass) (g : GateOperation) : Prop :=
  keys (_ordered_parameter_dict g) = keys (_ordered_parameter_dict_default cls)
  /\ keys (_ordered_qubits_dict g) = keys (_ordered_qubits_dict_default cls)
  /\ _involved_qubits g = set_of (values (_ordered_qubits_dict g)).

(** *** The vocabulary of the substitution properties *)

(** Some parameter of the dictionary is symbolic. *)
Definition symbolic (d : dict string CalculatorFloat) : bool :=
  existsb (fun p => negb (is_float p)) (values d).

(** Every parameter of the dictionary is a literal. *)
Definition literal (d : dict string CalculatorFloat) : bool :=
  forallb is_float (values d).

Section Resolve.
Context {calc : Calculator}.

(** What the substitution loop does to the entries of a dictionary, read
    entry by entry: literals stay, a symbolic expression becomes the float
    [parse_string] gives, and the first expression it cannot evaluate
    stops the loop. *)
Fixpoint resolve (prefix : string) (d : dict string CalculatorFloat)
  : dict string CalculatorFloat * result unit :=
  match d with
  | [] => ([], Ok tt)
  | (key, Float x) :: rest =>
      let '(rest1, r) := resolve prefix rest in ((key, Float x) :: rest1, r)
  | (key, Str value) :: rest =>
      match parse_string (prefix ++ "; " ++ value)%string with
      | None => ((key, Str value) :: rest, Raise ValueError)
      | Some y =>
          let '(rest1, r) := resolve prefix rest in
          ((key, Float y) :: rest1, r)
      end
  end.

End Resolve.

(** *** Remapping qubits *)

(** The loop of [GateOperation.remap_qubits] over the items of the qubit
    dictionary: the dictionary when the loop ends or [mapping_dict[val]]
    raises. *)
Fixpoint remap_loop (mapping_dict : dict Z Z) (items : list (string * Z))
  (d : dict string Z) : dict string Z * result unit :=
  match items with
  | [] => (d, Ok tt)
  | (key, val) :: rest =>
      match get mapping_dict val with
      | None => (d, Raise KeyError)
      | Some q => remap_loop mapping_dict rest (set d key q)
      end
  end.

(** [GateOperation.remap_qubits]: the gate after the call and whether the
    call returned or raised.  The qubit set is assigned after the loop. *)
Definition remap_qubits (self : GateOperation) (mapping_dict : dict Z Z)
  : GateOperation * result unit :=
  let '(d, r) :=
    remap_loop mapping_dict (_ordered_qubits_dict self)
      (_ordered_qubits_dict self) in
  match r with
  | Ok _ =>
      ({| _ordered_qubits_dict := d;
          _ordered_parameter_dict := _ordered_parameter_dict self;
          _parametrized := _parametrized self;
          _involved_qubits := set_of (values d) |}, Ok tt)
  | Raise e =>
      ({| _ordered_qubits_dict := d;
          _ordered_parameter_dict := _ordered_parameter_dict self;
          _parametrized := _parametrized self;
          _involved_qubits := _involved_qubits self |}, Raise e)
  end.

(** [GateOperation.number_of_qubits] *)
Definition number_of_qubits (cls : GateClass) : Z :=
  len (_ordered_qubits_dict_default cls).


(** What the remapping loop does to the entries of the qubit dictionary,
    read entry by entry: a qubit becomes what [mapping_dict] has for it,
    and the first qubit it has nothing for stops the loop. *)
Fixpoint remapped (mapping_dict : dict Z Z) (d : dict string Z)
  : dict string Z * result unit :=
  match d with
  | [] => ([], Ok tt)
  | (key, val) :: rest =>
      match get mapping_dict val with
      | None => ((key, val) :: rest, Raise KeyError)
      | Some q =>
          let '(rest1, r) := remapped mapping_dict rest in
          ((key, q) :: rest1, r)
      end
  end.


End operations_base.

Import operations_base.

(** ** [single_qubit_gate_operations.py] *)

Module single_qubit.

Local Open Scope R_scope.

(** The subclasses of [SingleQubitGateOperation]. *)
Inductive variant : Type :=
| SingleQubitGate | Hadamard | PauliX | PauliY | PauliZ | SGate | TGate
| SqrtPauliX | InvSqrtPauliX | RotateX | RotateY | RotateZ
| RotateAroundSphericalAxis | W.

Definition isinstance_SingleQubitGate (v : variant) : bool :=
  match v with
  | SingleQubitGate => true
  | _ => false
  end.

(** A float passed by keyword: a missing keyword and a string where numpy
    wants a number both raise [TypeError]. *)
Definition keyword (parameters : dict string CalculatorFloat) (name : string)
  : result R :=
  match get parameters name with
  | Some (Float x) => Ok x
  | _ => Raise TypeError
  end.

Definition keyword_default (parameters : dict string CalculatorFloat)
  (name : string) (default : R) : result R :=
  match get parameters name with
  | Some (Float x) => Ok x
  | Some (Str _) => Raise TypeError
  | None => Ok default
  end.

(** [[c, -1j * s], [-1j * s, c]] *)
Definition x_rotation (c s : R) : matrix :=
  [[RtoC c; Cmul (Copp Ci) (RtoC s)];
   [Cmul (Copp Ci) (RtoC s); RtoC c]].

(** The matrix of [RotateAroundSphericalAxis] and [W] from [c], [s] and
    the axis. *)
Definition axis_rotation (c s vx vy vz : R) : matrix :=
  [[Csub (RtoC c) (Cmul Ci (RtoC (s * vz)));
    Cmul (RtoC s) (Csub (Cmul (Copp Ci) (RtoC vx)) (RtoC vy))];
   [Cmul (RtoC s) (Cadd (Cmul (Copp Ci) (RtoC vx)) (RtoC vy));
    Cadd (RtoC c) (Cmul Ci (RtoC (s * vz)))]].

(** The static method [unitary_matrix_from_parameters] of each class. *)
Definition matrix_from_parameters (v : variant)
  (parameters : dict string CalculatorFloat) : result matrix :=
  match v with
  | SingleQubitGate =>
      bind (keyword parameters "alpha_r") (fun alpha_r =>
      bind (keyword parameters "alpha_i") (fun alpha_i =>
      bind (keyword parameters "beta_r") (fun beta_r =>
      bind (keyword parameters "beta_i") (fun beta_i =>
      bind (keyword_default parameters "global_phase" 0) (fun global_phase =>
      let alpha := mkC alpha_r alpha_i in
      let beta := mkC beta_r beta_i in
      Ok (scale (Cexp_i global_phase)
            [[alpha; Copp (Cconj beta)]; [beta; Cconj alpha]]))))))
  | Hadamard =>
      Ok (scale (RtoC (1 / sqrt 2)) [[C1; C1]; [C1; Copp C1]])
  | PauliX => Ok [[C0; C1]; [C1; C0]]
  | PauliY => Ok [[C0; Copp Ci]; [Ci; C0]]
  | PauliZ => Ok [[C1; C0]; [C0; Copp C1]]
  | SGate => Ok [[C1; C0]; [C0; Ci]]
  | TGate => Ok [[C1; C0]; [C0; Cexp_i (PI / 4)]]
  | SqrtPauliX =>
      let theta := PI / 2 in
      Ok (x_rotation (Rtrigo_def.cos (theta / 2)) (Rtrigo_def.sin (theta / 2)))
  | InvSqrtPauliX =>
      let theta := - PI / 2 in
      Ok (x_rotation (Rtrigo_def.cos (theta / 2)) (Rtrigo_def.sin (theta / 2)))
  | RotateX =>
      bind (keyword parameters "theta") (fun theta =>
      Ok (x_rotation (Rtrigo_def.cos (theta / 2)) (Rtrigo_def.sin (theta / 2))))
  | RotateY =>
      bind (keyword parameters "theta") (fun theta =>
      let c := Rtrigo_def.cos (theta / 2) in
      let s := Rtrigo_def.sin (theta / 2) in
      Ok [[RtoC c; RtoC (- s)]; [RtoC s; RtoC c]])
  | RotateZ =>
      bind (keyword parameters "theta") (fun theta =>
      let c := Rtrigo_def.cos (theta / 2) in
      let s := Rtrigo_def.sin (theta / 2) in
      Ok [[Csub (RtoC c) (Cmul Ci (RtoC s)); C0];
          [C0; Cadd (RtoC c) (Cmul Ci (RtoC s))]])
  | RotateAroundSphericalAxis =>
      bind (keyword parameters "theta") (fun theta =>
      bind (keyword parameters "spherical_theta") (fun spherical_theta =>
      bind (keyword parameters "spherical_phi") (fun spherical_phi =>
      let c := Rtrigo_def.cos (theta / 2) in
      let s := Rtrigo_def.sin (theta / 2) in
      let vx := Rtrigo_def.sin spherical_theta * Rtrigo_def.cos spherical_phi in
      let vy := Rtrigo_def.sin spherical_theta * Rtrigo_def.sin spherical_phi in
      let vz := Rtrigo_def.cos spherical_theta in
      Ok (axis_rotation c s vx vy vz))))
  | W =>
      bind (keyword parameters "theta") (fun theta =>
      bind (keyword parameters "spherical_phi") (fun spherical_phi =>
      let c := Rtrigo_def.cos (theta / 2) in
      let s := Rtrigo_def.sin (theta / 2) in
      let vx := Rtrigo_def.cos spherical_phi in
      let vy := Rtrigo_def.sin spherical_phi in
      let vz := 0 in
      Ok (axis_rotation c s vx vy vz)))
  end.

Definition parameter_defaults (v : variant) : dict string CalculatorFloat :=
  match v with
  | SingleQubitGate =>
      [("alpha_r", Float 1); ("alpha_i", Float 0); ("beta_r", Float 0);
       ("beta_i", Float 0); ("global_phase", Float 0)]
  | RotateX | RotateY | RotateZ => [("theta", Float 0)]
  | RotateAroundSphericalAxis =>
      [("theta", Float 0); ("spherical_theta", Float (PI / 2));
       ("spherical_phi", Float 0)]
  | W => [("theta", Float 0); ("spherical_phi", Float 0)]
  | _ => []
  end%string.

Definition rotation_strength (v : variant) : option (list string) :=
  match v with
  | RotateX | RotateY | RotateZ | RotateAroundSphericalAxis | W =>
      Some ["theta"%string]
  | _ => None
  end.

Definition class_name (v : variant) : string :=
  match v with
  | SingleQubitGate => "SingleQubitGate" | Hadamard => "Hadamard"
  | PauliX => "PauliX" | PauliY => "PauliY" | PauliZ => "PauliZ"
  | SGate => "SGate" | TGate => "TGate" | SqrtPauliX => "SqrtPauliX"
  | InvSqrtPauliX => "InvSqrtPauliX" | RotateX => "RotateX"
  | RotateY => "RotateY" | RotateZ => "RotateZ"
  | RotateAroundSphericalAxis => "RotateAroundSphericalAxis" | W => "W"
  end%string.

(** The class object of a variant. *)
Definition class_of (v : variant) : GateClass :=
  {| __name__ := class_name v;
     _ordered_qubits_dict_default := [("qubit"%string, 0%Z)];
     _ordered_parameter_dict_default := parameter_defaults v;
     _rotation_strength_parameters := rotation_strength v;
     unitary_matrix_from_parameters := Some (matrix_from_parameters v) |}.

Section Algebra.
Context {calc : Calculator}.

Definition parameter (self : GateOperation) (name : string)
  : result CalculatorFloat :=
  item (_ordered_parameter_dict self) name.

Definition half_angle (self : GateOperation) : result CalculatorFloat :=
  bind (parameter self "theta") (fun theta => Ok (div theta (Float 2))).

(** The methods [_alpha_r], [_alpha_i], [_beta_r], [_beta_i] and
    [_global_phase] of each class. *)
Definition alpha_r (v : variant) (self : GateOperation)
  : result CalculatorFloat :=
  match v with
  | SingleQubitGate => parameter self "alpha_r"
  | Hadamard | PauliX | PauliY | PauliZ => Ok (Float 0)
  | SGate => Ok (Float (1 / sqrt 2))
  | TGate => Ok (Float (Rtrigo_def.cos (PI / 8)))
  | SqrtPauliX | InvSqrtPauliX => Ok (Float (Rtrigo_def.cos (PI / 4)))
  | RotateX | RotateY | RotateZ | RotateAroundSphericalAxis | W =>
      bind (half_angle self) (fun h => Ok (cos h))
  end.

Definition alpha_i (v : variant) (self : GateOperation)
  : result CalculatorFloat :=
  match v with
  | SingleQubitGate => parameter self "alpha_i"
  | Hadamard => Ok (Float (- 1 / sqrt 2))
  | PauliX | PauliY => Ok (Float 0)
  | PauliZ => Ok (Float (- 1))
  | SGate => Ok (Float (- 1 / sqrt 2))
  | TGate => Ok (Float (- Rtrigo_def.sin (PI / 8)))
  | SqrtPauliX | InvSqrtPauliX | RotateX | RotateY | W => Ok (Float 0)
  | RotateZ =>
      bind (half_angle self) (fun h => Ok (mul (Float (- 1)) (sin h)))
  | RotateAroundSphericalAxis =>
      bind (half_angle self) (fun h =>
      let s := sin h in
      bind (parameter self "spherical_theta") (fun spherical_theta =>
      let vz := cos spherical_theta in
      Ok (mul (mul (Float (- 1)) s) vz)))
  end.

Definition beta_r (v : variant) (self : GateOperation)
  : result CalculatorFloat :=
  match v with
  | SingleQubitGate => parameter self "beta_r"
  | PauliY => Ok (Float 1)
  | RotateY => bind (half_angle self) (fun h => Ok (sin h))
  | RotateAroundSphericalAxis =>
      bind (half_angle self) (fun h =>
      let s := sin h in
      bind (parameter self "spherical_phi") (fun spherical_phi =>
      let vy := sin spherical_phi in
      bind (parameter self "spherical_theta") (fun spherical_theta =>
      let st := sin spherical_theta in
      Ok (mul (mul s vy) st))))
  | W =>
      bind (half_angle self) (fun h =>
      let s := sin h in
      bind (parameter self "spherical_phi") (fun spherical_phi =>
      let vy := sin spherical_phi in
      Ok (mul s vy)))
  | _ => Ok (Float 0)
  end.

Definition beta_i (v : variant) (self : GateOperation)
  : result CalculatorFloat :=
  match v with
  | SingleQubitGate => parameter self "beta_i"
  | Hadamard => Ok (Float (- 1 / sqrt 2))
  | PauliX => Ok (Float (- 1))
  | SqrtPauliX => Ok (Float (- Rtrigo_def.sin (PI / 4)))
  | InvSqrtPauliX => Ok (Float (Rtrigo_def.sin (PI / 4)))
  | RotateX =>
      bind (half_angle self) (fun h => Ok (mul (Float (- 1)) (sin h)))
  | RotateAroundSphericalAxis =>
      bind (half_angle self) (fun h =>
      let s := sin h in
      bind (parameter self "spherical_phi") (fun spherical_phi =>
      let vx := cos spherical_phi in
      bind (parameter self "spherical_theta") (fun spherical_theta =>
      let st := sin spherical_theta in
      Ok (mul (mul (mul (Float (- 1)) s) vx) st))))
  | W =>
      bind (half_angle self) (fun h =>
      let s := sin h in
      bind (parameter self "spherical_phi") (fun spherical_phi =>
      let vx := cos spherical_phi in
      Ok (mul (mul (Float (- 1)) s) vx)))
  | _ => Ok (Float 0)
  end.

Definition global_phase (v : variant) (self : GateOperation)
  : result CalculatorFloat :=
  match v with
  | SingleQubitGate => parameter self "global_phase"
  | Hadamard | PauliX | PauliY | PauliZ => Ok (Float (PI / 2))
  | SGate => Ok (Float (PI / 4))
  | TGate => Ok (Float (PI / 8))
  | _ => Ok (Float 0)
  end.

(** The property [single_qubit_gate]: for [SingleQubitGate] a copy of the
    gate, for the other classes a [SingleQubitGate] built from the five
    scalars. *)
Definition single_qubit_gate (v : variant) (self : GateOperation)
  : result GateOperation :=
  if isinstance_SingleQubitGate v then Ok self
  else
    bind (item (_ordered_qubits_dict self) "qubit"%string) (fun qubit =>
    bind (alpha_r v self) (fun ar =>
    bind (alpha_i v self) (fun ai =>
    bind (beta_r v self) (fun br =>
    bind (beta_i v self) (fun bi =>
    bind (global_phase v self) (fun gp =>
    Ok (__init__ (class_of SingleQubitGate) [("qubit"%string, qubit)]
          [("alpha_r", ar); ("alpha_i", ai); ("beta_r", br); ("beta_i", bi);
           ("global_phase", gp)]%string))))))).

(** The five scalars of the product, shared by [__mul__] and
    [__imul__]: [s] and [other] are [SingleQubitGate]s. *)
Definition product_parameters (s other : GateOperation)
  : result (dict string CalculatorFloat) :=
  bind (alpha_r SingleQubitGate s) (fun s_alpha_r =>
  bind (alpha_i SingleQubitGate s) (fun s_alpha_i =>
  let alpha := from_pair s_alpha_r s_alpha_i in
  bind (beta_r SingleQubitGate s) (fun s_beta_r =>
  bind (beta_i SingleQubitGate s) (fun s_beta_i =>
  let beta := from_pair s_beta_r s_beta_i in
  bind (alpha_r SingleQubitGate other) (fun o_alpha_r =>
  bind (alpha_i SingleQubitGate other) (fun o_alpha_i =>
  let oalpha := from_pair o_alpha_r o_alpha_i in
  bind (beta_r SingleQubitGate other) (fun o_beta_r =>
  bind (beta_i SingleQubitGate other) (fun o_beta_i =>
  let obeta := from_pair o_beta_r o_beta_i in
  let new_alpha := csub (cmul alpha oalpha) (cmul obeta (conj beta)) in
  let new_beta := cadd (cmul beta oalpha) (cmul obeta (conj alpha)) in
  bind (global_phase SingleQubitGate s) (fun s_phase =>
  bind (global_phase SingleQubitGate other) (fun o_phase =>
  let global_phase_new := add s_phase o_phase in
  Ok [("alpha_r", real new_alpha); ("alpha_i", imag new_alpha);
      ("beta_r", real new_beta); ("beta_i", imag new_beta);
      ("global_phase", global_phase_new)]%string)))))))))).

(** [SingleQubitGateOperation.__mul__]; [other] is an instance of a
    subclass of [SingleQubitGateOperation] by its type. *)
Definition __mul__ (v : variant) (self : GateOperation)
  (vo : variant) (other : GateOperation) : result GateOperation :=
  if set_eqb (_involved_qubits self) (_involved_qubits other) then
    bind (single_qubit_gate vo other) (fun other =>
    bind (single_qubit_gate v self) (fun s =>
    bind (product_parameters s other) (fun new_parameters =>
    bind (item (_ordered_qubits_dict self) "qubit"%string) (fun qubit =>
    Ok (__init__ (class_of SingleQubitGate) [("qubit"%string, qubit)]
          new_parameters)))))
  else Raise ValueError.

(** [SingleQubitGate.__imul__]: [self] after the call.  The five entries
    of the parameter dictionary are overwritten; no other attribute is
    assigned. *)
Definition __imul__ (self : GateOperation)
  (vo : variant) (other : GateOperation) : result GateOperation :=
  if set_eqb (_involved_qubits self) (_involved_qubits other) then
    bind (single_qubit_gate vo other) (fun other =>
    bind (product_parameters self other) (fun new_parameters =>
    Ok {| _ordered_qubits_dict := _ordered_qubits_dict self;
          _ordered_parameter_dict :=
            update (_ordered_parameter_dict self) new_parameters;
          _parametrized := _parametrized self;
          _involved_qubits := _involved_qubits self |}))
  else Raise ValueError.

End Algebra.

(** The matrix the class docstring of [SingleQubitGateOperation] gives for
    the five scalars. *)
Definition general_form (ar ai br bi phase : R) : matrix :=
  scale (Cexp_i phase)
    [[mkC ar ai; mkC (- br) bi]; [mkC br bi; mkC ar (- ai)]].

(** The class attributes [_is_self_inverse] and
    [_rotation_strength_modulo]. *)
Definition _is_self_inverse (v : variant) : bool :=
  match v with
  | PauliX | PauliY | PauliZ => true
  | _ => false
  end.

Definition _rotation_strength_modulo (v : variant) : dict string R :=
  match v with
  | RotateX | RotateY | RotateZ | RotateAroundSphericalAxis | W =>
      [("theta"%string, 4 * PI)]
  | _ => []
  end.

(** The five scalars of a gate have norm one:
    [alpha_r ** 2 + alpha_i ** 2 + beta_r ** 2 + beta_i ** 2 == 1]. *)
Definition normalised (parameters : dict string CalculatorFloat) : Prop :=
  exists ar ai br bi,
    get parameters "alpha_r"%string = Some (Float ar)
    /\ get parameters "alpha_i"%string = Some (Float ai)
    /\ get parameters "beta_r"%string = Some (Float br)
    /\ get parameters "beta_i"%string = Some (Float bi)
    /\ ar * ar + ai * ai + br * br + bi * bi = 1.


End single_qubit.

(** ** [two_qubit_gate_operations.py]: the classes with a rotation strength

    Of the two-qubit gates, the class attributes of those that set
    [_rotation_strength_parameters]; the matrix method of a class is taken
    as given. *)

Module two_qubit.

Inductive variant : Type :=
| VariableMSXX | ControlledPhaseShift | Bogoliubov | PMInteraction
| ComplexPMInteraction | XY.

Definition class_name (v : variant) : string :=
  match v with
  | VariableMSXX => "VariableMSXX"
  | ControlledPhaseShift => "ControlledPhaseShift"
  | Bogoliubov => "Bogoliubov"
  | PMInteraction => "PMInteraction"
  | ComplexPMInteraction => "ComplexPMInteraction"
  | XY => "XY"
  end%string.

Definition qubit_defaults (v : variant) : dict string Z :=
  match v with
  | VariableMSXX | ControlledPhaseShift | XY => [("control", 1); ("qubit", 0)]
  | Bogoliubov | PMInteraction | ComplexPMInteraction => [("i", 0); ("j", 1)]
  end%string%Z.

Definition parameter_defaults (v : variant) : dict string CalculatorFloat :=
  match v with
  | VariableMSXX | ControlledPhaseShift | PMInteraction | XY =>
      [("theta", Float 0)]
  | Bogoliubov => [("Delta_real", Float 0); ("Delta_imag", Float 0)]
  | ComplexPMInteraction => [("theta_real", Float 0); ("theta_imag", Float 0)]
  end%string.

Definition rotation_strength (v : variant) : list string :=
  match v with
  | VariableMSXX | ControlledPhaseShift | PMInteraction | XY => ["theta"]
  | Bogoliubov => ["Delta_real"; "Delta_imag"]
  | ComplexPMInteraction => ["theta_real"; "theta_imag"]
  end%string.

Definition class_of (v : variant)
  (matrix_method : dict string CalculatorFloat -> result matrix)
  : GateClass :=
  {| __name__ := class_name v;
     _ordered_qubits_dict_default := qubit_defaults v;
     _ordered_parameter_dict_default := parameter_defaults v;
     _rotation_strength_parameters := Some (rotation_strength v);
     unitary_matrix_from_parameters := Some matrix_method |}.

End two_qubit.

(** ** [two_qubit_gate_operations.py]: the matrices

    The two-qubit classes whose [unitary_matrix_from_parameters] takes no
    parameter or the one angle [theta], with the class attributes
    [_is_self_inverse] and [_rotation_strength_modulo]. *)

Module two_qubit_unitaries.

Local Open Scope R_scope.

Inductive variant : Type :=
| CNOT | ISwap | FSwap | SqrtISwap | InvSqrtISwap | MolmerSorensenXX | SWAP
| ControlledPauliY | ControlledPauliZ
| VariableMSXX | ControlledPhaseShift | PMInteraction | XY.

Definition _is_self_inverse (v : variant) : bool :=
  match v with
  | CNOT | SWAP | ControlledPauliY | ControlledPauliZ => true
  | _ => false
  end.

Definition _rotation_strength_parameters (v : variant)
  : option (list string) :=
  match v with
  | VariableMSXX | ControlledPhaseShift | PMInteraction | XY =>
      Some ["theta"%string]
  | _ => None
  end.

Definition _rotation_strength_modulo (v : variant) : dict string R :=
  match v with
  | VariableMSXX | XY => [("theta"%string, 4 * PI)]
  | ControlledPhaseShift | PMInteraction => [("theta"%string, 2 * PI)]
  | _ => []
  end.

(** The static method [unitary_matrix_from_parameters] of each class. *)
Definition matrix_from_parameters (v : variant)
  (parameters : dict string CalculatorFloat) : result matrix :=
  match v with
  | CNOT =>
      Ok [[C1; C0; C0; C0]; [C0; C1; C0; C0];
          [C0; C0; C0; C1]; [C0; C0; C1; C0]]
  | ISwap =>
      Ok [[C1; C0; C0; C0]; [C0; C0; Ci; C0];
          [C0; Ci; C0; C0]; [C0; C0; C0; C1]]
  | FSwap =>
      Ok [[C1; C0; C0; C0]; [C0; C0; C1; C0];
          [C0; C1; C0; C0]; [C0; C0; C0; Copp C1]]
  | SqrtISwap =>
      Ok [[C1; C0; C0; C0];
          [C0; RtoC (1 / sqrt 2); mkC 0 (1 / sqrt 2); C0];
          [C0; mkC 0 (1 / sqrt 2); RtoC (1 / sqrt 2); C0];
          [C0; C0; C0; C1]]
  | InvSqrtISwap =>
      Ok [[C1; C0; C0; C0];
          [C0; RtoC (1 / sqrt 2); mkC 0 (- 1 / sqrt 2); C0];
          [C0; mkC 0 (- 1 / sqrt 2); RtoC (1 / sqrt 2); C0];
          [C0; C0; C0; C1]]
  | MolmerSorensenXX =>
      Ok (scale (RtoC (/ sqrt 2))
            [[C1; C0; C0; Copp Ci]; [C0; C1; Copp Ci; C0];
             [C0; Copp Ci; C1; C0]; [Copp Ci; C0; C0; C1]])
  | SWAP =>
      Ok [[C1; C0; C0; C0]; [C0; C0; C1; C0];
          [C0; C1; C0; C0]; [C0; C0; C0; C1]]
  | ControlledPauliY =>
      Ok [[C1; C0; C0; C0]; [C0; C1; C0; C0];
          [C0; C0; C0; Copp Ci]; [C0; C0; Ci; C0]]
  | ControlledPauliZ =>
      Ok [[C1; C0; C0; C0]; [C0; C1; C0; C0];
          [C0; C0; C1; C0]; [C0; C0; C0; Copp C1]]
  | VariableMSXX =>
      bind (single_qubit.keyword parameters "theta") (fun theta =>
      let cos := RtoC (Rtrigo_def.cos (theta / 2)) in
      let sin := Cmul Ci (RtoC (Rtrigo_def.sin (theta / 2))) in
      Ok [[cos; C0; C0; Copp sin]; [C0; cos; Copp sin; C0];
          [C0; Copp sin; cos; C0]; [Copp sin; C0; C0; cos]])
  | ControlledPhaseShift =>
      bind (single_qubit.keyword parameters "theta") (fun theta =>
      Ok [[C1; C0; C0; C0]; [C0; C1; C0; C0];
          [C0; C0; C1; C0]; [C0; C0; C0; Cexp_i theta]])
  | PMInteraction =>
      bind (single_qubit.keyword parameters "theta") (fun theta =>
      let c := RtoC (Rtrigo_def.cos theta) in
      let s := Cmul (Copp Ci) (RtoC (Rtrigo_def.sin theta)) in
      Ok [[C1; C0; C0; C0]; [C0; c; s; C0];
          [C0; s; c; C0]; [C0; C0; C0; C1]])
  | XY =>
      bind (single_qubit.keyword parameters "theta") (fun theta =>
      let c := RtoC (Rtrigo_def.cos (theta / 2)) in
      let s := Cmul Ci (RtoC (Rtrigo_def.sin (theta / 2))) in
      Ok [[C1; C0; C0; C0]; [C0; c; s; C0];
          [C0; s; c; C0]; [C0; C0; C0; C1]])
  end.

(** The class attributes [_ordered_qubits_dict_default] and
    [_ordered_parameter_dict_default], and the class object. *)
Definition class_name (v : variant) : string :=
  match v with
  | CNOT => "CNOT"
  | ISwap => "ISwap"
  | FSwap => "FSwap"
  | SqrtISwap => "SqrtISwap"
  | InvSqrtISwap => "InvSqrtISwap"
  | MolmerSorensenXX => "MolmerSorensenXX"
  | SWAP => "SWAP"
  | ControlledPauliY => "ControlledPauliY"
  | ControlledPauliZ => "ControlledPauliZ"
  | VariableMSXX => "VariableMSXX"
  | ControlledPhaseShift => "ControlledPhaseShift"
  | PMInteraction => "PMInteraction"
  | XY => "XY"
  end%string.

Definition qubit_defaults (v : variant) : dict string Z :=
  match v with
  | PMInteraction => [("i", 0); ("j", 1)]
  | _ => [("control", 1); ("qubit", 0)]
  end%string%Z.

Definition parameter_defaults (v : variant) : dict string CalculatorFloat :=
  match v with
  | VariableMSXX | ControlledPhaseShift | PMInteraction | XY =>
      [("theta"%string, Float 0)]
  | _ => []
  end.

Definition class_of (v : variant) : GateClass :=
  {| __name__ := class_name v;
     operations_base._ordered_qubits_dict_default := qubit_defaults v;
     operations_base._ordered_parameter_dict_default := parameter_defaults v;
     operations_base._rotation_strength_parameters :=
       _rotation_strength_parameters v;
     unitary_matrix_from_parameters := Some (matrix_from_parameters v) |}.

End two_qubit_unitaries.

(** ** [circuit.py] *)

Module circuit.

Import define_operations.

(** The operations a circuit holds.  [OpGate] is an operation that keeps
    its parameters in [_ordered_parameter_dict] (the gates; the noise
    pragmas carry the same code); [OpOther] is an operation that inherits
    [Operation.substitute_parameters], such as [MeasureQubit], given by its
    hqs_lang text. *)
Inductive Operation : Type :=
| OpDefinition (d : DefinitionOp)
| OpGate (cls : GateClass) (g : GateOperation)
| OpOther (text : string).

(** [isinstance(operation, Definition)] *)
Definition isinstance_Definition (operation : Operation) : bool :=
  match operation with
  | OpDefinition _ => true
  | _ => false
  end.

Record Circuit : Type :=
  { _definitions : list DefinitionOp;
    _operations : list Operation }.

(** [Circuit()] *)
Definition empty : Circuit :=
  {| _definitions := []; _operations := [] |}.

(** [Circuit.__len__] *)
Definition __len__ (self : Circuit) : Z :=
  (len (_definitions self) + len (_operations self))%Z.

(** [Circuit.__getitem__] at an integer key. *)
Definition __getitem__ (self : Circuit) (key : Z) : result Operation :=
  if (key <? len (_definitions self))%Z then
    bind (getitem (_definitions self) key) (fun d => Ok (OpDefinition d))
  else
    let return_key := (key - len (_definitions self))%Z in
    getitem (_operations self) return_key.

(** [Circuit.__iter__], as the list of what it yields. *)
Definition __iter__ (self : Circuit) : list Operation :=
  map OpDefinition (_definitions self) ++ _operations self.

(** [Circuit._append_operation]; every [Operation] is an instance of
    [Operation], so the [TypeError] branch is not reached. *)
Definition _append_operation (self : Circuit) (operation : Operation)
  : Circuit :=
  match operation with
  | OpDefinition d =>
      if negb (contains (_definitions self) d) then
        {| _definitions := _definitions self ++ [d];
           _operations := _operations self |}
      else self
  | _ =>
      {| _definitions := _definitions self;
         _operations := _operations self ++ [operation] |}
  end.

(** [Circuit._insert_operation] *)
Definition _insert_operation (self : Circuit) (index : Z)
  (operation : Operation) : Circuit :=
  match operation with
  | OpDefinition d =>
      if negb (contains (_definitions self) d) then
        {| _definitions := _definitions self ++ [d];
           _operations := _operations self |}
      else self
  | _ =>
      {| _definitions := _definitions self;
         _operations := Py.insert (_operations self) index operation |}
  end.

(** [Circuit.insert] with a single operation. *)
Definition insert (self : Circuit) (index : Z) (other : Operation)
  : Circuit :=
  _insert_operation self (index - len (_definitions self))%Z other.

(** [circuit += operation] *)
Definition __iadd__ (self : Circuit) (other : Operation) : Circuit :=
  _append_operation self other.

(** A slice [start:stop:step]; a part left out is [None]. *)
Record slice : Type :=
  { start : option Z;
    stop : option Z;
    step : option Z }.

(** [c[key]] for every key of a list, in order, up to the first one that
    raises. *)
Fixpoint getitems (self : Circuit) (keys : list Z)
  : result (list Operation) :=
  match keys with
  | [] => Ok []
  | key :: rest =>
      bind (__getitem__ self key) (fun op =>
      bind (getitems self rest) (fun ops => Ok (op :: ops)))
  end.

(** [Circuit.__getitem__] at a slice. *)
Definition __getitem__slice (self : Circuit) (keyslice : slice)
  : result (list Operation) :=
  let step := match step keyslice with None => 1%Z | Some s => s end in
  let start :=
    if (step <? 0)%Z then
      match start keyslice with
      | Some a => a
      | None => (__len__ self - 1)%Z
      end
    else match start keyslice with Some a => a | None => 0%Z end in
  let stop :=
    if (step <? 0)%Z then
      match stop keyslice with Some b => b | None => (-1)%Z end
    else match stop keyslice with Some b => b | None => __len__ self end in
  bind (range3 start stop step) (getitems self).

(** [Circuit.__delitem__] at an integer key.  A [del] that raises has
    changed nothing. *)
Definition __delitem__ (self : Circuit) (key : Z) : result Circuit :=
  if (key <? len (_definitions self))%Z then
    bind (delitem (_definitions self) key) (fun definitions =>
    Ok {| _definitions := definitions; _operations := _operations self |})
  else
    let del_key := (key - len (_definitions self))%Z in
    bind (delitem (_operations self) del_key) (fun operations =>
    Ok {| _definitions := _definitions self; _operations := operations |}).

(** The loop of [__delitem__] at a slice: one [del] per key, each on the
    circuit the ones before left; the circuit when the loop ends or
    raises. *)
Fixpoint delitems (self : Circuit) (keys : list Z) : Circuit * result unit :=
  match keys with
  | [] => (self, Ok tt)
  | key :: rest =>
      match __delitem__ self key with
      | Ok self1 => delitems self1 rest
      | Raise e => (self, Raise e)
      end
  end.

(** [Circuit.__delitem__] at a slice; [range] wants integers for [start]
    and [stop], [None] is a [TypeError]. *)
Definition __delitem__slice (self : Circuit) (keyslice : slice)
  : Circuit * result unit :=
  match start keyslice, stop keyslice with
  | Some start, Some stop =>
      let step := match step keyslice with None => 1%Z | Some s => s end in
      match range3 start stop step with
      | Ok keys => delitems self keys
      | Raise e => (self, Raise e)
      end
  | _, _ => (self, Raise TypeError)
  end.

(** [Circuit.__setitem__] at an integer key, [val] an operation. *)
Definition __setitem__ (self : Circuit) (key : Z) (val : Operation)
  : result Circuit :=
  if (key <? len (_definitions self))%Z then
    match val with
    | OpDefinition d =>
        bind (assign (_definitions self) key d) (fun definitions =>
        Ok {| _definitions := definitions; _operations := _operations self |})
    | _ => Raise KeyError
    end
  else
    let set_key := (key - len (_definitions self))%Z in
    bind (assign (_operations self) set_key val) (fun operations =>
    Ok {| _definitions := _definitions self; _operations := operations |}).

(** What can stand on the right of [+=] and [+]: a circuit, an operation,
    an iterable of operations, or [None]. *)
Inductive addend : Type :=
| OfCircuit (other : Circuit)
| OfOperation (other : Operation)
| OfIterable (other : list Operation)
| OfNone.

(** The branches [__iadd__] and [__add__] share, on the circuit they
    build up. *)
Definition add_to (new_circuit : Circuit) (other : addend) : Circuit :=
  match other with
  | OfCircuit other =>
      let c := fold_left
                 (fun c op => _append_operation c (OpDefinition op))
                 (_definitions other) new_circuit in
      {| _definitions := _definitions c;
         _operations := _operations c ++ _operations other |}
  | OfOperation other => _append_operation new_circuit other
  | OfIterable other => fold_left _append_operation other new_circuit
  | OfNone => new_circuit
  end.

(** [Circuit.__iadd__] at every kind of [other].  When [other] is [self]
    the code adds a copy of it, which is the same value. *)
Definition __iadd__other (self : Circuit) (other : addend) : Circuit :=
  add_to self other.

(** [Circuit.__add__]: a new circuit, filled from the iteration over
    [self], then as [__iadd__]. *)
Definition __add__ (self : Circuit) (other : addend) : Circuit :=
  let new_circuit := fold_left _append_operation (__iter__ self) empty in
  add_to new_circuit other.

(** [Circuit.count_occurences]; a type is given by its [isinstance] test,
    the default is [[Operation]]. *)
Definition count_occurences (self : Circuit)
  (operations_list : option (list (Operation -> bool))) : Z :=
  let operations_list :=
    match operations_list with
    | None => [fun _ : Operation => true]
    | Some l => l
    end in
  let counted (op : Operation) :=
    existsb (fun counted_ops => counted_ops op) operations_list in
  fold_left (fun n op => if counted op then (n + 1)%Z else n)
    (_operations self)
    (fold_left (fun n dop => if counted (OpDefinition dop) then (n + 1)%Z else n)
       (_definitions self) 0%Z).

(** The two ways an operation enters a circuit. *)
Inductive insertion : Type :=
| Append (operation : Operation)
| Insert (index : Z) (operation : Operation).

Definition perform (self : Circuit) (i : insertion) : Circuit :=
  match i with
  | Append operation => __iadd__ self operation
  | Insert index operation => insert self index operation
  end.

Section Substitution.
Context {calc : Calculator}.

(** [op.substitute_parameters(substitution_dict)] by the class of [op]. *)
Definition substitute_operation (op : Operation)
  (substitution_dict : dict string CalculatorFloat)
  : Operation * result unit :=
  match op with
  | OpGate cls g =>
      let '(g1, r) := substitute_parameters g substitution_dict in
      (OpGate cls g1, r)
  | _ => (op, Ok tt)
  end.

(** A [for] loop that substitutes in every element, stopping at the first
    exception. *)
Fixpoint substitute_each (ops : list Operation)
  (substitution_dict : dict string CalculatorFloat)
  : list Operation * result unit :=
  match ops with
  | [] => ([], Ok tt)
  | op :: rest =>
      match substitute_operation op substitution_dict with
      | (op1, Ok _) =>
          let '(rest1, r) := substitute_each rest substitution_dict in
          (op1 :: rest1, r)
      | (op1, Raise e) => (op1 :: rest, Raise e)
      end
  end.

(** [Circuit.substitute_parameters]: definitions first, then operations.
    A [Definition] inherits [Operation.substitute_parameters], which does
    nothing. *)
Definition substitute_parameters (self : Circuit)
  (substitution_dict : dict string CalculatorFloat)
  : Circuit * result unit :=
  let '(ops, r) := substitute_each (_operations self) substitution_dict in
  ({| _definitions := _definitions self; _operations := ops |}, r).

End Substitution.

(** *** The vocabulary of the ordering properties *)

(** The definitions among a sequence of operations, in order. *)
Fixpoint definitions_of (ops : list Operation) : list DefinitionOp :=
  match ops with
  | [] => []
  | OpDefinition d :: rest => d :: definitions_of rest
  | _ :: rest => definitions_of rest
  end.

(** The first occurrence of every definition, later equal ones dropped. *)
Fixpoint first_seen (ds : list DefinitionOp) : list DefinitionOp :=
  match ds with
  | [] => []
  | d :: rest => d :: filter (fun e => negb (__eq__ d e)) (first_seen rest)
  end.

(** No two definitions of the list are equal by [Definition.__eq__]. *)
Fixpoint distinct (ds : list DefinitionOp) : Prop :=
  match ds with
  | [] => True
  | d :: rest => contains rest d = false /\ distinct rest
  end.

(** A circuit built from [Circuit()] by appending [ops] in order. *)
Definition build (ops : list Operation) : Circuit :=
  fold_left __iadd__ ops empty.

(** What deleting at [n] rising positions in a row leaves of a list: of
    every two items the first goes. *)
Fixpoint every_second {A} (n : nat) (l : list A) : list A :=
  match n, l with
  | S n, _ :: y :: rest => y :: every_second n rest
  | S _, [_] => []
  | _, _ => l
  end.


(** A circuit as appends alone build it: one definition per value, and
    no [Definition] among the operations. *)
Definition well_formed (c : Circuit) : Prop :=
  distinct (_definitions c)
  /\ forall op, In op (_operations c) -> isinstance_Definition op = false.


End circuit.

(** ** [basis_rotation_measurement.py] *)

Module basis_rotation.

Local Open Scope Q_scope.

(** A complex number with rational parts. *)
Record QC : Type := mkQC { qre : Q; qim : Q }.

Definition QC_of_Q (x : Q) : QC := mkQC x 0.
Definition QCadd (a b : QC) : QC := mkQC (qre a + qre b) (qim a + qim b).
Definition QCmul (a b : QC) : QC :=
  mkQC (qre a * qre b - qim a * qim b) (qre a * qim b + qim a * qre b).

(** A float array of one dimension. *)
Definition array : Type := list Q.

(** A complex array of shape [(rows, columns)]. *)
Record array2 : Type :=
  { columns : nat;
    rows : list (list QC) }.

(** [BRMeasurementInput] *)
Record BRMeasurementInput : Type :=
  { _pauli_product_qubit_masks : dict string (dict Z (list Z));
    _pp_to_exp_val_matrix : array2;
    _number_qubits : Z;
    _number_pauli_products : Z;
    _measured_exp_vals : list string;
    _use_flipped_measurement : bool }.

(** [RegisterOutput] of a bit register: one list of bits per shot. *)
Record RegisterOutput : Type :=
  { register : list (list bool) }.

Definition size (r : RegisterOutput) : nat := List.length (register r).

(** A keyword argument of [run] is any object; the measurement hands it
    on unread.  An object is given by its address. *)
Definition Any : Type := nat.

(** The backend is a collaborator: all the measurement sees of it is
    [number_qubits] and what its call of [run] number [co] does, with the
    circuit it was given and the keyword arguments of the call: the call
    raises, or returns a dictionary of registers or [None]. *)
Record Backend : Type :=
  { number_qubits : Z;
    run : nat -> circuit.Circuit -> dict string Any
          -> result (option (dict string RegisterOutput)) }.

(** Of the device, the number of nodes of its graph and the attribute
    [measurement_error] of the edge [(qubit, qubit, 'MeasureQubit')]:
    [prob_0_as_1] and [prob_1_as_0]. *)
Record Device : Type :=
  { nodes : nat;
    measurement_error : Z -> option (Q * Q) }.

(** The attributes [MeasurementBaseClass.__init__] and
    [BasisRotationMeasurement.__init__] set.  An item of [_resume_list]
    that is no mapping is [None] here. *)
Record BasisRotationMeasurement : Type :=
  { backend : option Backend;
    measurement_input : BRMeasurementInput;
    _circuit_list : list circuit.Circuit;
    _constant_circuit : circuit.Circuit;
    _resume_list : option (list (option (dict string Any)));
    _device : option Device }.

(** A value of the returned series. *)
Inductive entry : Type :=
| Complex (c : QC)
| Bit (b : bool).

(** Where numpy would go on with [nan] or [inf] (the mean of no shots, a
    division by a correction factor zero) there is no rational to go on
    with: the model stops with [NotANumber]. *)
Inductive outcome (A : Type) : Type :=
| Done (a : A)
| Failed (e : exception)
| NotANumber.
Arguments Done {A} a.
Arguments Failed {A} e.
Arguments NotANumber {A}.

Definition obind {A B} (o : outcome A) (k : A -> outcome B) : outcome B :=
  match o with
  | Done a => k a
  | Failed e => Failed e
  | NotANumber => NotANumber
  end.

Definition lift {A} (r : result A) : outcome A :=
  match r with
  | Ok a => Done a
  | Raise e => Failed e
  end.

Declare Scope outcome_scope.
Delimit Scope outcome_scope with outcome.
Notation "x <- m ;; k" := (obind m (fun x => k))
  (at level 100, m at next level, right associativity) : outcome_scope.

(** [np.zeros(n)], [np.ones(n)] *)
Definition full (n : Z) (v : Q) : outcome array :=
  if (n <? 0)%Z then Failed ValueError else Done (repeat v (Z.to_nat n)).

(** [a[index] = v] on a list: out of range is an [IndexError]. *)
Definition setitem {A} (a : list A) (index : Z) (v : A) : outcome (list A) :=
  match normalize_index (len a) index with
  | Some i => Done (replace_nth a i v)
  | None => Failed IndexError
  end.

(** [a[val]] with a list of indices [val]. *)
Fixpoint take {A} (a : list A) (val : list Z) : result (list A) :=
  match val with
  | [] => Ok []
  | q :: rest =>
      bind (getitem a q) (fun x =>
      bind (take a rest) (fun xs => Ok (x :: xs)))
  end.

Definition sum (a : array) : Q := fold_right Qplus 0 a.
Definition prod (a : array) : Q := fold_right Qmult 1 a.

(** [np.mean] of one column. *)
Definition mean (a : array) : outcome Q :=
  match a with
  | [] => NotANumber
  | _ => Done (sum a / inject_Z (len a))
  end.

Fixpoint traverse {A B} (f : A -> outcome B) (l : list A) : outcome (list B) :=
  match l with
  | [] => Done []
  | x :: r =>
      (y <- f x ;; ys <- traverse f r ;; Done (y :: ys))%outcome
  end.

(** [range(n)] *)
Definition range (n : Z) : list Z := map Z.of_nat (seq 0 (Z.to_nat n)).

Fixpoint endswith (s suffix : string) : bool :=
  if String.eqb s suffix then true
  else match s with
       | EmptyString => false
       | String _ rest => endswith rest suffix
       end.

(** [enumerate(l)] *)
Definition enumerate {A} (l : list A) : list (nat * A) :=
  combine (seq 0 (List.length l)) l.

(** One turn of the dispatch loop up to the call of [run]: the backend
    gets the constant circuit plus the circuit of the turn, the keyword
    arguments are [_resume_list[co]] when there is a resume list
    ([IndexError] when the list is too short, [TypeError] when the item
    is no mapping), and [run] is called. *)
Definition run_circuit (self : BasisRotationMeasurement) (b : Backend)
  (co : nat) (circuit : circuit.Circuit)
  : result (option (dict string RegisterOutput)) :=
  let backend_circuit :=
    circuit.__add__ (_constant_circuit self) (circuit.OfCircuit circuit) in
  bind (match _resume_list self with
        | None => Ok []
        | Some resume_list =>
            bind (getitem resume_list (Z.of_nat co)) (of_option TypeError)
        end) (fun kwargs =>
  run b co backend_circuit kwargs).

(** The body of the dispatch loop: after the call of [run], the registers
    that came back are merged into those of the turns before; a [None]
    sets the flag.  The first exception ends the loop.  The body also
    appends to [_resume_info], which the measurement never reads. *)
Definition turn (self : BasisRotationMeasurement) (b : Backend)
  (acc : result (dict string RegisterOutput * bool))
  (entry : nat * circuit.Circuit)
  : result (dict string RegisterOutput * bool) :=
  let '(co, circuit) := entry in
  bind acc (fun state =>
  bind (run_circuit self b co circuit) (fun tmp_output_register_dict =>
  match tmp_output_register_dict with
  | Some tmp_output_register_dict =>
      Ok (update (fst state) tmp_output_register_dict, snd state)
  | None => Ok (fst state, true)
  end)).

(** The dispatch loop: the merged registers, and whether some call of
    [run] returned [None]. *)
Definition dispatch (self : BasisRotationMeasurement) (b : Backend)
  : result (dict string RegisterOutput * bool) :=
  fold_left (turn self b) (enumerate (_circuit_list self)) (Ok ([], false)).

(** [measurement_fidelities] *)
Definition measurement_fidelities (b : Backend) (device : option Device)
  (input : BRMeasurementInput) : outcome array :=
  match device with
  | Some dev =>
      fold_left
        (fun acc qubit =>
           (fidelities <- acc ;;
            errors <- lift (of_option KeyError (measurement_error dev qubit)) ;;
            setitem fidelities qubit
              ((2 - fst errors - snd errors) / 2))%outcome)
        (range (_number_qubits input))
        (Done (repeat 0 (nodes dev)))
  | None => full (number_qubits b) 1
  end.

(** The correction factors of one register name. *)
Definition correction_factor (fidelities : array) (number_pauli_products : Z)
  (pauli_product_mask : dict Z (list Z)) : outcome array :=
  fold_left
    (fun acc entry =>
       let '(index, val) := entry in
       (factor <- acc ;;
        match val with
        | [] => setitem factor index 1
        | _ =>
            chosen <- lift (take fidelities val) ;;
            setitem factor index (prod chosen)
        end)%outcome)
    pauli_product_mask
    (full number_pauli_products 1).

Definition measurement_correction_factors (fidelities : array)
  (input : BRMeasurementInput) : outcome (dict string array) :=
  traverse
    (fun entry =>
       (factor <- correction_factor fidelities
                    (_number_pauli_products input) (snd entry) ;;
        Done (fst entry, factor))%outcome)
    (_pauli_product_qubit_masks input).

(** One entry of [np.power(-1, np.sum(bits, axis=1))]: the bits of one
    shot at the qubits [val], complemented for a flipped register. *)
Definition shot_product (flipped : bool) (val : list Z) (shot : list bool)
  : result Q :=
  bind (take shot val) (fun bits =>
  let ones :=
    fold_right Z.add 0%Z
      (map (fun b : bool =>
              if flipped then (1 - Z.b2z b)%Z else Z.b2z b) bits) in
  Ok (inject_Z ((-1) ^ ones))).

(** The column [single_shot_pauli_products[:, index]] for one entry of the
    mask.  An array of no shots has one dimension and cannot be indexed by
    column. *)
Definition product_column (flipped : bool) (val : list Z)
  (shots : list (list bool)) : outcome array :=
  match val with
  | [] => Done (repeat 1 (List.length shots))
  | _ =>
      match shots with
      | [] => Failed IndexError
      | _ => traverse (fun shot => lift (shot_product flipped val shot)) shots
      end
  end.

(** The body of the loop over the registers: the array
    [single_shot_pauli_products], kept by column, and its mean over the
    shots. *)
Definition register_pauli_products (number_pauli_products : Z)
  (register_name : string) (mask : dict Z (list Z)) (r : RegisterOutput)
  : outcome array :=
  (zeros <- full number_pauli_products 0 ;;
   single_shot_pauli_products <-
     fold_left
       (fun acc entry =>
          let '(index, val) := entry in
          cols <- acc ;;
          col <- product_column (endswith register_name "flipped") val
                   (register r) ;;
          setitem cols index col)
       mask
       (Done (map (fun _ => repeat 0 (size r)) zeros)) ;;
   traverse mean single_shot_pauli_products)%outcome.

Definition pauli_product_dict (input : BRMeasurementInput)
  (output_register_dict : dict string RegisterOutput)
  : outcome (dict string array) :=
  fold_left
    (fun acc entry =>
       let '(register_name, mask) := entry in
       (d <- acc ;;
        r <- lift (item output_register_dict register_name) ;;
        a <- register_pauli_products (_number_pauli_products input)
               register_name mask r ;;
        Done (set d register_name a))%outcome)
    (_pauli_product_qubit_masks input)
    (Done []).

(** [np.divide(x, f)] elementwise. *)
Definition divide (x f : array) : outcome array :=
  traverse
    (fun p => if Qeq_bool (snd p) 0 then NotANumber
              else Done (fst p / snd p))
    (combine x f).

Definition add_arrays (x y : array) : array :=
  map (fun p => fst p + snd p) (combine x y).

(** The correction applied to every register that is not a flipped one. *)
Definition mitigate (factors : dict string array) (d : dict string array)
  : outcome (dict string array) :=
  fold_left
    (fun acc register_name =>
       (d <- acc ;;
        if negb (endswith register_name "flipped") then
          plain <- lift (item d register_name) ;;
          flipped <- lift (item d (register_name ++ "_flipped")%string) ;;
          factor <- lift (item factors register_name) ;;
          corrected <-
            divide (map (fun x => x / 2) (add_arrays plain flipped)) factor ;;
          Done (set d register_name corrected)
        else Done d)%outcome)
    (keys d)
    (Done d).

(** [pauli_products]: the sum of the arrays of the registers that are not
    flipped ones. *)
Definition sum_pauli_products (number_pauli_products : Z)
  (d : dict string array) : outcome array :=
  (zeros <- full number_pauli_products 0 ;;
   Done (fold_left
           (fun acc entry =>
              if negb (endswith (fst entry) "flipped")
              then add_arrays acc (snd entry) else acc)
           d zeros))%outcome.

(** One entry of [matrix @ vector]: a row times the vector. *)
Definition dot (row : list QC) (v : array) : QC :=
  fold_right QCadd (QC_of_Q 0)
    (map (fun p => QCmul (fst p) (QC_of_Q (snd p))) (combine row v)).

(** [matrix @ vector] *)
Definition matvec (m : array2) (v : array) : outcome (list QC) :=
  if Nat.eqb (columns m) (List.length v) then
    Done (map (fun row => dot row v) (rows m))
  else Failed ValueError.

(** The dictionary of the expectation values under their names:
    [{('exp_val_' + name): exp_val for name, exp_val in zip(names,
    expectation_values)}]. *)
Definition series (names : list string) (expectation_values : list QC)
  : dict string entry :=
  fold_left
    (fun acc p => set acc ("exp_val_" ++ fst p)%string (Complex (snd p)))
    (combine names expectation_values) [].

(** The entry [global_phase], added when a register of that name came
    back: its first bit of its first shot. *)
Definition with_global_phase
  (output_register_dict : dict string RegisterOutput)
  (tmp_dict : dict string entry) : outcome (dict string entry) :=
  match get output_register_dict "global_phase"%string with
  | Some r =>
      (shot <- lift (getitem (register r) 0) ;;
       phase <- lift (getitem shot 0) ;;
       Done (set tmp_dict "global_phase"%string (Bit phase)))%outcome
  | None => Done tmp_dict
  end.

(** [BasisRotationMeasurement.__call__]: the series, or [None] when a
    call of [run] returned [None]. *)
Definition __call__ (self : BasisRotationMeasurement)
  : outcome (option (dict string entry)) :=
  match backend self with
  | None => Done (Some [])
  | Some b =>
      let input := measurement_input self in
      (state <- lift (dispatch self b) ;;
       let '(output_register_dict, return_None) := state in
       if return_None then Done None
       else
         fidelities <- measurement_fidelities b (_device self) input ;;
         factors <-
           (if _use_flipped_measurement input
            then measurement_correction_factors fidelities input
            else Done []) ;;
         d <- pauli_product_dict input output_register_dict ;;
         d <- (if _use_flipped_measurement input
               then mitigate factors d else Done d) ;;
         pauli_products <-
           sum_pauli_products (_number_pauli_products input) d ;;
         expectation_values <-
           matvec (_pp_to_exp_val_matrix input) pauli_products ;;
         tmp_dict <-
           with_global_phase output_register_dict
             (series (_measured_exp_vals input) expectation_values) ;;
         Done (Some tmp_dict))%outcome
  end.

(** *** The vocabulary of the measurement properties *)








(** The corrected array of one register: elementwise
    [((plain + flipped) / 2) / factor]. *)
Definition corrected (plain flipped factor : array) : array :=
  map (fun p => fst p / snd p)
    (combine (map (fun x => x / 2) (add_arrays plain flipped)) factor).










End basis_rotation.

(** ** [registers.py] *)

Module registers.

Import define_operations.

(** What a register holds: bits, floats or complex numbers. *)
Inductive value : Type :=
| VBit (b : bool)
| VFloat (x : Q)
| VComplex (re im : Q).

(** [BitRegister], [FloatRegister] and [ComplexRegister] have the same
    attributes. *)
Record Register : Type :=
  { vartype : string;
    name : string;
    length : Z;
    is_output : bool;
    register : list value }.

(** [[False for i in range(self.length)]]: a length below zero gives the
    empty list. *)
Definition filled (v : value) (length : Z) : list value :=
  repeat v (Z.to_nat length).

(** [BitRegister.__init__] *)
Definition BitRegister (definition : DefinitionOp) : result Register :=
  if negb (String.eqb (_vartype definition) "bit") then Raise TypeError
  else Ok {| vartype := "bit";
             name := _name definition;
             length := _length definition;
             is_output := _is_output definition;
             register := filled (VBit false) (_length definition) |}.

(** [FloatRegister.__init__] *)
Definition FloatRegister (definition : DefinitionOp) : result Register :=
  if negb (String.eqb (_vartype definition) "float") then Raise TypeError
  else Ok {| vartype := "float";
             name := _name definition;
             length := _length definition;
             is_output := _is_output definition;
             register := filled (VFloat 0) (_length definition) |}.

(** [ComplexRegister.__init__]; [np.zeros] with a length below zero is a
    [ValueError]. *)
Definition ComplexRegister (definition : DefinitionOp) : result Register :=
  if negb (String.eqb (_vartype definition) "complex") then Raise TypeError
  else if (_length definition <? 0)%Z then Raise ValueError
  else Ok {| vartype := "complex";
             name := _name definition;
             length := _length definition;
             is_output := _is_output definition;
             register := filled (VComplex 0 0) (_length definition) |}.

(** An item of the list of an output register: the list of a register,
    put there by [append], or one of its values, put there by [extend]. *)
Inductive item : Type :=
| Row (values : list value)
| Single (v : value).

Record RegisterOutput : Type :=
  { output_name : string;
    output_vartype : string;
    output_length : Z;
    output_register : list item }.

(** [RegisterOutput.size], which [__len__] returns. *)
Definition size (self : RegisterOutput) : Z := len (output_register self).

(** The test [append] and [extend] start with. *)
Definition compatible (self : RegisterOutput) (r : Register) : bool :=
  negb (negb (String.eqb (output_name self) (name r))
        || negb (String.eqb (output_vartype self) (vartype r))
        || negb (Z.eqb (output_length self) (length r))).

(** [RegisterOutput.append]: the list of the register becomes one item. *)
Definition append (self : RegisterOutput) (r : Register)
  : result RegisterOutput :=
  if negb (compatible self r) then Raise TypeError
  else Ok {| output_name := output_name self;
             output_vartype := output_vartype self;
             output_length := output_length self;
             output_register := output_register self ++ [Row (register r)] |}.

(** [RegisterOutput.extend]: every value of the register becomes an
    item. *)
Definition extend (self : RegisterOutput) (r : Register)
  : result RegisterOutput :=
  if negb (compatible self r) then Raise TypeError
  else Ok {| output_name := output_name self;
             output_vartype := output_vartype self;
             output_length := output_length self;
             output_register :=
               output_register self ++ map Single (register r) |}.

(** [BitRegisterOutput.__init__], [FloatRegisterOutput.__init__] and
    [ComplexRegisterOutput.__init__] for the type [vartype]. *)
Definition TypedRegisterOutput (vartype : string) (definition : DefinitionOp)
  : result RegisterOutput :=
  if negb (String.eqb (_vartype definition) vartype) then Raise TypeError
  else if negb (_is_output definition) then Raise TypeError
  else Ok {| output_name := _name definition;
             output_vartype := vartype;
             output_length := _length definition;
             output_register := [] |}.

(** One of the three [if] blocks of [add_register]. *)
Definition add_typed (vartype : string)
  (constructor : DefinitionOp -> result Register)
  (dicts : dict string Register * dict string RegisterOutput)
  (definition : DefinitionOp)
  : result (dict string Register * dict string RegisterOutput) :=
  let '(register_dict, output_dict) := dicts in
  if String.eqb (_vartype definition) vartype then
    bind (constructor definition) (fun r =>
    let register_dict := set register_dict (_name definition) r in
    if _is_output definition then
      bind (TypedRegisterOutput vartype definition) (fun o =>
      Ok (register_dict, set output_dict (_name definition) o))
    else Ok (register_dict, output_dict))
  else Ok dicts.

(** [add_register]: the two dictionaries after the call. *)
Definition add_register (register_dict : dict string Register)
  (output_dict : dict string RegisterOutput) (definition : DefinitionOp)
  : result (dict string Register * dict string RegisterOutput) :=
  bind (add_typed "bit" BitRegister (register_dict, output_dict) definition)
    (fun dicts =>
  bind (add_typed "float" FloatRegister dicts definition) (fun dicts =>
  add_typed "complex" ComplexRegister dicts definition)).

(** [append] once per shot, [n] times. *)
Fixpoint append_times (n : nat) (self : RegisterOutput) (r : Register)
  : result RegisterOutput :=
  match n with
  | O => Ok self
  | S n => bind (append self r) (fun o => append_times n o r)
  end.

(** The value a register of a type is filled with. *)
Definition zero_of (vartype : string) : option value :=
  if String.eqb vartype "bit" then Some (VBit false)
  else if String.eqb vartype "float" then Some (VFloat 0)
  else if String.eqb vartype "complex" then Some (VComplex 0 0)
  else None.

(** Every item of an output register is a row of [n] values. *)
Definition rows_of (n : nat) (self : RegisterOutput) : Prop :=
  forall i, In i (output_register self) ->
  exists values, i = Row values /\ List.length values = n.

End registers.

(** ** Sample inputs *)

Module samples.

Import define_operations circuit.

(** [Definition("ro", "bit", 1)] *)
Definition ro_bit : DefinitionOp :=
  {| _name := "ro"; _vartype := "bit"; _length := 1;
     _is_input := false; _is_output := false |}.

(** [Definition("ro", "float", 1)] *)
Definition ro_float : DefinitionOp :=
  {| _name := "ro"; _vartype := "float"; _length := 1;
     _is_input := false; _is_output := false |}.

(** [Definition("ro", "bit", 1, is_output=True)] *)
Definition ro_bit_output : DefinitionOp :=
  {| _name := "ro"; _vartype := "bit"; _length := 1;
     _is_input := false; _is_output := true |}.

(** A definition, a measurement, the same definition again and one of
    another type. *)
Definition interleaved : list Operation :=
  [OpDefinition ro_bit; OpOther "MeasureQubit 0 ro[0]";
   OpDefinition ro_bit_output; OpDefinition ro_float].

(** A calculator that prints every float as [1.0] and evaluates the one
    expression [t=1.0; ; t], to [1]. *)
Definition one_binding : Calculator :=
  {| float_repr := fun _ => "1.0"%string;
     symbolic_binop :=
       fun op a b => ("(" ++ a ++ " " ++ op ++ " " ++ b ++ ")")%string;
     symbolic_call := fun f a => (f ++ "(" ++ a ++ ")")%string;
     parse_string :=
       fun s => if String.eqb s "t=1.0; ; t" then Some 1%R else None |}.

(** [RotateX(qubit=0, theta="t")] *)
Definition rotate_x_t : GateOperation :=
  __init__ (single_qubit.class_of single_qubit.RotateX)
    [("qubit"%string, 0%Z)] [("theta"%string, Str "t")].

(** [RotateX(qubit=0, theta=3)] *)
Definition rotate_x_3 : GateOperation :=
  __init__ (single_qubit.class_of single_qubit.RotateX)
    [("qubit"%string, 0%Z)] [("theta"%string, Float 3)].

(** [SingleQubitGate(qubit=0)], the identity. *)
Definition identity_gate : GateOperation :=
  __init__ (single_qubit.class_of single_qubit.SingleQubitGate)
    [("qubit"%string, 0%Z)] [].

(** The bindings [{'t': 1.0}]. *)
Definition t_is_one : dict string CalculatorFloat :=
  [("t"%string, Float 1)].

(** A store that holds [RotateX(qubit=0, theta=3)], at address 3. *)
Definition rotate_x_store : store :=
  fst (new_gate (single_qubit.class_of single_qubit.RotateX) rotate_x_3 []).

(** [Hadamard(qubit=0)] *)
Definition hadamard_0 : GateOperation :=
  __init__ (single_qubit.class_of single_qubit.Hadamard)
    [("qubit"%string, 0%Z)] [].

(** The measurement of the second end-to-end example: masks
    [{'ro': {0: []}}], transform [[1]], one Pauli product, one qubit, the
    expectation value [example], and a backend that returns [n] shots of
    one zero bit in the register [ro]. *)
Definition example_input : basis_rotation.BRMeasurementInput :=
  {| basis_rotation._pauli_product_qubit_masks :=
       [("ro"%string, [(0%Z, [])])];
     basis_rotation._pp_to_exp_val_matrix :=
       {| basis_rotation.columns := 1;
          basis_rotation.rows := [[basis_rotation.QC_of_Q 1%Q]] |};
     basis_rotation._number_qubits := 1;
     basis_rotation._number_pauli_products := 1;
     basis_rotation._measured_exp_vals := ["example"%string];
     basis_rotation._use_flipped_measurement := false |}.

Definition zero_shots (n : nat) : basis_rotation.RegisterOutput :=
  {| basis_rotation.register := repeat [false] n |}.











End samples.

(** * Properties *)

Unset Implicit Arguments.

(** ** Circuits: definitions first, one per value *)

Module circuit_theory.

Import define_operations circuit.

Lemma eq_spec (a b : DefinitionOp) :
  __eq__ a b = true <->
  _name a = _name b /\ _length a = _length b /\ _vartype a = _vartype b.
Proof.
  unfold __eq__.
  destruct (String.eqb (_name a) (_name b)) eqn:En; simpl.
  - destruct (Z.eqb (_length a) (_length b)) eqn:El; simpl.
    + destruct (String.eqb (_vartype a) (_vartype b)) eqn:Ev; simpl.
      * apply String.eqb_eq in En, Ev. apply Z.eqb_eq in El. tauto.
      * apply String.eqb_neq in Ev. split; [discriminate | tauto].
    + apply Z.eqb_neq in El. split; [discriminate | tauto].
  - apply String.eqb_neq in En. split; [discriminate | tauto].
Qed.

Lemma eq_refl (a : DefinitionOp) : __eq__ a a = true.
Proof. apply eq_spec. auto. Qed.

Lemma eq_trans (a b c : DefinitionOp) :
  __eq__ a b = true -> __eq__ b c = true -> __eq__ a c = true.
Proof.
  rewrite !eq_spec. intros (H1 & H2 & H3) (H4 & H5 & H6).
  repeat split; congruence.
Qed.

Lemma contains_app (l1 l2 : list DefinitionOp) (d : DefinitionOp) :
  contains (l1 ++ l2) d = contains l1 d || contains l2 d.
Proof. unfold contains. apply existsb_app. Qed.

Lemma contains_single (e d : DefinitionOp) : contains [e] d = __eq__ e d.
Proof. unfold contains. simpl. apply orb_false_r. Qed.

(** A definition equal to a member is a member. *)
Lemma contains_eq (l : list DefinitionOp) (d e : DefinitionOp) :
  contains l d = true -> __eq__ d e = true -> contains l e = true.
Proof.
  unfold contains. rewrite !existsb_exists.
  intros (x & Hin & Hx) Hde. exists x. split; [assumption |].
  eapply eq_trans; eassumption.
Qed.

Lemma filter_filter {A} (p q : A -> bool) (l : list A) :
  filter p (filter q l) = filter (fun x => q x && p x) l.
Proof.
  induction l as [| x l IH]; simpl; [reflexivity |].
  destruct (q x); simpl; [destruct (p x) |]; rewrite ?IH; reflexivity.
Qed.

(** Appending a sequence of operations to any circuit: the definitions not
    yet present join in first-seen order, the other operations in order. *)
Lemma append_all (ops : list Operation) : forall c : Circuit,
  _definitions (fold_left __iadd__ ops c) =
    _definitions c ++
    filter (fun e => negb (contains (_definitions c) e))
      (first_seen (definitions_of ops))
  /\ _operations (fold_left __iadd__ ops c) =
    _operations c ++ filter (fun op => negb (isinstance_Definition op)) ops.
Proof.
  induction ops as [| op ops IH]; intros c; simpl.
  - rewrite !app_nil_r. split; reflexivity.
  - destruct op as [d | cls g | text]; simpl.
    + destruct (contains (_definitions c) d) eqn:Hin; simpl.
      * destruct (IH c) as [IHd IHo]. rewrite IHd, IHo. split; [| reflexivity].
        f_equal. rewrite filter_filter. apply filter_ext_in.
        intros e _. destruct (contains (_definitions c) e) eqn:He; simpl.
        -- symmetry. apply andb_false_r.
        -- destruct (__eq__ d e) eqn:Hde; simpl; [| reflexivity].
           rewrite (contains_eq _ _ _ Hin Hde) in He. discriminate.
      * destruct (IH {| _definitions := _definitions c ++ [d];
                        _operations := _operations c |}) as [IHd IHo].
        rewrite IHd, IHo. simpl. split; [| reflexivity].
        rewrite <- app_assoc. simpl. do 2 f_equal.
        rewrite filter_filter. apply filter_ext.
        intros e. rewrite contains_app, contains_single.
        rewrite negb_orb. apply andb_comm.
    + destruct (IH {| _definitions := _definitions c;
                      _operations := _operations c ++ [OpGate cls g] |})
        as [IHd IHo].
      rewrite IHd, IHo. simpl. rewrite <- app_assoc. split; reflexivity.
    + destruct (IH {| _definitions := _definitions c;
                      _operations := _operations c ++ [OpOther text] |})
        as [IHd IHo].
      rewrite IHd, IHo. simpl. rewrite <- app_assoc. split; reflexivity.
Qed.

Lemma filter_true {A} (l : list A) : filter (fun _ => true) l = l.
Proof. induction l; simpl; congruence. Qed.

Lemma build_definitions (ops : list Operation) :
  _definitions (build ops) = first_seen (definitions_of ops).
Proof.
  unfold build. destruct (append_all ops empty) as [H _]. rewrite H. simpl.
  apply filter_true.
Qed.

Lemma build_operations (ops : list Operation) :
  _operations (build ops) =
  filter (fun op => negb (isinstance_Definition op)) ops.
Proof.
  unfold build. destruct (append_all ops empty) as [_ H]. rewrite H.
  reflexivity.
Qed.

(** Inside [-len, len) a list has an item. *)
Lemma getitem_in_range {A} (l : list A) (k : Z) :
  (- len l <= k < len l)%Z -> exists x, getitem l k = Ok x.
Proof.
  intros Hk. unfold getitem, normalize_index, len in *.
  destruct (0 <=? k)%Z eqn:H0; simpl.
  - assert (Hlt : (k <? Z.of_nat (List.length l))%Z = true)
      by (apply Z.ltb_lt; lia).
    rewrite Hlt.
    destruct (nth_error l (Z.to_nat k)) eqn:Hn; [eexists; reflexivity |].
    apply nth_error_None in Hn. apply Z.leb_le in H0. lia.
  - apply Z.leb_gt in H0.
    assert (H1 : (- Z.of_nat (List.length l) <=? k)%Z = true)
      by (apply Z.leb_le; lia).
    assert (H2 : (k <? 0)%Z = true) by (apply Z.ltb_lt; lia).
    rewrite H1, H2. simpl.
    destruct (nth_error l (Z.to_nat (k + Z.of_nat (List.length l)))) eqn:Hn;
      [eexists; reflexivity |].
    apply nth_error_None in Hn. lia.
Qed.

(** C1, as the code has it.  For a circuit built by appending any
    sequence of operations, every index [k] with [-n <= k < n], [n] the
    number of stored definitions, returns a [Definition]; iterating yields
    the first occurrence of every definition, in order, and then the other
    operations in the order of their appends. *)
Theorem definitions_come_first (ops : list Operation) :
  let c := build ops in
  let n := len (_definitions c) in
  (forall k : Z, (- n <= k < n)%Z ->
     exists d, __getitem__ c k = Ok (OpDefinition d))
  /\ __iter__ c =
     map OpDefinition (first_seen (definitions_of ops))
     ++ filter (fun op => negb (isinstance_Definition op)) ops.
Proof.
  intros c n. split.
  - intros k Hk. unfold __getitem__. fold n.
    assert (Hlt : (k <? n)%Z = true) by (apply Z.ltb_lt; lia).
    rewrite Hlt.
    destruct (getitem_in_range (_definitions c) k Hk) as [d Hd].
    exists d. rewrite Hd. reflexivity.
  - unfold __iter__, c. rewrite build_definitions, build_operations.
    reflexivity.
Qed.

(** C1, as the claim has it, fails below [-n]: with one stored definition
    the index [-2] is less than the number of definitions and raises
    [IndexError]. *)
Lemma index_below_the_definitions_raises :
  ~ (forall (ops : list Operation) (k : Z),
       (k < len (_definitions (build ops)))%Z ->
       exists d, __getitem__ (build ops) k = Ok (OpDefinition d)).
Proof.
  intros H.
  destruct (H [OpDefinition samples.ro_bit] (-2)%Z) as [d Hd].
  - vm_compute. reflexivity.
  - vm_compute in Hd. discriminate Hd.
Qed.

Lemma definitions_come_first_witness :
  (exists d, __getitem__ (build samples.interleaved) (-1)%Z
             = Ok (OpDefinition d))
  /\ __iter__ (build samples.interleaved) =
     [OpDefinition samples.ro_bit; OpDefinition samples.ro_float;
      OpOther "MeasureQubit 0 ro[0]"].
Proof.
  pose proof (definitions_come_first samples.interleaved) as H.
  cbv zeta in H. destruct H as [Hget Hiter].
  split.
  - apply Hget. vm_compute. split; [discriminate | reflexivity].
  - rewrite Hiter. vm_compute. reflexivity.
Defined.

Lemma eq_sym (a b : DefinitionOp) : __eq__ a b = __eq__ b a.
Proof.
  destruct (__eq__ a b) eqn:Hab, (__eq__ b a) eqn:Hba; try reflexivity.
  - apply eq_spec in Hab. destruct Hab as (H1 & H2 & H3).
    assert (Hc : __eq__ b a = true) by (apply eq_spec; auto).
    congruence.
  - apply eq_spec in Hba. destruct Hba as (H1 & H2 & H3).
    assert (Hc : __eq__ a b = true) by (apply eq_spec; auto).
    congruence.
Qed.

Lemma distinct_snoc (l : list DefinitionOp) (d : DefinitionOp) :
  distinct l -> contains l d = false -> distinct (l ++ [d]).
Proof.
  induction l as [| x l IH]; simpl; intros Hl Hd.
  - split; [reflexivity | exact I].
  - destruct Hl as [Hx Hl]. apply orb_false_elim in Hd. destruct Hd as [Hxd Hd].
    split; [| apply IH; assumption].
    rewrite contains_app, contains_single, Hx, eq_sym, Hxd. reflexivity.
Qed.

Lemma perform_distinct (c : Circuit) (i : insertion) :
  distinct (_definitions c) -> distinct (_definitions (perform c i)).
Proof.
  intros Hc.
  destruct i as [[d | cls g | text] | index [d | cls g | text]]; simpl;
    try assumption;
    destruct (contains (_definitions c) d) eqn:Hin; simpl;
    try assumption; apply distinct_snoc; assumption.
Qed.

Lemma perform_all_distinct (steps : list insertion) : forall c : Circuit,
  distinct (_definitions c) ->
  distinct (_definitions (fold_left perform steps c)).
Proof.
  induction steps as [| i steps IH]; intros c Hc; simpl; [assumption |].
  apply IH. apply perform_distinct. assumption.
Qed.

(** C7, as the code has it.  Through any sequence of appends and inserts,
    a circuit whose definitions are pairwise different by
    [Definition.__eq__] (name, length and type) stays so; appending or
    inserting a definition equal to a stored one leaves the circuit as it
    is. *)
Theorem one_definition_per_value (c : Circuit) (steps : list insertion) :
  distinct (_definitions c) ->
  let c1 := fold_left perform steps c in
  distinct (_definitions c1)
  /\ (forall (d : DefinitionOp) (index : Z),
        contains (_definitions c1) d = true ->
        __iadd__ c1 (OpDefinition d) = c1
        /\ insert c1 index (OpDefinition d) = c1).
Proof.
  intros Hc c1. split.
  - apply perform_all_distinct. assumption.
  - intros d index Hin.
    unfold __iadd__, insert, _append_operation, _insert_operation.
    rewrite Hin. simpl. split; reflexivity.
Qed.

Lemma one_definition_per_value_witness :
  distinct (_definitions empty)
  /\ distinct
       (_definitions
          (fold_left perform
             [Append (OpDefinition samples.ro_bit);
              Insert 0 (OpDefinition samples.ro_bit_output);
              Append (OpDefinition samples.ro_float)] empty)).
Proof.
  split.
  - simpl. exact I.
  - apply (one_definition_per_value empty
             [Append (OpDefinition samples.ro_bit);
              Insert 0 (OpDefinition samples.ro_bit_output);
              Append (OpDefinition samples.ro_float)]).
    simpl. exact I.
Defined.

(** C7, as the claim has it, fails: two definitions of the register [ro],
    one of bits and one of floats, are both stored. *)
Lemma two_definitions_of_one_name :
  ~ (forall ops : list Operation,
       NoDup (map _name (_definitions (build ops)))).
Proof.
  intros H.
  specialize (H [OpDefinition samples.ro_bit; OpDefinition samples.ro_float]).
  vm_compute in H. inversion H as [| x l Hnot Hrest]; subst.
  apply Hnot. left. reflexivity.
Qed.

End circuit_theory.

(** ** Dictionaries *)

Module dict_theory.

Section Facts.
Context {K V : Type} `{Key K}.

Lemma keqb_refl (k : K) : keqb k k = true.
Proof. apply keqb_eq. reflexivity. Qed.

Lemma keqb_neq (a b : K) : a <> b -> keqb a b = false.
Proof.
  intros Hab. destruct (keqb a b) eqn:E; [| reflexivity].
  apply keqb_eq in E. contradiction.
Qed.

Lemma get_set_same (d : dict K V) (k : K) (v : V) :
  get (set d k v) k = Some v.
Proof.
  induction d as [| [k1 v1] d IH]; simpl.
  - rewrite keqb_refl. reflexivity.
  - destruct (keqb k1 k) eqn:E; simpl; rewrite E; [reflexivity | exact IH].
Qed.

Lemma get_set_other (d : dict K V) (k k' : K) (v : V) :
  k <> k' -> get (set d k v) k' = get d k'.
Proof.
  intros Hne. induction d as [| [k1 v1] d IH]; simpl.
  - rewrite (keqb_neq _ _ Hne). reflexivity.
  - destruct (keqb k1 k) eqn:E; simpl.
    + apply keqb_eq in E. subst k1. rewrite (keqb_neq _ _ Hne). reflexivity.
    + destruct (keqb k1 k'); [reflexivity | exact IH].
Qed.


Lemma in_keys_get (d : dict K V) (k : K) :
  In k (keys d) -> exists v, get d k = Some v /\ In v (values d).
Proof.
  induction d as [| [k1 v1] d IH]; simpl; [intros [] |].
  intros Hin. destruct (keqb k1 k) eqn:E.
  - exists v1. split; [reflexivity | left; reflexivity].
  - destruct Hin as [Heq | Hin].
    + subst k1. rewrite keqb_refl in E. discriminate.
    + destruct (IH Hin) as (v & Hv & Hval). exists v. split; [exact Hv |].
      right. exact Hval.
Qed.

Lemma keys_set_present (d : dict K V) (k : K) (v : V) :
  In k (keys d) -> keys (set d k v) = keys d.
Proof.
  induction d as [| [k1 v1] d IH]; simpl; [intros [] |].
  intros Hin. destruct (keqb k1 k) eqn:E; simpl; [reflexivity |].
  f_equal. apply IH. destruct Hin as [Heq | Hin]; [| exact Hin].
  subst k1. rewrite keqb_refl in E. discriminate.
Qed.

Lemma get_app_skip (pre post : dict K V) (k : K) :
  ~ In k (keys pre) -> get (pre ++ post) k = get post k.
Proof.
  induction pre as [| [k1 v1] pre IH]; simpl; [reflexivity |].
  intros Hnot. rewrite keqb_neq by (intros E; apply Hnot; left; exact E).
  apply IH. intros Hin. apply Hnot. right. exact Hin.
Qed.

Lemma set_app_skip (pre post : dict K V) (k : K) (v : V) :
  ~ In k (keys pre) -> set (pre ++ post) k v = pre ++ set post k v.
Proof.
  induction pre as [| [k1 v1] pre IH]; simpl; [reflexivity |].
  intros Hnot. rewrite keqb_neq by (intros E; apply Hnot; left; exact E).
  f_equal. apply IH. intros Hin. apply Hnot. right. exact Hin.
Qed.

End Facts.

End dict_theory.

(** ** Gate operations: substitution and the unitary matrix *)

Module gate_theory.

Import dict_theory.

Lemma symbolic_not_literal (d : dict string CalculatorFloat) :
  symbolic d = negb (literal d).
Proof.
  unfold symbolic, literal. induction (values d) as [| v l IH]; simpl.
  - reflexivity.
  - rewrite IH. destruct (is_float v); reflexivity.
Qed.

Section Substitution.
Context {calc : Calculator}.

(** With one entry per key, the loop over the keys is [resolve]. *)
Lemma loop_is_resolve (prefix : string) (post : dict string CalculatorFloat) :
  forall pre : dict string CalculatorFloat,
  NoDup (keys (pre ++ post)) ->
  substitute_loop prefix (keys post) (pre ++ post) =
  (pre ++ fst (resolve prefix post), snd (resolve prefix post)).
Proof.
  induction post as [| [k v] post IH]; intros pre Hnd; simpl.
  - reflexivity.
  - assert (Hk : ~ In k (keys pre)).
    { unfold keys in *. rewrite map_app in Hnd. simpl in Hnd.
      apply NoDup_remove_2 in Hnd. intros Hin. apply Hnd.
      apply in_or_app. left. exact Hin. }
    rewrite (get_app_skip pre ((k, v) :: post) k Hk). simpl.
    rewrite String.eqb_refl.
    assert (Hnd' : forall w, NoDup (keys ((pre ++ [(k, w)]) ++ post))).
    { intros w. unfold keys in *. rewrite <- app_assoc. simpl.
      rewrite map_app in *. simpl in *. exact Hnd. }
    destruct v as [x | value].
    + specialize (IH (pre ++ [(k, Float x)]) (Hnd' _)).
      rewrite <- app_assoc in IH. simpl in IH. rewrite IH.
      destruct (resolve prefix post) as [rest1 r]. simpl.
      rewrite <- app_assoc. reflexivity.
    + match goal with
      | |- context [parse_string ?e] => destruct (parse_string e) as [y |]
      end; simpl;
        [| reflexivity].
      rewrite (set_app_skip pre ((k, Str value) :: post) k (Float y) Hk).
      simpl. rewrite String.eqb_refl.
      specialize (IH (pre ++ [(k, Float y)]) (Hnd' _)).
      rewrite <- app_assoc in IH. simpl in IH. rewrite IH.
      destruct (resolve prefix post) as [rest1 r]. simpl.
      rewrite <- app_assoc. reflexivity.
Qed.

Lemma resolve_ok (prefix : string) (d : dict string CalculatorFloat) :
  snd (resolve prefix d) = Ok tt ->
  literal (fst (resolve prefix d)) = true
  /\ keys (fst (resolve prefix d)) = keys d.
Proof.
  induction d as [| [k v] d IH]; simpl; [intros _; split; reflexivity |].
  destruct v as [x | value].
  - destruct (resolve prefix d) as [rest1 r]. simpl in *. intros Hr.
    destruct (IH Hr) as [Hl Hk]. unfold literal in *. simpl.
    split; [exact Hl | f_equal; exact Hk].
  - match goal with
      | |- context [parse_string ?e] => destruct (parse_string e) as [y |]
      end; simpl;
      [| discriminate].
    destruct (resolve prefix d) as [rest1 r]. simpl in *. intros Hr.
    destruct (IH Hr) as [Hl Hk]. unfold literal in *. simpl.
    split; [exact Hl | f_equal; exact Hk].
Qed.

(** On a dictionary of literals the loop changes nothing. *)
Lemma loop_on_literals (prefix : string) (d : dict string CalculatorFloat) :
  literal d = true ->
  forall ks, incl ks (keys d) -> substitute_loop prefix ks d = (d, Ok tt).
Proof.
  intros Hl ks. induction ks as [| k ks IH]; intros Hin; simpl.
  - reflexivity.
  - destruct (in_keys_get d k (Hin k (or_introl Logic.eq_refl)))
      as (v & Hv & Hval).
    rewrite Hv. unfold literal in Hl. rewrite forallb_forall in Hl.
    specialize (Hl v Hval). destruct v as [x | value]; [| discriminate].
    apply IH. intros a Ha. apply Hin. right. exact Ha.
Qed.

(** A call that returns leaves the gate not parametrized. *)
Lemma returned_not_parametrized (g g1 : GateOperation)
  (b : dict string CalculatorFloat) :
  substitute_parameters g b = (g1, Ok tt) -> is_parametrized g1 = false.
Proof.
  unfold substitute_parameters. destruct (is_parametrized g) eqn:Hp.
  - destruct (substitute_loop _ _ _) as [d [[] | e]]; intros Heq;
      inversion Heq; subst; reflexivity.
  - intros Heq. inversion Heq; subst. exact Hp.
Qed.

(** For a gate whose flag tells whether a parameter is symbolic, a call
    that returns leaves every parameter literal and the flag still
    telling so. *)
Lemma substitution_resolves (g g1 : GateOperation)
  (b : dict string CalculatorFloat) :
  NoDup (keys (_ordered_parameter_dict g)) ->
  is_parametrized g = symbolic (_ordered_parameter_dict g) ->
  substitute_parameters g b = (g1, Ok tt) ->
  literal (_ordered_parameter_dict g1) = true
  /\ is_parametrized g1 = symbolic (_ordered_parameter_dict g1).
Proof.
  intros Hnd Hsound. unfold substitute_parameters.
  destruct (is_parametrized g) eqn:Hp.
  - pose proof (loop_is_resolve (substitution_string b)
                  (_ordered_parameter_dict g) [] Hnd) as Hloop.
    simpl in Hloop. rewrite Hloop.
    destruct (snd (resolve (substitution_string b)
                     (_ordered_parameter_dict g))) as [[] | e] eqn:Hr;
      intros Heq; inversion Heq; subst; clear Heq.
    destruct (resolve_ok _ _ Hr) as [Hl _]. simpl.
    split; [exact Hl |]. rewrite symbolic_not_literal, Hl. reflexivity.
  - intros Heq. assert (Hg : g1 = g) by congruence. subst g1.
    split; [| rewrite Hp; exact Hsound].
    rewrite symbolic_not_literal in Hsound.
    destruct (literal (_ordered_parameter_dict g));
      [reflexivity | discriminate].
Qed.

Lemma substitute_twice (g g1 : GateOperation)
  (b : dict string CalculatorFloat) :
  substitute_parameters g b = (g1, Ok tt) ->
  substitute_parameters g1 b = (g1, Ok tt).
Proof.
  intros H1. pose proof (returned_not_parametrized g g1 b H1) as Hp.
  unfold substitute_parameters. rewrite Hp. reflexivity.
Qed.

Lemma substitute_operation_twice (op op1 : circuit.Operation)
  (b : dict string CalculatorFloat) :
  circuit.substitute_operation op b = (op1, Ok tt) ->
  circuit.substitute_operation op1 b = (op1, Ok tt).
Proof.
  destruct op as [d | cls g | text]; simpl.
  - intros Heq. inversion Heq; subst. reflexivity.
  - destruct (substitute_parameters g b) as [g1 r] eqn:Hs. intros Heq.
    inversion Heq; subst. simpl.
    rewrite (substitute_twice g g1 b Hs). reflexivity.
  - intros Heq. inversion Heq; subst. reflexivity.
Qed.

Lemma substitute_each_twice (ops : list circuit.Operation)
  (b : dict string CalculatorFloat) :
  forall ops1,
  circuit.substitute_each ops b = (ops1, Ok tt) ->
  circuit.substitute_each ops1 b = (ops1, Ok tt).
Proof.
  induction ops as [| op ops IH]; intros ops1; simpl.
  - intros Heq. inversion Heq; subst. reflexivity.
  - destruct (circuit.substitute_operation op b) as [op1 [[] | e]] eqn:Hop.
    + destruct (circuit.substitute_each ops b) as [rest1 r] eqn:Hrest.
      intros Heq. inversion Heq; subst. simpl.
      rewrite (substitute_operation_twice op op1 b Hop).
      rewrite (IH rest1 Logic.eq_refl). reflexivity.
    + intros Heq. inversion Heq.
Qed.

(** C8.  A second [substitute_parameters] with the bindings of a first one
    that returned changes nothing, for a gate and for a circuit; on a gate
    whose parameters are all literal the call returns and keeps the
    dictionaries, and it changes nothing when the flag says so. *)
Theorem substitution_is_idempotent (b : dict string CalculatorFloat) :
  (forall g g1 : GateOperation,
     substitute_parameters g b = (g1, Ok tt) ->
     substitute_parameters g1 b = (g1, Ok tt))
  /\ (forall c c1 : circuit.Circuit,
        circuit.substitute_parameters c b = (c1, Ok tt) ->
        circuit.substitute_parameters c1 b = (c1, Ok tt))
  /\ (forall g : GateOperation,
        literal (_ordered_parameter_dict g) = true ->
        exists g1,
          substitute_parameters g b = (g1, Ok tt)
          /\ _ordered_parameter_dict g1 = _ordered_parameter_dict g
          /\ _ordered_qubits_dict g1 = _ordered_qubits_dict g
          /\ _involved_qubits g1 = _involved_qubits g
          /\ is_parametrized g1 = false
          /\ (is_parametrized g = false -> g1 = g)).
Proof.
  split; [| split].
  - intros g g1. apply substitute_twice.
  - intros c c1. unfold circuit.substitute_parameters.
    destruct (circuit.substitute_each (circuit._operations c) b)
      as [ops1 r] eqn:Hs.
    intros Heq. inversion Heq; subst. simpl.
    rewrite (substitute_each_twice _ b ops1 Hs). reflexivity.
  - intros g Hl. unfold substitute_parameters.
    destruct (is_parametrized g) eqn:Hp.
    + rewrite (loop_on_literals _ _ Hl _ (incl_refl _)).
      eexists. split; [reflexivity |]. simpl.
      repeat split; try reflexivity. discriminate.
    + exists g. repeat split; try reflexivity. exact Hp.
Qed.

End Substitution.

(** [RotateX(theta="t")] with [{'t': 1.0}]: the first call resolves
    [theta], the second finds nothing to do. *)
Lemma substitution_is_idempotent_witness :
  exists g1,
    @substitute_parameters samples.one_binding samples.rotate_x_t
      samples.t_is_one = (g1, Ok tt)
    /\ @substitute_parameters samples.one_binding g1 samples.t_is_one
       = (g1, Ok tt).
Proof.
  eexists. split.
  - reflexivity.
  - apply (proj1 (@substitution_is_idempotent samples.one_binding
                    samples.t_is_one) samples.rotate_x_t).
    reflexivity.
Defined.

End gate_theory.

(** ** Gate operations in the store: copies and powers *)

Module store_theory.

Import dict_theory.

Lemma nth_error_prefix {A} (s l : list A) (a : nat) (x : A) :
  nth_error s a = Some x -> nth_error (s ++ l) a = Some x.
Proof.
  intros H. rewrite nth_error_app1; [exact H |].
  apply nth_error_Some. congruence.
Qed.

Lemma nth_error_suffix {A} (s l : list A) (i : nat) :
  nth_error (s ++ l) (List.length s + i) = nth_error l i.
Proof.
  rewrite nth_error_app2 by lia. f_equal. lia.
Qed.

Lemma replace_nth_suffix {A} (s l : list A) (i : nat) (x : A) :
  replace_nth (s ++ l) (List.length s + i) x = s ++ replace_nth l i x.
Proof.
  induction s as [| y s IH]; simpl; [reflexivity |]. f_equal. exact IH.
Qed.

(** What [view] reads is in the store. *)
Lemma view_inv (s : store) (a : addr) (cls : GateClass) (g : GateOperation) :
  view s a = Some (cls, g) ->
  exists ob ia,
    nth_error s a = Some (OGate ob)
    /\ ob_class ob = cls
    /\ nth_error s (ob_qubits ob) = Some (OQubits (_ordered_qubits_dict g))
    /\ nth_error s (ob_parameters ob)
       = Some (OParameters (_ordered_parameter_dict g))
    /\ ob_parametrized ob = Some (_parametrized g)
    /\ ob_involved ob = Some ia
    /\ nth_error s ia = Some (OSet (_involved_qubits g)).
Proof.
  unfold view. intros H.
  destruct (nth_error s a) as [[| | | ob] |] eqn:Ha; try discriminate.
  destruct (nth_error s (ob_qubits ob)) as [[qs | | |] |] eqn:Hq;
    try discriminate.
  destruct (nth_error s (ob_parameters ob)) as [[| ps | |] |] eqn:Hp;
    try discriminate.
  destruct (ob_parametrized ob) as [flag |] eqn:Hf; try discriminate.
  destruct (ob_involved ob) as [ia |] eqn:Hi; try discriminate.
  destruct (nth_error s ia) as [[| | inv |] |] eqn:Hs; try discriminate.
  inversion H; subst; simpl. exists ob, ia. repeat split; assumption.
Qed.

(** A store that grows keeps what [view] read. *)
Lemma view_prefix (s l : store) (a : addr) (cls : GateClass)
  (g : GateOperation) :
  view s a = Some (cls, g) -> view (s ++ l) a = Some (cls, g).
Proof.
  intros H. destruct (view_inv s a cls g H)
    as (ob & ia & Ha & Hc & Hq & Hp & Hf & Hi & Hs).
  unfold view.
  rewrite (nth_error_prefix s l a _ Ha), (nth_error_prefix s l _ _ Hq),
    (nth_error_prefix s l _ _ Hp), Hf, Hi, (nth_error_prefix s l _ _ Hs).
  destruct g; simpl in *. subst cls. reflexivity.
Qed.

(** The view of the copy among the six objects [copied] adds. *)
Lemma view_copied (s : store) (cls : GateClass) (g : GateOperation)
  (ps : dict string CalculatorFloat) (flag : bool) :
  view (s ++ copied (List.length s) cls g ps flag) (List.length s + 2) =
  Some (cls, {| _ordered_qubits_dict := _ordered_qubits_dict g;
                _ordered_parameter_dict := ps;
                _parametrized := flag;
                _involved_qubits := _involved_qubits g |}).
Proof.
  unfold view. rewrite !nth_error_suffix. simpl.
  rewrite !nth_error_suffix. simpl. reflexivity.
Qed.

(** [__copy__] of a gate that [view] reads adds the six objects and
    returns the third. *)
Lemma copy_run (s : store) (self : addr) (cls : GateClass)
  (g : GateOperation) :
  view s self = Some (cls, g) ->
  __copy__ self s =
  (s ++ copied (List.length s) cls g (_ordered_parameter_dict g)
          (_parametrized g),
   Ok (List.length s + 2)).
Proof.
  intros H. destruct (view_inv s self cls g H)
    as (ob & ia & Ha & Hc & Hq & Hp & Hf & Hi & Hs).
  unfold __copy__, mbind, read_gate, alloc, read_qubits, read_parameters,
    read_set, attribute, write, ret.
  rewrite Ha, Hf, Hi. simpl.
  rewrite (nth_error_prefix _ _ _ _ (nth_error_prefix _ _ _ _
             (nth_error_prefix _ _ _ _ Hq))).
  rewrite (nth_error_prefix _ _ _ _ (nth_error_prefix _ _ _ _
             (nth_error_prefix _ _ _ _ (nth_error_prefix _ _ _ _ Hp)))).
  simpl.
  rewrite (nth_error_prefix _ _ _ _ (nth_error_prefix _ _ _ _
             (nth_error_prefix _ _ _ _ (nth_error_prefix _ _ _ _
             (nth_error_prefix _ _ _ _ Hs))))).
  repeat rewrite <- app_assoc. simpl.
  repeat rewrite length_app. simpl.
  replace (List.length s + 1 + 1) with (List.length s + 2) by lia.
  rewrite replace_nth_suffix. simpl. unfold copied. subst cls.
  repeat (f_equal; try lia).
Qed.

Section Power.
Context {calc : Calculator}.

(** The loop of [__pow__] writes only the parameter dictionary of the
    copy, as [scaled] says. *)
Lemma power_loop (s : store) (cls : GateClass) (g : GateOperation)
  (ob : GateObject) (flag : bool) (other : CalculatorFloat)
  (l : list string) :
  nth_error s (ob_parameters ob)
  = Some (OParameters (_ordered_parameter_dict g)) ->
  forall cur : dict string CalculatorFloat,
  for_each l
    (fun parameter =>
       mine <- read_parameters (ob_parameters ob) ;;
       v <- (fun s => (s, item mine parameter)) ;;
       r <- read_gate (List.length s + 2) ;;
       theirs <- read_parameters (ob_parameters r) ;;
       write (ob_parameters r)
         (OParameters (set theirs parameter (mul v other))))%store
    (s ++ copied (List.length s) cls g cur flag)
  = (s ++ copied (List.length s) cls g
            (fst (scaled (_ordered_parameter_dict g) cur l other)) flag,
     snd (scaled (_ordered_parameter_dict g) cur l other)).
Proof.
  intros Hp. induction l as [| k l IH]; intros cur; simpl.
  - reflexivity.
  - unfold mbind at 1. unfold mbind at 1. unfold read_parameters at 1.
    rewrite (nth_error_prefix _ _ _ _ Hp).
    unfold mbind at 1. unfold item, of_option.
    destruct (get (_ordered_parameter_dict g) k) as [v |] eqn:Hv; simpl;
      [| reflexivity].
    unfold mbind at 1. unfold read_gate at 1.
    rewrite nth_error_suffix. simpl.
    unfold mbind at 1. unfold read_parameters at 1.
    rewrite nth_error_suffix. simpl.
    unfold write. rewrite replace_nth_suffix. simpl.
    apply (IH (set cur k (mul v other))).
Qed.

(** [__pow__] on a gate that [view] reads, in full. *)
Lemma power_run (s : store) (self : addr) (cls : GateClass)
  (g : GateOperation) (other : CalculatorFloat) :
  view s self = Some (cls, g) ->
  let n := List.length s in
  let ps := _ordered_parameter_dict g in
  __pow__ self other s =
  match _rotation_strength_parameters cls with
  | None => (s ++ copied n cls g ps (_parametrized g), Raise AttributeError)
  | Some l =>
      match scaled ps ps l other with
      | (ps1, Ok _) =>
          (s ++ copied n cls g ps1
                  (if symbolic ps1 then true else _parametrized g),
           Ok (n + 2))
      | (ps1, Raise e) =>
          (s ++ copied n cls g ps1 (_parametrized g), Raise e)
      end
  end.
Proof.
  intros H n ps. destruct (view_inv s self cls g H)
    as (ob & ia & Ha & Hc & Hq & Hp & Hf & Hi & Hs).
  unfold __pow__. unfold mbind at 1. rewrite (copy_run s self cls g H).
  unfold mbind at 1. unfold read_gate at 1.
  rewrite (nth_error_prefix _ _ _ _ Ha). rewrite Hc.
  destruct (_rotation_strength_parameters cls) as [l |]; [| reflexivity].
  unfold mbind at 1.
  rewrite (power_loop s cls g ob (_parametrized g) other l Hp).
  fold n. fold ps.
  destruct (scaled ps ps l other) as [ps1 [[] | e]]; simpl; [| reflexivity].
  unfold mbind at 1. unfold read_gate at 1. unfold n.
  rewrite nth_error_suffix. simpl.
  unfold mbind at 1. unfold read_parameters at 1.
  rewrite nth_error_suffix. simpl.
  unfold symbolic.
  destruct (existsb (fun p => negb (is_float p)) (values ps1)).
  - unfold mbind, write, ret. rewrite replace_nth_suffix. reflexivity.
  - reflexivity.
Qed.

(** When [self] has every parameter of the list, [scaled] returns: the
    listed parameters are those of [self] times [other], the others are
    kept. *)
Lemma scaled_ok (mine : dict string CalculatorFloat) (other : CalculatorFloat)
  (l : list string) :
  (forall k, In k l -> In k (keys mine)) ->
  forall theirs : dict string CalculatorFloat,
  exists ps1,
    scaled mine theirs l other = (ps1, Ok tt)
    /\ (forall k, In k l ->
          exists v, get mine k = Some v /\ get ps1 k = Some (mul v other))
    /\ (forall k, ~ In k l -> get ps1 k = get theirs k)
    /\ ((forall k, In k l -> In k (keys theirs)) -> keys ps1 = keys theirs).
Proof.
  induction l as [| p l IH]; intros Hin theirs; simpl.
  - exists theirs. repeat split; try reflexivity. intros k [].
  - destruct (in_keys_get mine p (Hin p (or_introl Logic.eq_refl)))
      as (v & Hv & _).
    rewrite Hv.
    destruct (IH (fun k Hk => Hin k (or_intror Hk))
                (set theirs p (mul v other)))
      as (ps1 & Hrun & Hscaled & Hkept & Hkeys).
    exists ps1. split; [exact Hrun |]. split; [| split].
    + intros k [Hk | Hk].
      * subst k. exists v. split; [exact Hv |].
        destruct (in_dec string_dec p l) as [Hl | Hl].
        -- destruct (Hscaled p Hl) as (v1 & Hv1 & Hget). congruence.
        -- rewrite (Hkept p Hl). apply get_set_same.
      * apply Hscaled. exact Hk.
    + intros k Hk. rewrite Hkept by (intros Hl; apply Hk; right; exact Hl).
      apply get_set_other. intros Heq. apply Hk. left. exact Heq.
    + intros Hall. rewrite Hkeys.
      * apply keys_set_present. apply Hall. left. reflexivity.
      * intros k Hk. rewrite keys_set_present.
        -- apply Hall. right. exact Hk.
        -- apply Hall. left. reflexivity.
Qed.

End Power.

(** The keys of the parameter dictionary [__init__] builds are the keys of
    the class defaults. *)
Lemma init_keys_from (kw : dict string CalculatorFloat)
  (defaults : dict string CalculatorFloat) :
  forall (acc : dict string CalculatorFloat) (flag : bool),
  NoDup (keys acc ++ keys defaults) ->
  keys (fst (fold_left
               (fun (acc : dict string CalculatorFloat * bool)
                    (kv : string * CalculatorFloat) =>
                  let key := fst kv in
                  let v := match get kw key with
                           | Some v => v
                           | None => snd kv
                           end in
                  (set (fst acc) key v, if is_float v then snd acc else true))
               defaults (acc, flag)))
  = keys acc ++ keys defaults.
Proof.
  induction defaults as [| [k d] defaults IH]; intros acc flag Hnd; simpl.
  - rewrite app_nil_r. reflexivity.
  - rewrite IH.
    + assert (Hk : ~ In k (keys acc)).
      { simpl in Hnd. apply NoDup_remove_2 in Hnd. intros Hin. apply Hnd.
        apply in_or_app. left. exact Hin. }
      assert (Hset : forall v, keys (set acc k v) = keys acc ++ [k]).
      { intros v. pose proof (set_app_skip acc [] k v Hk) as E.
        rewrite app_nil_r in E. rewrite E. unfold keys. rewrite map_app.
        reflexivity. }
      rewrite Hset. rewrite <- app_assoc. reflexivity.
    + assert (Hk : ~ In k (keys acc)).
      { simpl in Hnd. apply NoDup_remove_2 in Hnd. intros Hin. apply Hnd.
        apply in_or_app. left. exact Hin. }
      pose proof (set_app_skip acc [] k
                    match get kw k with Some v => v | None => d end Hk) as E.
      rewrite app_nil_r in E. simpl. rewrite E. unfold keys in *.
      rewrite map_app. simpl. rewrite <- app_assoc. simpl. exact Hnd.
Qed.

Lemma init_keys (cls : GateClass) (qkw : dict string Z)
  (pkw : dict string CalculatorFloat) :
  NoDup (keys (_ordered_parameter_dict_default cls)) ->
  keys (_ordered_parameter_dict (__init__ cls qkw pkw))
  = keys (_ordered_parameter_dict_default cls).
Proof.
  intros Hnd. unfold __init__. simpl.
  apply (init_keys_from pkw (_ordered_parameter_dict_default cls) [] false).
  simpl. exact Hnd.
Qed.

(** Every class of the source that declares rotation-strength parameters
    has them among its parameter defaults, once each; so has every gate
    its constructor builds. *)
Lemma rotation_strength_is_a_parameter (cls : GateClass) :
  (exists v, cls = single_qubit.class_of v)
  \/ (exists v m, cls = two_qubit.class_of v m) ->
  forall (l : list string) (qkw : dict string Z)
         (pkw : dict string CalculatorFloat),
  _rotation_strength_parameters cls = Some l ->
  forall k, In k l ->
  In k (keys (_ordered_parameter_dict (__init__ cls qkw pkw))).
Proof.
  intros Hcls l qkw pkw Hl k Hk.
  assert (Hnd : NoDup (keys (_ordered_parameter_dict_default cls))
                /\ In k (keys (_ordered_parameter_dict_default cls))).
  { destruct Hcls as [[v Hv] | (v & m & Hv)]; subst cls;
      destruct v; simpl in *; try discriminate;
      inversion Hl; subst l; simpl in Hk;
      (split;
       [ repeat constructor; simpl; intuition discriminate
       | intuition (subst; simpl; auto) ]). }
  destruct Hnd as [Hnd Hin]. rewrite init_keys by exact Hnd. exact Hin.
Qed.

Section PowerProperties.
Context {calc : Calculator}.

(** C4.  For a stored gate of a class that declares rotation-strength
    parameters, all of them parameters of the gate, [G ** other] returns
    a gate of the same class in which every declared parameter is the
    parameter of [G] times [other] (for two literals, the float
    [other * x]), every other parameter is that of [G], and the qubit
    dictionary and the qubit set are those of [G]. *)
Theorem power_scales_rotation_strength (s : store) (self : addr)
  (cls : GateClass) (g : GateOperation) (l : list string)
  (other : CalculatorFloat) :
  view s self = Some (cls, g) ->
  _rotation_strength_parameters cls = Some l ->
  (forall k, In k l -> In k (keys (_ordered_parameter_dict g))) ->
  exists s1 a1 g1,
    __pow__ self other s = (s1, Ok a1)
    /\ view s1 a1 = Some (cls, g1)
    /\ (forall k, In k l ->
          exists v, get (_ordered_parameter_dict g) k = Some v
                    /\ get (_ordered_parameter_dict g1) k
                       = Some (mul v other))
    /\ (forall k x p, In k l ->
          get (_ordered_parameter_dict g) k = Some (Float x) ->
          other = Float p ->
          get (_ordered_parameter_dict g1) k = Some (Float (p * x)%R))
    /\ (forall k, ~ In k l ->
          get (_ordered_parameter_dict g1) k
          = get (_ordered_parameter_dict g) k)
    /\ keys (_ordered_parameter_dict g1) = keys (_ordered_parameter_dict g)
    /\ _ordered_qubits_dict g1 = _ordered_qubits_dict g
    /\ _involved_qubits g1 = _involved_qubits g.
Proof.
  intros Hview Hl Hin.
  pose proof (power_run s self cls g other Hview) as Hrun.
  cbv zeta in Hrun. rewrite Hl in Hrun.
  destruct (scaled_ok (_ordered_parameter_dict g) other l Hin
              (_ordered_parameter_dict g))
    as (ps1 & Hscaled & Hmul & Hkept & Hkeys).
  rewrite Hscaled in Hrun.
  eexists. eexists. eexists. split; [exact Hrun |].
  split; [apply view_copied |]. simpl.
  split; [exact Hmul |]. split; [| split; [exact Hkept |]].
  - intros k x p Hk Hx Hp. destruct (Hmul k Hk) as (v & Hv & Hget).
    rewrite Hget. rewrite Hx in Hv. inversion Hv; subst v other.
    simpl. unfold mul, binop. rewrite Rmult_comm. reflexivity.
  - split; [apply Hkeys; exact Hin |]. split; reflexivity.
Qed.


End PowerProperties.

(** [RotateX(qubit=0, theta=3) ** 2]: the result has [theta = 2 * 3]. *)
Lemma power_scales_rotation_strength_witness :
  exists s1 a1 g1,
    @__pow__ samples.one_binding 3 (Float 2) samples.rotate_x_store
    = (s1, Ok a1)
    /\ view s1 a1 = Some (single_qubit.class_of single_qubit.RotateX, g1)
    /\ get (_ordered_parameter_dict g1) "theta"%string
       = Some (Float (2 * 3)%R).
Proof.
  destruct (@power_scales_rotation_strength samples.one_binding
              samples.rotate_x_store 3
              (single_qubit.class_of single_qubit.RotateX)
              samples.rotate_x_3 ["theta"%string] (Float 2))
    as (s1 & a1 & g1 & Hrun & Hview & _ & Hlit & _).
  - reflexivity.
  - reflexivity.
  - intros k Hk. exact Hk.
  - exists s1, a1, g1. split; [exact Hrun |]. split; [exact Hview |].
    apply (Hlit "theta"%string 3%R 2%R).
    + left. reflexivity.
    + reflexivity.
    + reflexivity.
Defined.


End store_theory.

(** ** Single-qubit gates: the product of two gates *)

Module single_qubit_theory.

Import single_qubit.

Local Open Scope R_scope.

Lemma sqrt2_sqrt2 : sqrt 2 * sqrt 2 = 2.
Proof. apply sqrt_def. lra. Qed.

Lemma sqrt2_pos : 0 < sqrt 2.
Proof. apply sqrt_lt_R0. lra. Qed.

Lemma inv_sqrt2 : / sqrt 2 = sqrt 2 / 2.
Proof.
  pose proof sqrt2_sqrt2 as H. pose proof sqrt2_pos as Hp.
  apply Rmult_eq_reg_l with (sqrt 2); [| lra].
  rewrite Rinv_r by lra. lra.
Qed.

Lemma cos_quarter : Rtrigo_def.cos (PI / 4) = sqrt 2 / 2.
Proof. rewrite cos_PI4. unfold Rdiv. rewrite inv_sqrt2. lra. Qed.

Lemma sin_quarter : Rtrigo_def.sin (PI / 4) = sqrt 2 / 2.
Proof. rewrite sin_PI4. unfold Rdiv. rewrite inv_sqrt2. lra. Qed.

Lemma cos_double (x : R) :
  Rtrigo_def.cos (x + x)
  = Rtrigo_def.cos x * Rtrigo_def.cos x - Rtrigo_def.sin x * Rtrigo_def.sin x.
Proof. apply cos_plus. Qed.

Lemma sin_double (x : R) :
  Rtrigo_def.sin (x + x)
  = Rtrigo_def.sin x * Rtrigo_def.cos x + Rtrigo_def.cos x * Rtrigo_def.sin x.
Proof. apply sin_plus. Qed.

Lemma unit_circle (x : R) :
  Rtrigo_def.cos x * Rtrigo_def.cos x + Rtrigo_def.sin x * Rtrigo_def.sin x = 1.
Proof. pose proof (sin2_cos2 x) as H. unfold Rsqr in H. lra. Qed.

(** The product of two matrices of the general form is the general form
    of the scalars [__mul__] computes. *)
Lemma general_form_product (ar ai br bi p ar' ai' br' bi' p' : R) :
  matmul (general_form ar ai br bi p) (general_form ar' ai' br' bi' p')
  = general_form
      (ar * ar' - ai * ai' - (br' * br - bi' * (- 1 * bi)))
      (ar * ai' + ai * ar' - (br' * (- 1 * bi) + bi' * br))
      (br * ar' - bi * ai' + (br' * ar - bi' * (- 1 * ai)))
      (br * ai' + bi * ar' + (br' * (- 1 * ai) + bi' * ar))
      (p + p').
Proof.
  unfold general_form, matmul, scale, dot, column, Cexp_i, Cmul, Cadd, C0.
  simpl. rewrite cos_plus, sin_plus.
  repeat (f_equal; try ring).
Qed.

Ltac shape ps Hp :=
  destruct ps as [| [? ?] ps]; simpl in Hp;
  [ try discriminate Hp
  | try discriminate Hp; try (injection Hp as ? Hp; subst; shape ps Hp) ].

Ltac literals Hl :=
  repeat match goal with
         | v : CalculatorFloat |- _ =>
             destruct v; simpl in Hl; try discriminate Hl
         end.

Lemma matrix_entries (a b c d e f g h a' b' c' d' e' f' g' h' : R) :
  a = a' -> b = b' -> c = c' -> d = d' ->
  e = e' -> f = f' -> g = g' -> h = h' ->
  @Ok matrix [[mkC a b; mkC c d]; [mkC e f; mkC g h]]
  = Ok [[mkC a' b'; mkC c' d']; [mkC e' f'; mkC g' h']].
Proof. intros; subst; reflexivity. Qed.

Section Algebra.
Context {calc : Calculator}.

(** A literal instance of a class has five literal scalars, and the
    matrix method of the class gives the general form of them. *)
Lemma normal_form (v : variant) (g : GateOperation) :
  instance_of (class_of v) g ->
  literal (_ordered_parameter_dict g) = true ->
  exists q ar ai br bi ph,
    _ordered_qubits_dict g = [("qubit"%string, q)]
    /\ _involved_qubits g = [q]
    /\ alpha_r v g = Ok (Float ar)
    /\ alpha_i v g = Ok (Float ai)
    /\ beta_r v g = Ok (Float br)
    /\ beta_i v g = Ok (Float bi)
    /\ global_phase v g = Ok (Float ph)
    /\ matrix_from_parameters v (_ordered_parameter_dict g)
       = Ok (general_form ar ai br bi ph).
Proof.
  intros (Hp & Hq & Hi) Hl.
  destruct g as [qs ps flag inv]. simpl in *.
  assert (Hqs : exists q, qs = [("qubit"%string, q)]).
  { destruct qs as [| [k q] [| ? ?]]; simpl in Hq; try discriminate.
    injection Hq as Hq. subst k. exists q. reflexivity. }
  destruct Hqs as [q Hqs]. subst qs. simpl in Hi. subst inv.
  exists q.
  destruct v; simpl in Hp; shape ps Hp; literals Hl;
    unfold alpha_r, alpha_i, beta_r, beta_i, global_phase, half_angle,
      parameter, item; simpl;
    do 5 eexists; (repeat (split; [reflexivity |])).
  all: unfold general_form, x_rotation, axis_rotation, scale, Cexp_i, Cmul,
         Cadd, Csub, Copp, Cconj, RtoC, C0, C1, Ci; simpl.
  all: apply matrix_entries.
  all: try replace (PI / 2 / 2) with (PI / 4) by lra.
  all: try replace (- PI / 2 / 2) with (- (PI / 4)) by lra.
  all: rewrite ?cos_neg, ?sin_neg, ?cos_PI2, ?sin_PI2, ?cos_0, ?sin_0.
  all: try ring.
  all: try lra.
  all: try (pose proof (unit_circle (PI / 8)); lra).
  all: try (replace (PI / 4) with (PI / 8 + PI / 8) by lra;
            rewrite ?cos_double, ?sin_double; ring).
  all: rewrite cos_quarter, sin_quarter; unfold Rdiv; rewrite inv_sqrt2;
    pose proof sqrt2_sqrt2; nra.
Qed.

(** The gate [single_qubit_gate] returns carries the five scalars as its
    parameters. *)
Lemma single_qubit_gate_parameters (v : variant) (g : GateOperation)
  (q : Z) (ar ai br bi ph : R) :
  _ordered_qubits_dict g = [("qubit"%string, q)] ->
  instance_of (class_of v) g ->
  alpha_r v g = Ok (Float ar) -> alpha_i v g = Ok (Float ai) ->
  beta_r v g = Ok (Float br) -> beta_i v g = Ok (Float bi) ->
  global_phase v g = Ok (Float ph) ->
  exists s,
    single_qubit_gate v g = Ok s
    /\ alpha_r SingleQubitGate s = Ok (Float ar)
    /\ alpha_i SingleQubitGate s = Ok (Float ai)
    /\ beta_r SingleQubitGate s = Ok (Float br)
    /\ beta_i SingleQubitGate s = Ok (Float bi)
    /\ global_phase SingleQubitGate s = Ok (Float ph).
Proof.
  intros Hq Hinst Har Hai Hbr Hbi Hph. unfold single_qubit_gate.
  destruct (isinstance_SingleQubitGate v) eqn:Hv.
  - destruct v; try discriminate Hv. exists g. repeat split; assumption.
  - rewrite Hq, Har, Hai, Hbr, Hbi, Hph. simpl.
    eexists. split; [reflexivity |]. repeat split; reflexivity.
Qed.

(** C3.  For literal gates [A] and [B] of any two classes on the same
    qubit, [A * B] is a [SingleQubitGate] whose unitary matrix is the
    matrix product of the unitary matrices of [A] and [B]; the numbers are
    real numbers, so the two sides are equal and not only close. *)
Theorem product_is_matrix_product (va vb : variant) (A B : GateOperation) :
  instance_of (class_of va) A ->
  instance_of (class_of vb) B ->
  literal (_ordered_parameter_dict A) = true ->
  literal (_ordered_parameter_dict B) = true ->
  is_parametrized A = false ->
  is_parametrized B = false ->
  set_eqb (_involved_qubits A) (_involved_qubits B) = true ->
  exists P MA MB MP,
    __mul__ va A vb B = Ok P
    /\ unitary_matrix (class_of va) A = Ok MA
    /\ unitary_matrix (class_of vb) B = Ok MB
    /\ unitary_matrix (class_of SingleQubitGate) P = Ok MP
    /\ MP = matmul MA MB.
Proof.
  intros HA HB HlA HlB HpA HpB Hsame.
  destruct (normal_form va A HA HlA)
    as (qa & ar & ai & br & bi & ph & HqA & _ & Har & Hai & Hbr & Hbi & Hph
        & HMA).
  destruct (normal_form vb B HB HlB)
    as (qb & ar' & ai' & br' & bi' & ph' & HqB & _ & Har' & Hai' & Hbr'
        & Hbi' & Hph' & HMB).
  destruct (single_qubit_gate_parameters va A qa ar ai br bi ph HqA HA
              Har Hai Hbr Hbi Hph)
    as (s & Hs & Hsar & Hsai & Hsbr & Hsbi & Hsph).
  destruct (single_qubit_gate_parameters vb B qb ar' ai' br' bi' ph' HqB HB
              Har' Hai' Hbr' Hbi' Hph')
    as (o & Ho & Hoar & Hoai & Hobr & Hobi & Hoph).
  unfold __mul__. rewrite Hsame, Ho, Hs. simpl.
  unfold product_parameters.
  rewrite Hsar, Hsai, Hsbr, Hsbi, Hsph, Hoar, Hoai, Hobr, Hobi, Hoph. simpl.
  rewrite HqA. simpl.
  eexists. exists (general_form ar ai br bi ph).
  exists (general_form ar' ai' br' bi' ph'). eexists.
  split; [reflexivity |].
  split; [unfold unitary_matrix; rewrite HpA; simpl; exact HMA |].
  split; [unfold unitary_matrix; rewrite HpB; simpl; exact HMB |].
  split; [unfold unitary_matrix; simpl; reflexivity |].
  rewrite general_form_product.
  unfold general_form, scale, Cexp_i, Cmul, Copp, Cconj. simpl.
  assert (Hentries : forall (M N : matrix), @Ok matrix M = Ok N -> M = N)
    by (intros M N E; inversion E; reflexivity).
  apply Hentries. apply matrix_entries; ring.
Qed.

(** C2 at the failing input.  After [g *= RotateX(theta="t")] on the
    identity [SingleQubitGate], the parameters of [g] are symbolic and its
    flag is still clear; [substitute_parameters] then returns at once, and
    leaves the parameters symbolic under a clear flag. *)
Theorem imul_leaves_the_flag_stale (b : dict string CalculatorFloat) :
  exists g1,
    __imul__ samples.identity_gate RotateX samples.rotate_x_t = Ok g1
    /\ is_parametrized g1 = false
    /\ symbolic (_ordered_parameter_dict g1) = true
    /\ substitute_parameters g1 b = (g1, Ok tt)
    /\ unitary_matrix (class_of SingleQubitGate) g1 = Raise TypeError.
Proof.
  eexists. split; [reflexivity |].
  split; [reflexivity |]. split; [reflexivity |]. split; reflexivity.
Qed.



End Algebra.

(** [Hadamard(qubit=0) * RotateX(qubit=0, theta=3)] *)
Lemma product_is_matrix_product_witness :
  exists P MA MB MP,
    @__mul__ samples.one_binding Hadamard samples.hadamard_0
      RotateX samples.rotate_x_3 = Ok P
    /\ unitary_matrix (class_of Hadamard) samples.hadamard_0 = Ok MA
    /\ unitary_matrix (class_of RotateX) samples.rotate_x_3 = Ok MB
    /\ unitary_matrix (class_of SingleQubitGate) P = Ok MP
    /\ MP = matmul MA MB.
Proof.
  apply (@product_is_matrix_product samples.one_binding Hadamard RotateX
           samples.hadamard_0 samples.rotate_x_3).
  - repeat split; reflexivity.
  - repeat split; reflexivity.
  - reflexivity.
  - reflexivity.
  - reflexivity.
  - reflexivity.
  - reflexivity.
Defined.




End single_qubit_theory.

(** ** Basis-rotation measurement: parities and readout mitigation *)

Module measurement_theory.

Import dict_theory basis_rotation.






















































End measurement_theory.

(** ** Circuits as sequences: indexing, assignment, deletion *)

Module circuit_laws.

Import define_operations circuit.

Lemma normalize_nonneg (n k : Z) :
  (0 <= k)%Z ->
  normalize_index n k = if (k <? n)%Z then Some (Z.to_nat k) else None.
Proof.
  intros Hk. unfold normalize_index.
  assert (H1 : (0 <=? k)%Z = true) by (apply Z.leb_le; lia).
  assert (H2 : (k <? 0)%Z = false) by (apply Z.ltb_ge; lia).
  rewrite H1, H2. simpl. rewrite andb_false_r.
  destruct (k <? n)%Z; reflexivity.
Qed.

Lemma getitem_nonneg {A} (l : list A) (k : Z) :
  (0 <= k)%Z ->
  getitem l k = of_option IndexError (nth_error l (Z.to_nat k)).
Proof.
  intros Hk. unfold getitem. rewrite normalize_nonneg by exact Hk.
  destruct (k <? len l)%Z eqn:Hlt; [reflexivity |].
  apply Z.ltb_ge in Hlt. unfold len in Hlt.
  assert (Hn : nth_error l (Z.to_nat k) = None)
    by (apply nth_error_None; lia).
  rewrite Hn. reflexivity.
Qed.

Lemma iter_length (c : Circuit) : __len__ c = len (__iter__ c).
Proof.
  unfold __len__, __iter__, len. rewrite length_app, length_map. lia.
Qed.

Lemma nth_error_iter (c : Circuit) (i : nat) :
  nth_error (__iter__ c) i =
  if (i <? List.length (_definitions c))%nat
  then option_map OpDefinition (nth_error (_definitions c) i)
  else nth_error (_operations c) (i - List.length (_definitions c)).
Proof.
  unfold __iter__. destruct (i <? List.length (_definitions c))%nat eqn:Hi.
  - apply Nat.ltb_lt in Hi.
    rewrite nth_error_app1 by (rewrite length_map; exact Hi).
    apply nth_error_map.
  - apply Nat.ltb_ge in Hi.
    rewrite nth_error_app2 by (rewrite length_map; exact Hi).
    rewrite length_map. reflexivity.
Qed.

Lemma getitem_iter (c : Circuit) (key : Z) :
  (0 <= key)%Z ->
  __getitem__ c key
  = of_option IndexError (nth_error (__iter__ c) (Z.to_nat key)).
Proof.
  intros Hk. unfold __getitem__. rewrite nth_error_iter. unfold len.
  destruct (key <? Z.of_nat (List.length (_definitions c)))%Z eqn:Hlt.
  - apply Z.ltb_lt in Hlt.
    assert (Hi : (Z.to_nat key <? List.length (_definitions c))%nat = true)
      by (apply Nat.ltb_lt; lia).
    rewrite Hi. rewrite getitem_nonneg by exact Hk.
    destruct (nth_error (_definitions c) (Z.to_nat key)); reflexivity.
  - apply Z.ltb_ge in Hlt.
    assert (Hi : (Z.to_nat key <? List.length (_definitions c))%nat = false)
      by (apply Nat.ltb_ge; lia).
    rewrite Hi. rewrite getitem_nonneg by lia.
    do 2 f_equal. lia.
Qed.

(** X1.  At a key that is not negative, [c[key]] is the item at that
    position of the iteration over [c], and an [IndexError] when the
    iteration is shorter; [len(c)] is the length of the iteration. *)
Theorem index_follows_iteration (c : Circuit) (key : Z) :
  (0 <= key)%Z ->
  __getitem__ c key
  = of_option IndexError (nth_error (__iter__ c) (Z.to_nat key))
  /\ __len__ c = len (__iter__ c).
Proof.
  intros Hk. split; [apply getitem_iter; exact Hk | apply iter_length].
Qed.

Lemma index_follows_iteration_witness :
  __getitem__ (build samples.interleaved) 1
  = of_option IndexError
      (nth_error (__iter__ (build samples.interleaved)) (Z.to_nat 1)).
Proof.
  apply (proj1 (index_follows_iteration (build samples.interleaved) 1
                  ltac:(lia))).
Defined.

Lemma normalize_some (n k : Z) (i : nat) :
  normalize_index n k = Some i ->
  (Z.of_nat i < n)%Z
  /\ ((0 <= k)%Z -> i = Z.to_nat k).
Proof.
  unfold normalize_index.
  destruct ((0 <=? k) && (k <? n))%Z eqn:H1.
  - apply andb_prop in H1. destruct H1 as [Ha Hb].
    apply Z.leb_le in Ha. apply Z.ltb_lt in Hb.
    intros H. inversion H; subst. split; [lia | reflexivity].
  - destruct ((- n <=? k) && (k <? 0))%Z eqn:H2; [| discriminate].
    apply andb_prop in H2. destruct H2 as [Ha Hb].
    apply Z.leb_le in Ha. apply Z.ltb_lt in Hb.
    intros H. inversion H; subst. split; lia.
Qed.

Lemma nth_error_assigned {A} (l : list A) (i : nat) (x : A) :
  (i < List.length l)%nat ->
  nth_error (firstn i l ++ x :: skipn (S i) l) i = Some x.
Proof.
  intros Hi. rewrite nth_error_app2 by (rewrite length_firstn; lia).
  rewrite length_firstn. replace (i - Nat.min i (List.length l))%nat with 0%nat
    by lia.
  reflexivity.
Qed.

Lemma length_assigned {A} (l : list A) (i : nat) (x : A) :
  (i < List.length l)%nat ->
  List.length (firstn i l ++ x :: skipn (S i) l) = List.length l.
Proof.
  intros Hi. rewrite length_app, length_firstn. cbn [List.length].
  rewrite length_skipn. lia.
Qed.

Lemma length_deleted {A} (l : list A) (i : nat) :
  (i < List.length l)%nat ->
  List.length (firstn i l ++ skipn (S i) l) = (List.length l - 1)%nat.
Proof.
  intros Hi. rewrite length_app, length_firstn, length_skipn. lia.
Qed.

(** Cutting a concatenation at a position inside its first part. *)
Lemma cut_left {A} (l1 l2 : list A) (i : nat) :
  (i < List.length l1)%nat ->
  firstn i (l1 ++ l2) = firstn i l1
  /\ skipn (S i) (l1 ++ l2) = skipn (S i) l1 ++ l2.
Proof.
  intros Hi. rewrite firstn_app, skipn_app.
  replace (i - List.length l1)%nat with 0%nat by lia.
  replace (S i - List.length l1)%nat with 0%nat by lia.
  simpl. rewrite app_nil_r. split; reflexivity.
Qed.

(** Cutting a concatenation at a position inside its second part. *)
Lemma cut_right {A} (l1 l2 : list A) (k : nat) :
  (List.length l1 <= k)%nat ->
  firstn k (l1 ++ l2) = l1 ++ firstn (k - List.length l1) l2
  /\ skipn (S k) (l1 ++ l2) = skipn (S (k - List.length l1)) l2.
Proof.
  intros Hk. rewrite firstn_app, skipn_app.
  rewrite firstn_all2 by exact Hk. rewrite skipn_all2 by lia.
  replace (S k - List.length l1)%nat with (S (k - List.length l1)) by lia.
  split; reflexivity.
Qed.

(** X2.  An assignment [c[key] = val] that returns is read back by
    [c[key]], keeps [len(c)], and at a key that is not negative replaces
    the item at that position of the iteration and no other. *)
Theorem setitem_then_getitem (c c1 : Circuit) (key : Z) (val : Operation) :
  __setitem__ c key val = Ok c1 ->
  __getitem__ c1 key = Ok val
  /\ __len__ c1 = __len__ c
  /\ ((0 <= key)%Z ->
      __iter__ c1
      = firstn (Z.to_nat key) (__iter__ c)
        ++ val :: skipn (S (Z.to_nat key)) (__iter__ c)).
Proof.
  unfold __setitem__, __getitem__, __len__, __iter__.
  destruct (key <? len (_definitions c))%Z eqn:Hlt.
  - destruct val as [d | cls g | text]; try discriminate.
    unfold assign.
    destruct (normalize_index (len (_definitions c)) key) as [i |] eqn:Hn;
      [| discriminate].
    cbn [bind].
    set (ds := firstn i (_definitions c) ++ d :: skipn (S i) (_definitions c)).
    intros H.
    assert (E : c1 = {| _definitions := ds; _operations := _operations c |})
      by congruence.
    subst c1. cbn [_definitions _operations].
    destruct (normalize_some _ _ _ Hn) as [Hi Hpos]. unfold len in Hi.
    assert (Hlen : len ds = len (_definitions c))
      by (unfold len, ds; rewrite length_assigned by lia; reflexivity).
    rewrite Hlen, Hlt. unfold getitem. rewrite Hlen, Hn.
    cbn [of_option]. unfold ds at 1.
    rewrite nth_error_assigned by lia.
    split; [reflexivity |]. split; [reflexivity |].
    intros Hk. rewrite <- (Hpos Hk).
    destruct (cut_left (map OpDefinition (_definitions c)) (_operations c) i)
      as [E1 E2]; [rewrite length_map; lia |].
    rewrite E1, E2. rewrite firstn_map, skipn_map. unfold ds.
    rewrite map_app. cbn [map]. rewrite <- app_assoc. reflexivity.
  - unfold assign.
    destruct (normalize_index (len (_operations c))
                (key - len (_definitions c))) as [i |] eqn:Hn;
      [| discriminate].
    cbn [bind].
    set (ops := firstn i (_operations c) ++ val :: skipn (S i) (_operations c)).
    intros H.
    assert (E : c1 = {| _definitions := _definitions c; _operations := ops |})
      by congruence.
    subst c1. cbn [_definitions _operations].
    destruct (normalize_some _ _ _ Hn) as [Hi Hpos]. unfold len in Hi.
    assert (Hlen : len ops = len (_operations c))
      by (unfold len, ops; rewrite length_assigned by lia; reflexivity).
    rewrite Hlt. unfold getitem. rewrite Hlen, Hn.
    cbn [of_option]. unfold ops at 1.
    rewrite nth_error_assigned by lia.
    split; [reflexivity |]. split; [reflexivity |].
    apply Z.ltb_ge in Hlt.
    intros Hk. unfold len in *.
    assert (Ei : i = (Z.to_nat key - List.length (_definitions c))%nat)
      by (rewrite Hpos by lia; lia).
    destruct (cut_right (map OpDefinition (_definitions c)) (_operations c)
                (Z.to_nat key)) as [E1 E2]; [rewrite length_map; lia |].
    rewrite E1, E2, length_map, <- Ei. unfold ops.
    rewrite <- app_assoc. reflexivity.
Qed.

(** [c[2] = PragmaStop] on a circuit of two definitions and one
    operation. *)
Lemma setitem_then_getitem_witness :
  exists c1,
    __setitem__ (build samples.interleaved) 2 (OpOther "PragmaStop") = Ok c1
    /\ __getitem__ c1 2 = Ok (OpOther "PragmaStop").
Proof.
  destruct (__setitem__ (build samples.interleaved) 2 (OpOther "PragmaStop"))
    as [c1 | e] eqn:E; [| discriminate E].
  exists c1. split; [reflexivity |].
  apply (setitem_then_getitem (build samples.interleaved) c1 2
           (OpOther "PragmaStop") E).
Defined.

Lemma delitem_iter (c : Circuit) (key : Z) :
  (0 <= key)%Z ->
  if (key <? __len__ c)%Z then
    exists c1,
      __delitem__ c key = Ok c1
      /\ __iter__ c1
         = firstn (Z.to_nat key) (__iter__ c)
           ++ skipn (S (Z.to_nat key)) (__iter__ c)
      /\ __len__ c1 = (__len__ c - 1)%Z
  else __delitem__ c key = Raise IndexError.
Proof.
  intros Hk. unfold __delitem__, __len__, __iter__, delitem, len.
  destruct (key <? Z.of_nat (List.length (_definitions c)))%Z eqn:Hlt.
  - apply Z.ltb_lt in Hlt.
    assert (Hin : (key <? Z.of_nat (List.length (_definitions c))
                          + Z.of_nat (List.length (_operations c)))%Z = true)
      by (apply Z.ltb_lt; lia).
    rewrite Hin. rewrite normalize_nonneg by exact Hk.
    assert (Hlt' : (key <? Z.of_nat (List.length (_definitions c)))%Z = true)
      by (apply Z.ltb_lt; exact Hlt).
    rewrite Hlt'. cbn [bind]. eexists. split; [reflexivity |].
    cbn [_definitions _operations].
    destruct (cut_left (map OpDefinition (_definitions c)) (_operations c)
                (Z.to_nat key)) as [E1 E2]; [rewrite length_map; lia |].
    rewrite E1, E2, firstn_map, skipn_map, map_app, <- app_assoc.
    split; [reflexivity |]. rewrite length_deleted by lia. lia.
  - apply Z.ltb_ge in Hlt. rewrite normalize_nonneg by lia.
    destruct (key <? Z.of_nat (List.length (_definitions c))
                     + Z.of_nat (List.length (_operations c)))%Z eqn:Hin.
    + apply Z.ltb_lt in Hin.
      assert (Hop : (key - Z.of_nat (List.length (_definitions c))
                     <? Z.of_nat (List.length (_operations c)))%Z = true)
        by (apply Z.ltb_lt; lia).
      rewrite Hop. cbn [bind]. eexists. split; [reflexivity |].
      cbn [_definitions _operations].
      destruct (cut_right (map OpDefinition (_definitions c)) (_operations c)
                  (Z.to_nat key)) as [E1 E2]; [rewrite length_map; lia |].
      rewrite E1, E2, length_map, <- app_assoc.
      replace (Z.to_nat key - List.length (_definitions c))%nat
        with (Z.to_nat (key - Z.of_nat (List.length (_definitions c))))
        by lia.
      split; [reflexivity |]. rewrite length_deleted by lia. lia.
    + apply Z.ltb_ge in Hin.
      assert (Hop : (key - Z.of_nat (List.length (_definitions c))
                     <? Z.of_nat (List.length (_operations c)))%Z = false)
        by (apply Z.ltb_ge; lia).
      rewrite Hop. reflexivity.
Qed.

(** X3.  [del c[key]] at a position of the iteration removes the item at
    that position and nothing else; at a key past the end it raises
    [IndexError]. *)
Theorem delitem_removes_one (c : Circuit) (key : Z) :
  (0 <= key)%Z ->
  if (key <? __len__ c)%Z then
    exists c1,
      __delitem__ c key = Ok c1
      /\ __iter__ c1
         = firstn (Z.to_nat key) (__iter__ c)
           ++ skipn (S (Z.to_nat key)) (__iter__ c)
      /\ __len__ c1 = (__len__ c - 1)%Z
  else __delitem__ c key = Raise IndexError.
Proof. apply delitem_iter. Qed.

Lemma delitem_removes_one_witness :
  exists c1,
    __delitem__ (build samples.interleaved) 1 = Ok c1
    /\ __len__ c1 = (__len__ (build samples.interleaved) - 1)%Z.
Proof.
  destruct (delitem_removes_one (build samples.interleaved) 1 ltac:(lia))
    as (c1 & Hdel & _ & Hlen).
  exists c1. split; [exact Hdel | exact Hlen].
Defined.

(** X4.  Appending an operation that is not a [Definition] and deleting
    the item at [len(c) - 1], as [DoUnitary.__call__] does around the
    measurement with its [PragmaParameterSubstitution], gives the circuit
    back. *)
Theorem append_then_delete_last (c : Circuit) (op : Operation) :
  isinstance_Definition op = false ->
  __delitem__ (__iadd__ c op) (__len__ (__iadd__ c op) - 1) = Ok c.
Proof.
  intros Hop.
  assert (Happ : __iadd__ c op
                 = {| _definitions := _definitions c;
                      _operations := _operations c ++ [op] |})
    by (destruct op; [discriminate | reflexivity | reflexivity]).
  rewrite Happ. unfold __delitem__, __len__, delitem, len.
  cbn [_definitions _operations]. rewrite length_app. cbn [List.length].
  assert (Hlt : (Z.of_nat (List.length (_definitions c))
                 + Z.of_nat (List.length (_operations c) + 1) - 1
                 <? Z.of_nat (List.length (_definitions c)))%Z = false)
    by (apply Z.ltb_ge; lia).
  rewrite Hlt. rewrite normalize_nonneg by lia.
  assert (Hin : (Z.of_nat (List.length (_definitions c))
                 + Z.of_nat (List.length (_operations c) + 1) - 1
                 - Z.of_nat (List.length (_definitions c))
                 <? Z.of_nat (List.length (_operations c) + 1))%Z = true)
    by (apply Z.ltb_lt; lia).
  rewrite Hin. cbn [bind].
  replace (Z.to_nat (Z.of_nat (List.length (_definitions c))
                     + Z.of_nat (List.length (_operations c) + 1) - 1
                     - Z.of_nat (List.length (_definitions c))))
    with (List.length (_operations c)) by lia.
  rewrite firstn_app, firstn_all, Nat.sub_diag. cbn [firstn].
  rewrite skipn_all2 by (rewrite length_app; cbn [List.length]; lia).
  rewrite !app_nil_r. destruct c; reflexivity.
Qed.

Lemma append_then_delete_last_witness :
  __delitem__
    (__iadd__ (build samples.interleaved)
       (OpOther "PragmaParameterSubstitution"))
    (__len__ (__iadd__ (build samples.interleaved)
                (OpOther "PragmaParameterSubstitution")) - 1)
  = Ok (build samples.interleaved).
Proof.
  apply (append_then_delete_last (build samples.interleaved)
           (OpOther "PragmaParameterSubstitution") Logic.eq_refl).
Defined.


Lemma range3_up (a b : Z) :
  range3 a b 1
  = Ok (map (fun i => (a + Z.of_nat i)%Z) (seq 0 (Z.to_nat (b - a)))).
Proof.
  unfold range3. cbn [Z.eqb Z.ltb Z.compare].
  replace ((b - a + 1 - 1) / 1)%Z with (b - a)%Z
    by (rewrite Z.div_1_r; lia).
  f_equal. apply map_ext. intros i. lia.
Qed.

Lemma range3_down (a b : Z) :
  range3 (b - 1) (a - 1) (-1)
  = Ok (map (fun i => (b - 1 - Z.of_nat i)%Z) (seq 0 (Z.to_nat (b - a)))).
Proof.
  unfold range3. cbn [Z.eqb Z.ltb Z.compare Z.opp].
  replace ((b - 1 - (a - 1) - -1 - 1) / 1)%Z with (b - a)%Z
    by (rewrite Z.div_1_r; lia).
  f_equal. apply map_ext. intros i. lia.
Qed.

(** Items read at keys that are positions of the iteration. *)
Lemma getitems_iter (c : Circuit) (d : Operation) (keys : list Z) :
  (forall key, In key keys -> (0 <= key < __len__ c)%Z) ->
  getitems c keys
  = Ok (map (fun key => nth (Z.to_nat key) (__iter__ c) d) keys).
Proof.
  induction keys as [| key keys IH]; intros Hin; [reflexivity |].
  cbn [getitems map].
  assert (Hk : (0 <= key < __len__ c)%Z) by (apply Hin; left; reflexivity).
  rewrite getitem_iter by lia.
  rewrite iter_length in Hk. unfold len in Hk.
  rewrite (nth_error_nth' (__iter__ c) d) by lia.
  cbn [of_option bind].
  rewrite IH by (intros k Hk'; apply Hin; right; exact Hk').
  reflexivity.
Qed.

(** A run of consecutive positions of a list. *)
Lemma segment_nth {A} (l : list A) (d : A) (a n : nat) :
  (a + n <= List.length l)%nat ->
  map (fun i => nth (a + i) l d) (seq 0 n) = firstn n (skipn a l).
Proof.
  intros Hn. apply (nth_ext _ _ d d).
  - rewrite length_map, length_seq, length_firstn, length_skipn. lia.
  - intros i Hi. rewrite length_map, length_seq in Hi.
    rewrite nth_firstn.
    assert (Hlt : (i <? n)%nat = true) by (apply Nat.ltb_lt; exact Hi).
    rewrite Hlt, nth_skipn.
    rewrite (nth_indep _ d (nth (a + 0) l d))
      by (rewrite length_map, length_seq; exact Hi).
    rewrite (map_nth (fun i => nth (a + i) l d) (seq 0 n) 0%nat i).
    rewrite seq_nth by exact Hi. reflexivity.
Qed.

(** The positions of a list read from the last to the first. *)
Lemma reversed_nth {A} (l : list A) (d : A) :
  map (fun i => nth (List.length l - 1 - i) l d) (seq 0 (List.length l))
  = rev l.
Proof.
  apply (nth_ext _ _ d d).
  - rewrite length_map, length_seq, length_rev. reflexivity.
  - intros i Hi. rewrite length_map, length_seq in Hi.
    rewrite rev_nth by exact Hi.
    rewrite (nth_indep _ d (nth (List.length l - 1 - 0) l d))
      by (rewrite length_map, length_seq; exact Hi).
    rewrite (map_nth (fun i => nth (List.length l - 1 - i) l d)
               (seq 0 (List.length l)) 0%nat i).
    rewrite seq_nth by exact Hi. f_equal. lia.
Qed.

(** X5.  Slices read the iteration: [c[:]] is the whole of it, [c[::-1]]
    is it reversed, and [c[a:b]] with [0 <= a] and [b <= len(c)] is its
    items from position [a] up to position [b]. *)
Theorem slices_follow_iteration (c : Circuit) (a b : Z) :
  (0 <= a)%Z -> (b <= __len__ c)%Z ->
  __getitem__slice c {| start := Some a; stop := Some b; step := None |}
  = Ok (firstn (Z.to_nat (b - a)) (skipn (Z.to_nat a) (__iter__ c)))
  /\ __getitem__slice c {| start := None; stop := None; step := None |}
     = Ok (__iter__ c)
  /\ __getitem__slice c {| start := None; stop := None; step := Some (-1)%Z |}
     = Ok (rev (__iter__ c)).
Proof.
  intros Ha Hb.
  assert (Hseg : forall a b : Z,
             (0 <= a)%Z -> (b <= __len__ c)%Z ->
             bind (range3 a b 1) (getitems c)
             = Ok (firstn (Z.to_nat (b - a))
                     (skipn (Z.to_nat a) (__iter__ c)))).
  { clear a b Ha Hb. intros a b Ha Hb. rewrite range3_up. cbn [bind].
    destruct (Z.to_nat (b - a)) as [| n] eqn:En; [reflexivity |].
    rewrite <- En.
    assert (Hlen : (Z.to_nat a + Z.to_nat (b - a)
                    <= List.length (__iter__ c))%nat)
      by (rewrite iter_length in Hb; unfold len in Hb; lia).
    destruct (__iter__ c) as [| d l] eqn:El; [cbn in Hlen; lia |].
    rewrite <- El in *.
    rewrite (getitems_iter c d).
    - rewrite map_map. f_equal.
      rewrite <- (segment_nth (__iter__ c) d) by exact Hlen.
      apply map_ext. intros i. f_equal. lia.
    - intros key Hin. apply in_map_iff in Hin.
      destruct Hin as (i & <- & Hi). apply in_seq in Hi. lia. }
  split; [| split].
  - unfold __getitem__slice. cbn [step start stop Z.ltb Z.compare].
    apply Hseg; assumption.
  - unfold __getitem__slice. cbn [step start stop Z.ltb Z.compare].
    rewrite Hseg by (pose proof (iter_length c); unfold len in *; lia).
    rewrite iter_length. unfold len.
    replace (Z.to_nat (Z.of_nat (List.length (__iter__ c)) - 0))
      with (List.length (__iter__ c)) by lia.
    cbn [Z.to_nat skipn]. rewrite firstn_all. reflexivity.
  - unfold __getitem__slice. cbn [step start stop Z.ltb Z.compare].
    replace (-1)%Z with (0 - 1)%Z at 1 by reflexivity.
    rewrite range3_down. cbn [bind].
    destruct (__iter__ c) as [| d l] eqn:El.
    + rewrite iter_length, El. reflexivity.
    + rewrite <- El. rewrite (getitems_iter c d).
      * rewrite map_map. f_equal.
        rewrite <- (reversed_nth (__iter__ c) d).
        rewrite iter_length. unfold len.
        replace (Z.to_nat (Z.of_nat (List.length (__iter__ c)) - 0))
          with (List.length (__iter__ c)) by lia.
        apply map_ext_in. intros i Hi. apply in_seq in Hi. f_equal. lia.
      * intros key Hin. apply in_map_iff in Hin.
        destruct Hin as (i & <- & Hi). apply in_seq in Hi. lia.
Qed.

Lemma slices_follow_iteration_witness :
  __getitem__slice (build samples.interleaved)
    {| start := Some 1%Z; stop := Some 3%Z; step := None |}
  = Ok (firstn (Z.to_nat (3 - 1))
          (skipn (Z.to_nat 1) (__iter__ (build samples.interleaved)))).
Proof.
  apply (proj1 (slices_follow_iteration (build samples.interleaved) 1 3
                  ltac:(lia) ltac:(vm_compute; discriminate))).
Defined.


Lemma every_second_O {A} (l : list A) : every_second 0 l = l.
Proof. destruct l; reflexivity. Qed.

(** Deleting at [a], [a + 1], ... one after the other: each deletion
    moves the items behind it one position down, so the next one skips an
    item. *)
Lemma delitems_rising (n : nat) : forall (c : Circuit) (a : nat),
  (a + 2 * n <= S (List.length (__iter__ c)))%nat ->
  exists c1,
    delitems c (map (fun i => (Z.of_nat a + Z.of_nat i)%Z) (seq 0 n))
    = (c1, Ok tt)
    /\ __iter__ c1
       = firstn a (__iter__ c) ++ every_second n (skipn a (__iter__ c)).
Proof.
  induction n as [| n IH]; intros c a Hlen.
  - exists c. split; [reflexivity |].
    rewrite every_second_O, firstn_skipn. reflexivity.
  - cbn [seq map delitems]. rewrite <- seq_shift, map_map.
    pose proof (delitem_iter c (Z.of_nat a + Z.of_nat 0) ltac:(lia)) as Hdel.
    assert (Hin : (Z.of_nat a + Z.of_nat 0 <? __len__ c)%Z = true)
      by (apply Z.ltb_lt; rewrite iter_length; unfold len; lia).
    rewrite Hin in Hdel. destruct Hdel as (c1 & Hdel & Hiter & Hlen1).
    rewrite Hdel.
    replace (Z.to_nat (Z.of_nat a + Z.of_nat 0)) with a in Hiter by lia.
    destruct (IH c1 (S a)) as (c2 & Hrun & Hiter2).
    { rewrite !iter_length in Hlen1. unfold len in Hlen1. lia. }
    exists c2. split.
    + rewrite <- Hrun. f_equal. apply map_ext. intros i. lia.
    + rewrite Hiter2, Hiter.
      pose proof (firstn_skipn a (__iter__ c)) as Hsplit.
      assert (Hp : List.length (firstn a (__iter__ c)) = a)
        by (rewrite length_firstn; lia).
      replace (skipn (S a) (__iter__ c))
        with (skipn 1 (skipn a (__iter__ c)))
        by (rewrite skipn_skipn; reflexivity).
      assert (Hs : List.length (skipn a (__iter__ c))
                   = (List.length (__iter__ c) - a)%nat)
        by apply length_skipn.
      destruct (skipn a (__iter__ c)) as [| x [| y rest]].
      * cbn [List.length] in Hs. lia.
      * change (skipn 1 [x]) with (@nil Operation). rewrite app_nil_r.
        rewrite firstn_all2 by lia. rewrite skipn_all2 by lia.
        destruct n; [reflexivity |]. cbn [List.length] in Hs. lia.
      * change (skipn 1 (x :: y :: rest)) with (y :: rest).
        cbn [every_second].
        rewrite firstn_app, skipn_app, Hp.
        rewrite firstn_all2 by lia. rewrite skipn_all2 by lia.
        replace (S a - a)%nat with 1%nat by lia.
        change (firstn 1 (y :: rest)) with [y].
        change (skipn 1 (y :: rest)) with rest.
        cbn [app]. rewrite <- app_assoc. reflexivity.
Qed.

(** X6.  [del c[a:b]] deletes at the keys [a], [a + 1], ..., [b - 1] one
    after the other, each on the circuit the deletions before left: of the
    items from position [a] on, the first of every two goes, [b - a]
    times, so the item that was at [a + 1] stays. *)
Theorem rising_slice_deletes_every_second (c : Circuit) (a b : Z) :
  (0 <= a <= b)%Z ->
  (2 * b - a - 1 <= __len__ c)%Z ->
  exists c1,
    __delitem__slice c {| start := Some a; stop := Some b; step := None |}
    = (c1, Ok tt)
    /\ __iter__ c1
       = firstn (Z.to_nat a) (__iter__ c)
         ++ every_second (Z.to_nat (b - a)) (skipn (Z.to_nat a) (__iter__ c))
    /\ ((a < b)%Z ->
        nth_error (__iter__ c1) (Z.to_nat a)
        = nth_error (__iter__ c) (S (Z.to_nat a))).
Proof.
  intros Hab Hlen. unfold __delitem__slice. cbn [start stop step].
  rewrite range3_up.
  destruct (delitems_rising (Z.to_nat (b - a)) c (Z.to_nat a))
    as (c1 & Hrun & Hiter).
  { rewrite iter_length in Hlen. unfold len in Hlen. lia. }
  exists c1. split; [| split].
  - rewrite <- Hrun. f_equal. apply map_ext. intros i. lia.
  - exact Hiter.
  - intros Hlt. rewrite Hiter.
    assert (Hp : List.length (firstn (Z.to_nat a) (__iter__ c)) = Z.to_nat a).
    { rewrite length_firstn. rewrite iter_length in Hlen.
      unfold len in Hlen. lia. }
    rewrite nth_error_app2 by lia. rewrite Hp, Nat.sub_diag.
    rewrite <- (firstn_skipn (Z.to_nat a) (__iter__ c)) at 2.
    rewrite nth_error_app2 by lia. rewrite Hp.
    replace (S (Z.to_nat a) - Z.to_nat a)%nat with 1%nat by lia.
    destruct (Z.to_nat (b - a)) as [| n] eqn:En; [lia |].
    destruct (skipn (Z.to_nat a) (__iter__ c)) as [| x [| y rest]];
      reflexivity.
Qed.

(** [del c[0:1]] on a circuit of three items. *)
Lemma rising_slice_deletes_every_second_witness :
  exists c1,
    __delitem__slice (build samples.interleaved)
      {| start := Some 0%Z; stop := Some 1%Z; step := None |}
    = (c1, Ok tt)
    /\ nth_error (__iter__ c1) 0
       = nth_error (__iter__ (build samples.interleaved)) 1.
Proof.
  destruct (rising_slice_deletes_every_second (build samples.interleaved) 0 1)
    as (c1 & Hrun & _ & Hnth).
  - lia.
  - vm_compute. discriminate.
  - exists c1. split; [exact Hrun |]. apply Hnth. lia.
Defined.

(** Deleting at [b - 1], [b - 2], ... one after the other: no deletion
    moves an item that is still to go. *)
Lemma delitems_falling (n : nat) : forall (c : Circuit) (b : nat),
  (n <= b <= List.length (__iter__ c))%nat ->
  exists c1,
    delitems c (map (fun i => (Z.of_nat b - 1 - Z.of_nat i)%Z) (seq 0 n))
    = (c1, Ok tt)
    /\ __iter__ c1 = firstn (b - n) (__iter__ c) ++ skipn b (__iter__ c).
Proof.
  induction n as [| n IH]; intros c b Hb.
  - exists c. split; [reflexivity |].
    rewrite Nat.sub_0_r, firstn_skipn. reflexivity.
  - cbn [seq map delitems]. rewrite <- seq_shift, map_map.
    pose proof (delitem_iter c (Z.of_nat b - 1 - Z.of_nat 0) ltac:(lia))
      as Hdel.
    assert (Hin : (Z.of_nat b - 1 - Z.of_nat 0 <? __len__ c)%Z = true)
      by (apply Z.ltb_lt; rewrite iter_length; unfold len; lia).
    rewrite Hin in Hdel. destruct Hdel as (c1 & Hdel & Hiter & Hlen1).
    rewrite Hdel.
    replace (Z.to_nat (Z.of_nat b - 1 - Z.of_nat 0)) with (b - 1)%nat
      in Hiter by lia.
    replace (S (b - 1)) with b in Hiter by lia.
    destruct (IH c1 (b - 1)%nat) as (c2 & Hrun & Hiter2).
    { rewrite !iter_length in Hlen1. unfold len in Hlen1. lia. }
    exists c2. split.
    + rewrite <- Hrun. f_equal. apply map_ext. intros i. lia.
    + rewrite Hiter2, Hiter.
      assert (Hp : List.length (firstn (b - 1) (__iter__ c)) = (b - 1)%nat)
        by (rewrite length_firstn; lia).
      rewrite firstn_app, skipn_app, Hp, firstn_firstn.
      replace (b - 1 - n - (b - 1))%nat with 0%nat by lia.
      rewrite Nat.sub_diag. cbn [firstn skipn]. rewrite app_nil_r.
      rewrite skipn_all2 by lia. cbn [app].
      f_equal. f_equal. lia.
Qed.

(** X7.  [del c[b-1:a-1:-1]] with [0 <= a <= b <= len(c)] deletes at the
    keys [b - 1] down to [a]: exactly the items from position [a] up to
    position [b] go. *)
Theorem falling_slice_deletes_segment (c : Circuit) (a b : Z) :
  (0 <= a <= b)%Z ->
  (b <= __len__ c)%Z ->
  exists c1,
    __delitem__slice c
      {| start := Some (b - 1)%Z; stop := Some (a - 1)%Z;
         step := Some (-1)%Z |}
    = (c1, Ok tt)
    /\ __iter__ c1
       = firstn (Z.to_nat a) (__iter__ c) ++ skipn (Z.to_nat b) (__iter__ c).
Proof.
  intros Hab Hlen. unfold __delitem__slice. cbn [start stop step].
  rewrite range3_down.
  destruct (delitems_falling (Z.to_nat (b - a)) c (Z.to_nat b))
    as (c1 & Hrun & Hiter).
  { rewrite iter_length in Hlen. unfold len in Hlen. lia. }
  exists c1. split.
  - rewrite <- Hrun. f_equal. apply map_ext. intros i. lia.
  - rewrite Hiter. f_equal. f_equal. lia.
Qed.

(** [del c[2:0:-1]] on a circuit of three items. *)
Lemma falling_slice_deletes_segment_witness :
  exists c1,
    __delitem__slice (build samples.interleaved)
      {| start := Some (3 - 1)%Z; stop := Some (1 - 1)%Z;
         step := Some (-1)%Z |}
    = (c1, Ok tt)
    /\ __iter__ c1
       = firstn (Z.to_nat 1) (__iter__ (build samples.interleaved))
         ++ skipn (Z.to_nat 3) (__iter__ (build samples.interleaved)).
Proof.
  apply (falling_slice_deletes_segment (build samples.interleaved) 1 3).
  - lia.
  - vm_compute. discriminate.
Defined.


Lemma counting_loop {A} (p : A -> bool) (l : list A) (n : Z) :
  fold_left (fun n x => if p x then (n + 1)%Z else n) l n
  = (n + len (filter p l))%Z.
Proof.
  revert n. unfold len. induction l as [| x l IH]; intros n;
    cbn [fold_left filter].
  - cbn. lia.
  - rewrite IH. destruct (p x); cbn [List.length]; lia.
Qed.

Lemma filter_all {A} (l : list A) : filter (fun _ => true) l = l.
Proof.
  induction l as [| x l IH]; cbn [filter]; [| rewrite IH]; reflexivity.
Qed.

Lemma counted_definitions (p : Operation -> bool) (ds : list DefinitionOp) :
  List.length (filter p (map OpDefinition ds))
  = List.length (filter (fun dop => p (OpDefinition dop)) ds).
Proof.
  induction ds as [| d ds IH]; [reflexivity |].
  cbn [map filter]. destruct (p (OpDefinition d)); cbn [List.length];
    rewrite IH; reflexivity.
Qed.

Lemma count_iter (c : Circuit) (l : list (Operation -> bool)) :
  count_occurences c (Some l)
  = len (filter (fun op => existsb (fun counted_ops => counted_ops op) l)
           (__iter__ c)).
Proof.
  unfold count_occurences.
  rewrite (counting_loop
             (fun op => existsb (fun t : Operation -> bool => t op) l)).
  rewrite (counting_loop
             (fun dop =>
                existsb (fun t : Operation -> bool => t (OpDefinition dop)) l)).
  unfold __iter__, len. rewrite filter_app, length_app.
  rewrite (counted_definitions
             (fun op => existsb (fun t : Operation -> bool => t op) l)).
  lia.
Qed.

(** X24.  [c.count_occurences(types)] is the number of the items of the
    iteration over [c], definitions included, that are an instance of one
    of the types; it lies between 0 and [len(c)], and with the default
    argument it is [len(c)]. *)
Theorem count_follows_iteration (c : Circuit)
  (operations_list : list (Operation -> bool)) :
  count_occurences c (Some operations_list)
  = len (filter (fun op => existsb (fun counted_ops => counted_ops op)
                             operations_list) (__iter__ c))
  /\ (0 <= count_occurences c (Some operations_list) <= __len__ c)%Z
  /\ count_occurences c None = __len__ c.
Proof.
  split; [apply count_iter |]. split.
  - rewrite count_iter, iter_length. unfold len.
    pose proof (filter_length_le
                  (fun op => existsb (fun t : Operation -> bool => t op)
                               operations_list) (__iter__ c)).
    lia.
  - change (count_occurences c None)
      with (count_occurences c (Some [fun _ : Operation => true])).
    rewrite count_iter, iter_length. f_equal. apply filter_all.
Qed.


End circuit_laws.

(** ** Circuits under [+=] and [+] *)

Module circuit_addition.

Import define_operations circuit circuit_theory.

(** The definitions a circuit with definitions [A] has after the
    definitions [B] were appended one by one. *)
Lemma append_definitions (B : list DefinitionOp) : forall c : Circuit,
  fold_left (fun c op => _append_operation c (OpDefinition op)) B c
  = {| _definitions :=
         _definitions c
         ++ filter (fun e => negb (contains (_definitions c) e))
              (first_seen B);
       _operations := _operations c |}.
Proof.
  intros c.
  assert (E : fold_left (fun c op => _append_operation c (OpDefinition op)) B c
              = fold_left __iadd__ (map OpDefinition B) c).
  { revert c. induction B as [| d B IH]; intros c; [reflexivity |].
    cbn [fold_left map]. apply IH. }
  rewrite E. destruct (append_all (map OpDefinition B) c) as [Hd Ho].
  assert (Hdefs : definitions_of (map OpDefinition B) = B)
    by (clear; induction B as [| d B IH]; simpl; congruence).
  assert (Hops : filter (fun op => negb (isinstance_Definition op))
                   (map OpDefinition B) = [])
    by (clear; induction B as [| d B IH]; simpl; congruence).
  rewrite Hdefs in Hd. rewrite Hops, app_nil_r in Ho.
  destruct (fold_left __iadd__ (map OpDefinition B) c) as [ds ops].
  simpl in Hd, Ho. subst. reflexivity.
Qed.

Lemma contains_false (l : list DefinitionOp) (d : DefinitionOp) :
  contains l d = false <-> forall e, In e l -> __eq__ e d = false.
Proof.
  unfold contains. split.
  - intros H e He. destruct (__eq__ e d) eqn:E; [| reflexivity].
    assert (Hc : existsb (fun x => __eq__ x d) l = true)
      by (apply existsb_exists; exists e; split; assumption).
    congruence.
  - intros H. destruct (existsb (fun x => __eq__ x d) l) eqn:E;
      [| reflexivity].
    apply existsb_exists in E. destruct E as (e & He & Hed).
    rewrite (H e He) in Hed. discriminate.
Qed.

(** Of a list without two equal definitions, nothing is dropped. *)
Lemma first_seen_distinct (l : list DefinitionOp) :
  distinct l -> first_seen l = l.
Proof.
  induction l as [| d l IH]; intros Hl; [reflexivity |].
  destruct Hl as [Hd Hl]. cbn [first_seen]. rewrite IH by exact Hl.
  f_equal. rewrite <- (filter_true l) at 2. apply filter_ext_in.
  intros e He. rewrite eq_sym.
  rewrite (proj1 (contains_false l d) Hd e He). reflexivity.
Qed.

Lemma distinct_filter (p : DefinitionOp -> bool) (l : list DefinitionOp) :
  distinct l -> distinct (filter p l).
Proof.
  induction l as [| d l IH]; intros Hl; [exact I |].
  destruct Hl as [Hd Hl]. cbn [filter]. destruct (p d).
  - split; [| apply IH; exact Hl].
    apply contains_false. intros e He. apply filter_In in He.
    apply (proj1 (contains_false l d) Hd). tauto.
  - apply IH. exact Hl.
Qed.

Lemma distinct_app (l1 l2 : list DefinitionOp) :
  distinct l1 -> distinct l2 ->
  (forall e, In e l2 -> contains l1 e = false) ->
  distinct (l1 ++ l2).
Proof.
  induction l1 as [| d l1 IH]; intros H1 H2 Hsep; [exact H2 |].
  destruct H1 as [Hd H1]. cbn [app distinct]. split.
  - rewrite contains_app, Hd. cbn [orb].
    apply contains_false. intros e He. rewrite eq_sym.
    specialize (Hsep e He). cbn [contains existsb] in Hsep.
    fold (contains l1 e) in Hsep.
    apply orb_false_elim in Hsep. tauto.
  - apply IH; [exact H1 | exact H2 |].
    intros e He. specialize (Hsep e He). cbn [contains existsb] in Hsep.
    fold (contains l1 e) in Hsep.
    apply orb_false_elim in Hsep. tauto.
Qed.

Lemma first_seen_is_distinct (l : list DefinitionOp) :
  distinct (first_seen l).
Proof.
  induction l as [| d l IH]; [exact I |].
  cbn [first_seen distinct]. split.
  - apply contains_false. intros e He. apply filter_In in He.
    destruct He as [_ He]. rewrite eq_sym.
    destruct (__eq__ d e); [discriminate | reflexivity].
  - apply distinct_filter. exact IH.
Qed.

(** The definitions [A] joined by those of [B] that [A] has not. *)
Lemma joined_distinct (A B : list DefinitionOp) :
  distinct A ->
  distinct (A ++ filter (fun e => negb (contains A e)) (first_seen B)).
Proof.
  intros HA. apply distinct_app.
  - exact HA.
  - apply distinct_filter. apply first_seen_is_distinct.
  - intros e He. apply filter_In in He. destruct He as [_ He].
    destruct (contains A e); [discriminate | reflexivity].
Qed.

Lemma add_to_distinct (c : Circuit) (other : addend) :
  distinct (_definitions c) -> distinct (_definitions (add_to c other)).
Proof.
  intros Hc. destruct other as [o | op | ops |]; cbn [add_to].
  - rewrite append_definitions. cbn [_definitions].
    apply joined_distinct. exact Hc.
  - apply (perform_distinct c (Append op)). exact Hc.
  - change (fold_left _append_operation ops c)
      with (fold_left __iadd__ ops c).
    destruct (append_all ops c) as [Hd _]. rewrite Hd.
    apply joined_distinct. exact Hc.
  - exact Hc.
Qed.

(** X8.  [c += other] keeps a circuit at one definition per value,
    whatever [other] is; with a circuit on the right the operations are
    those of both, in order; [c += c] leaves the definitions as they are
    and doubles the operations; [c += None] changes nothing. *)
Theorem iadd_keeps_one_definition_per_value (c : Circuit) (other : addend) :
  distinct (_definitions c) ->
  distinct (_definitions (__iadd__other c other))
  /\ (forall o : Circuit,
        _operations (__iadd__other c (OfCircuit o))
        = _operations c ++ _operations o)
  /\ __iadd__other c (OfCircuit c)
     = {| _definitions := _definitions c;
          _operations := _operations c ++ _operations c |}
  /\ __iadd__other c OfNone = c.
Proof.
  intros Hc. unfold __iadd__other. split; [| split; [| split]].
  - apply add_to_distinct. exact Hc.
  - intros o. cbn [add_to]. rewrite append_definitions. reflexivity.
  - cbn [add_to]. rewrite append_definitions. cbn [_definitions _operations].
    f_equal. rewrite first_seen_distinct by exact Hc.
    rewrite <- (app_nil_r (_definitions c)) at 3. f_equal.
    assert (Hnone : forall l : list DefinitionOp,
               (forall e, In e l -> contains (_definitions c) e = true) ->
               filter (fun e => negb (contains (_definitions c) e)) l = []).
    { induction l as [| e l IH]; intros Hl; [reflexivity |].
      cbn [filter]. rewrite (Hl e (or_introl Logic.eq_refl)). cbn [negb].
      apply IH. intros e' He'. apply Hl. right. exact He'. }
    apply Hnone. intros e He. unfold contains. apply existsb_exists.
    exists e. split; [exact He | apply eq_refl].
  - reflexivity.
Qed.

Lemma iadd_keeps_one_definition_per_value_witness :
  distinct (_definitions
              (__iadd__other (build samples.interleaved)
                 (OfCircuit (build samples.interleaved)))).
Proof.
  apply (proj1 (iadd_keeps_one_definition_per_value
                  (build samples.interleaved)
                  (OfCircuit (build samples.interleaved))
                  ltac:(simpl; repeat split; reflexivity))).
Defined.

Lemma definitions_of_app (l1 l2 : list Operation) :
  definitions_of (l1 ++ l2) = definitions_of l1 ++ definitions_of l2.
Proof.
  induction l1 as [| [d | cls g | text] l1 IH]; simpl; congruence.
Qed.

Lemma definitions_of_definitions (l : list DefinitionOp) :
  definitions_of (map OpDefinition l) = l.
Proof. induction l as [| d l IH]; simpl; congruence. Qed.

Lemma only_definitions (l : list DefinitionOp) :
  filter (fun op => negb (isinstance_Definition op)) (map OpDefinition l) = [].
Proof. induction l as [| d l IH]; simpl; congruence. Qed.

Lemma no_definitions (ops : list Operation) :
  (forall op, In op ops -> isinstance_Definition op = false) ->
  definitions_of ops = []
  /\ filter (fun op => negb (isinstance_Definition op)) ops = ops.
Proof.
  induction ops as [| op ops IH]; intros H; [split; reflexivity |].
  destruct IH as [IH1 IH2]; [intros o Ho; apply H; right; exact Ho |].
  pose proof (H op (or_introl Logic.eq_refl)) as Hop.
  destruct op as [d | cls g | text]; try discriminate; simpl;
    rewrite IH2; split; [exact IH1 | reflexivity | exact IH1 | reflexivity].
Qed.

(** The circuit [__add__] fills from the iteration over a well-formed
    circuit is that circuit. *)
Lemma refill (a : Circuit) :
  well_formed a -> fold_left _append_operation (__iter__ a) empty = a.
Proof.
  intros [Hd Ho].
  change (fold_left _append_operation (__iter__ a) empty)
    with (build (__iter__ a)).
  pose proof (build_definitions (__iter__ a)) as E1.
  pose proof (build_operations (__iter__ a)) as E2.
  destruct (no_definitions (_operations a) Ho) as [N1 N2].
  unfold __iter__ in E1, E2.
  rewrite definitions_of_app, definitions_of_definitions, N1, app_nil_r,
    first_seen_distinct in E1 by exact Hd.
  rewrite filter_app, N2 in E2.
  rewrite only_definitions in E2. cbn [app] in E2.
  fold (__iter__ a) in E1, E2.
  destruct (build (__iter__ a)) as [ds ops], a as [da oa].
  simpl in *. subst. reflexivity.
Qed.

(** X9.  [a + other] always has one definition per value.  For a
    well-formed [a] (one definition per value, no [Definition] among the
    operations) it is the circuit [a += other] makes of [a]. *)
Theorem add_is_iadd_on_a_copy (a : Circuit) (other : addend) :
  distinct (_definitions (__add__ a other))
  /\ (well_formed a -> __add__ a other = __iadd__other a other).
Proof.
  split.
  - unfold __add__. apply add_to_distinct.
    change (fold_left _append_operation (__iter__ a) empty)
      with (build (__iter__ a)).
    rewrite build_definitions. apply first_seen_is_distinct.
  - intros Ha. unfold __add__, __iadd__other. rewrite refill by exact Ha.
    reflexivity.
Qed.

Lemma add_is_iadd_on_a_copy_witness :
  __add__ (build samples.interleaved) (OfOperation (OpOther "PragmaStop"))
  = __iadd__other (build samples.interleaved)
      (OfOperation (OpOther "PragmaStop")).
Proof.
  apply (proj2 (add_is_iadd_on_a_copy (build samples.interleaved)
                  (OfOperation (OpOther "PragmaStop")))).
  split.
  - simpl. repeat split; reflexivity.
  - intros op [<- | []]. reflexivity.
Defined.

Lemma add_to_circuit (a b : Circuit) :
  distinct (_definitions b) ->
  add_to a (OfCircuit b)
  = {| _definitions :=
         _definitions a
         ++ filter (fun e => negb (contains (_definitions a) e))
              (_definitions b);
       _operations := _operations a ++ _operations b |}.
Proof.
  intros Hb. cbn [add_to]. rewrite append_definitions.
  cbn [_definitions _operations]. rewrite first_seen_distinct by exact Hb.
  reflexivity.
Qed.

Lemma add_to_well_formed (a b : Circuit) :
  well_formed a -> well_formed b -> well_formed (add_to a (OfCircuit b)).
Proof.
  intros [Ha1 Ha2] [Hb1 Hb2]. split.
  - apply add_to_distinct. exact Ha1.
  - rewrite add_to_circuit by exact Hb1. cbn [_operations].
    intros op Hop. apply in_app_or in Hop.
    destruct Hop as [Hop | Hop]; [apply Ha2 | apply Hb2]; exact Hop.
Qed.

(** Membership by value in [A] joined by what [B] adds. *)
Lemma contains_joined (A B : list DefinitionOp) (e : DefinitionOp) :
  contains (A ++ filter (fun x => negb (contains A x)) B) e
  = contains A e || contains B e.
Proof.
  rewrite contains_app. destruct (contains A e) eqn:HA; [reflexivity |].
  cbn [orb]. destruct (contains B e) eqn:HB.
  - unfold contains in HB. apply existsb_exists in HB.
    destruct HB as (x & Hx & Hxe).
    destruct (contains A x) eqn:HAx.
    + rewrite (contains_eq _ _ _ HAx Hxe) in HA. discriminate.
    + unfold contains at 1. apply existsb_exists. exists x.
      split; [| exact Hxe]. apply filter_In. split; [exact Hx |].
      rewrite HAx. reflexivity.
  - apply contains_false. intros x Hx. apply filter_In in Hx.
    apply (proj1 (contains_false B e) HB). tauto.
Qed.

(** X10.  On well-formed circuits [+] is associative and [Circuit()] is
    its unit on both sides; the sum of two well-formed circuits is
    well-formed. *)
Theorem circuits_form_a_monoid (a b c : Circuit) :
  well_formed a -> well_formed b -> well_formed c ->
  __add__ (__add__ a (OfCircuit b)) (OfCircuit c)
  = __add__ a (OfCircuit (__add__ b (OfCircuit c)))
  /\ __add__ a (OfCircuit empty) = a
  /\ __add__ empty (OfCircuit a) = a
  /\ well_formed (__add__ a (OfCircuit b)).
Proof.
  intros Ha Hb Hc.
  assert (Hadd : forall x y, well_formed x -> __add__ x y = add_to x y)
    by (intros x y Hx; unfold __add__; rewrite refill by exact Hx;
        reflexivity).
  pose proof (add_to_well_formed a b Ha Hb) as Hab.
  pose proof (add_to_well_formed b c Hb Hc) as Hbc.
  rewrite (Hadd a (OfCircuit b) Ha).
  rewrite (Hadd b (OfCircuit c) Hb).
  rewrite (Hadd _ (OfCircuit c) Hab).
  rewrite (Hadd a (OfCircuit (add_to b (OfCircuit c))) Ha).
  rewrite (Hadd a (OfCircuit empty) Ha).
  rewrite (Hadd empty (OfCircuit a)) by (split; [exact I | intros op []]).
  destruct Ha as [Ha1 Ha2], Hb as [Hb1 Hb2], Hc as [Hc1 Hc2].
  split; [| split; [| split]].
  - rewrite (add_to_circuit _ c Hc1).
    rewrite (add_to_circuit a _ (proj1 Hbc)).
    rewrite (add_to_circuit a b Hb1), (add_to_circuit b c Hc1).
    cbn [_definitions _operations]. f_equal.
    + rewrite <- app_assoc. f_equal. rewrite filter_app. f_equal.
      rewrite filter_filter. apply filter_ext. intros e.
      rewrite contains_joined, negb_orb. apply andb_comm.
    + rewrite <- app_assoc. reflexivity.
  - rewrite add_to_circuit by exact I. cbn [empty _definitions _operations].
    cbn [filter]. rewrite !app_nil_r. destruct a; reflexivity.
  - rewrite add_to_circuit by exact Ha1.
    cbn [empty _definitions _operations app contains existsb negb].
    rewrite filter_true. destruct a; reflexivity.
  - exact Hab.
Qed.

Lemma circuits_form_a_monoid_witness :
  __add__ (build samples.interleaved) (OfCircuit empty)
  = build samples.interleaved.
Proof.
  assert (H : well_formed (build samples.interleaved)).
  { split.
    - simpl. repeat split; reflexivity.
    - intros op [<- | []]. reflexivity. }
  apply (circuits_form_a_monoid (build samples.interleaved)
           (build samples.interleaved) (build samples.interleaved) H H H).
Defined.


End circuit_addition.

(** ** Gates: construction and remapping *)

Module gate_laws.

Import dict_theory gate_theory.

(** Filling a dictionary from defaults with fresh keys appends one entry
    per default. *)
Lemma fill_parameters (kw : dict string CalculatorFloat)
  (defaults : dict string CalculatorFloat) :
  forall (acc : dict string CalculatorFloat) (flag : bool),
  NoDup (keys acc ++ keys defaults) ->
  fold_left
    (fun (acc : dict string CalculatorFloat * bool)
         (kv : string * CalculatorFloat) =>
       let key := fst kv in
       let v := match get kw key with
                | Some v => v
                | None => snd kv
                end in
       (set (fst acc) key v, if is_float v then snd acc else true))
    defaults (acc, flag)
  = (acc ++ map (fun kv => (fst kv,
                            match get kw (fst kv) with
                            | Some v => v
                            | None => snd kv
                            end)) defaults,
     flag || symbolic (map (fun kv => (fst kv,
                                       match get kw (fst kv) with
                                       | Some v => v
                                       | None => snd kv
                                       end)) defaults)).
Proof.
  induction defaults as [| [k d] defaults IH]; intros acc flag Hnd.
  - cbn. rewrite app_nil_r, orb_false_r. reflexivity.
  - assert (Hk : ~ In k (keys acc)).
    { cbn in Hnd. apply NoDup_remove_2 in Hnd. intros Hin. apply Hnd.
      apply in_or_app. left. exact Hin. }
    cbn [fold_left fst snd]. cbv zeta.
    pose proof (set_app_skip acc [] k
                  match get kw k with Some v => v | None => d end Hk) as E.
    rewrite app_nil_r in E. cbn [set] in E. rewrite E.
    rewrite IH.
    + rewrite <- app_assoc. cbn [map app fst snd]. f_equal.
      unfold symbolic, values. cbn [map existsb snd].
      destruct (is_float match get kw k with Some v => v | None => d end);
        cbn [negb orb]; [reflexivity |].
      rewrite orb_true_r. reflexivity.
    + unfold keys in *. rewrite map_app. cbn [map fst].
      rewrite <- app_assoc. exact Hnd.
Qed.

Lemma fill_qubits (kw : dict string Z) (defaults : dict string Z) :
  forall acc : dict string Z,
  NoDup (keys acc ++ keys defaults) ->
  fold_left
    (fun (acc : dict string Z) (kv : string * Z) =>
       let key := fst kv in
       set acc key (match get kw key with
                    | Some q => q
                    | None => snd kv
                    end))
    defaults acc
  = acc ++ map (fun kv => (fst kv,
                           match get kw (fst kv) with
                           | Some q => q
                           | None => snd kv
                           end)) defaults.
Proof.
  induction defaults as [| [k d] defaults IH]; intros acc Hnd.
  - cbn. rewrite app_nil_r. reflexivity.
  - assert (Hk : ~ In k (keys acc)).
    { cbn in Hnd. apply NoDup_remove_2 in Hnd. intros Hin. apply Hnd.
      apply in_or_app. left. exact Hin. }
    cbn [fold_left fst snd]. cbv zeta.
    pose proof (set_app_skip acc [] k
                  match get kw k with Some q => q | None => d end Hk) as E.
    rewrite app_nil_r in E. cbn [set] in E. rewrite E.
    rewrite IH.
    + rewrite <- app_assoc. reflexivity.
    + unfold keys in *. rewrite map_app. cbn [map fst].
      rewrite <- app_assoc. exact Hnd.
Qed.

(** Looking a key up in a dictionary whose values were chosen entry by
    entry. *)
Lemma get_chosen {V} (choose : string -> V -> V) (d : dict string V)
  (k : string) (v : V) :
  get d k = Some v ->
  get (map (fun kv => (fst kv, choose (fst kv) (snd kv))) d) k
  = Some (choose k v).
Proof.
  induction d as [| [k1 v1] d IH]; cbn; [discriminate |].
  destruct (String.eqb k1 k) eqn:E.
  - apply String.eqb_eq in E. subst k1. intros H. inversion H. reflexivity.
  - exact IH.
Qed.

Lemma keys_chosen_value {V} (f : V -> V) (d : dict string V) :
  keys (map (fun kv => (fst kv, f (snd kv))) d) = keys d.
Proof. unfold keys. rewrite map_map. reflexivity. Qed.

Lemma keys_chosen {V} (f : string * V -> V) (d : dict string V) :
  keys (map (fun kv => (fst kv, f kv)) d) = keys d.
Proof. unfold keys. rewrite map_map. reflexivity. Qed.

(** X11.  What the constructor builds from the class defaults and the
    keyword arguments: a gate with the parameters and the qubit roles of
    the class, each taken from its keyword when given and from the default
    otherwise (other keywords are ignored), a flag that tells whether a
    parameter is symbolic, and the set of its qubits. *)
Theorem constructor_is_sound (cls : GateClass) (qubit_kwargs : dict string Z)
  (parameter_kwargs : dict string CalculatorFloat) :
  NoDup (keys (_ordered_parameter_dict_default cls)) ->
  NoDup (keys (_ordered_qubits_dict_default cls)) ->
  instance_of cls (__init__ cls qubit_kwargs parameter_kwargs)
  /\ is_parametrized (__init__ cls qubit_kwargs parameter_kwargs)
     = symbolic (_ordered_parameter_dict
                   (__init__ cls qubit_kwargs parameter_kwargs))
  /\ (forall k v,
        get (_ordered_parameter_dict_default cls) k = Some v ->
        get (_ordered_parameter_dict
               (__init__ cls qubit_kwargs parameter_kwargs)) k
        = Some (match get parameter_kwargs k with
                | Some w => w
                | None => v
                end))
  /\ (forall k q,
        get (_ordered_qubits_dict_default cls) k = Some q ->
        get (_ordered_qubits_dict
               (__init__ cls qubit_kwargs parameter_kwargs)) k
        = Some (match get qubit_kwargs k with
                | Some w => w
                | None => q
                end)).
Proof.
  intros Hp Hq.
  pose proof (f_equal fst
                (fill_parameters parameter_kwargs
                   (_ordered_parameter_dict_default cls) [] false Hp)) as E1.
  pose proof (f_equal snd
                (fill_parameters parameter_kwargs
                   (_ordered_parameter_dict_default cls) [] false Hp)) as E2.
  pose proof (fill_qubits qubit_kwargs
                (_ordered_qubits_dict_default cls) [] Hq) as E3.
  cbn [fst snd app orb] in E1, E2, E3.
  match type of E1 with
  | _ = ?r =>
      change (_ordered_parameter_dict
                (__init__ cls qubit_kwargs parameter_kwargs) = r) in E1
  end.
  match type of E2 with
  | _ = ?r =>
      change (_parametrized
                (__init__ cls qubit_kwargs parameter_kwargs) = r) in E2
  end.
  match type of E3 with
  | _ = ?r =>
      change (_ordered_qubits_dict
                (__init__ cls qubit_kwargs parameter_kwargs) = r) in E3
  end.
  unfold instance_of, is_parametrized. rewrite E1, E2, E3.
  split; [| split; [| split]].
  - split; [apply keys_chosen |]. split; [apply keys_chosen |].
    rewrite <- E3. reflexivity.
  - reflexivity.
  - intros k v Hk.
    apply (get_chosen
             (fun k v => match get parameter_kwargs k with
                         | Some w => w
                         | None => v
                         end)). exact Hk.
  - intros k q Hk.
    apply (get_chosen
             (fun k q => match get qubit_kwargs k with
                         | Some w => w
                         | None => q
                         end)). exact Hk.
Qed.

(** [RotateX(qubit=0, theta="t")] *)
Lemma constructor_is_sound_witness :
  is_parametrized samples.rotate_x_t
  = symbolic (_ordered_parameter_dict samples.rotate_x_t).
Proof.
  apply (constructor_is_sound (single_qubit.class_of single_qubit.RotateX)
           [("qubit"%string, 0%Z)] [("theta"%string, Str "t")]).
  - simpl. repeat constructor. intros [].
  - simpl. repeat constructor. intros [].
Defined.

Section Substituted.
Context {calc : Calculator}.

Lemma resolve_keys (prefix : string) (d : dict string CalculatorFloat) :
  keys (fst (resolve prefix d)) = keys d.
Proof.
  induction d as [| [k v] d IH]; [reflexivity |].
  cbn [resolve]. destruct v as [x | value].
  - destruct (resolve prefix d) as [rest1 r]. cbn in *. f_equal. exact IH.
  - match goal with
    | |- context [parse_string ?e] => destruct (parse_string e) as [y |]
    end; [| reflexivity].
    destruct (resolve prefix d) as [rest1 r]. cbn in *. f_equal. exact IH.
Qed.

(** When the loop stops at an expression, that expression is still in the
    dictionary. *)
Lemma resolve_raise (prefix : string) (d : dict string CalculatorFloat)
  (e : exception) :
  snd (resolve prefix d) = Raise e ->
  symbolic (fst (resolve prefix d)) = true.
Proof.
  induction d as [| [k v] d IH]; [discriminate |].
  cbn [resolve]. destruct v as [x | value].
  - destruct (resolve prefix d) as [rest1 r]. cbn in *. exact IH.
  - match goal with
    | |- context [parse_string ?e] => destruct (parse_string e) as [y |]
    end; [| reflexivity].
    destruct (resolve prefix d) as [rest1 r]. cbn in *. exact IH.
Qed.

(** X12.  A gate as its constructor builds it, after
    [substitute_parameters]: whether the call returned or raised, the flag
    tells whether a parameter is symbolic and the parameters are those of
    the class; when it returned, every parameter is a literal and the flag
    is clear. *)
Theorem constructed_gate_substitutes (cls : GateClass)
  (qubit_kwargs : dict string Z)
  (parameter_kwargs substitution_dict : dict string CalculatorFloat) :
  NoDup (keys (_ordered_parameter_dict_default cls)) ->
  let g := __init__ cls qubit_kwargs parameter_kwargs in
  let g1 := fst (substitute_parameters g substitution_dict) in
  is_parametrized g1 = symbolic (_ordered_parameter_dict g1)
  /\ keys (_ordered_parameter_dict g1)
     = keys (_ordered_parameter_dict_default cls)
  /\ (snd (substitute_parameters g substitution_dict) = Ok tt ->
      literal (_ordered_parameter_dict g1) = true
      /\ is_parametrized g1 = false).
Proof.
  intros Hp g g1.
  pose proof (f_equal fst
                (fill_parameters parameter_kwargs
                   (_ordered_parameter_dict_default cls) [] false Hp)) as E1.
  pose proof (f_equal snd
                (fill_parameters parameter_kwargs
                   (_ordered_parameter_dict_default cls) [] false Hp)) as E2.
  cbn [fst snd app orb] in E1, E2.
  match type of E1 with
  | _ = ?r => change (_ordered_parameter_dict g = r) in E1
  end.
  match type of E2 with
  | _ = ?r => change (_parametrized g = r) in E2
  end.
  rewrite <- E1 in E2.
  assert (Hkeys : keys (_ordered_parameter_dict g)
                  = keys (_ordered_parameter_dict_default cls))
    by (rewrite E1; apply keys_chosen).
  assert (Hnd : NoDup (keys (_ordered_parameter_dict g)))
    by (rewrite Hkeys; exact Hp).
  subst g1. unfold substitute_parameters, is_parametrized.
  destruct (_parametrized g) eqn:Hflag.
  - pose proof (loop_is_resolve (substitution_string substitution_dict)
                  (_ordered_parameter_dict g) [] Hnd) as Hloop.
    cbn [app] in Hloop. rewrite Hloop.
    pose proof (resolve_keys (substitution_string substitution_dict)
                  (_ordered_parameter_dict g)) as Hk.
    destruct (snd (resolve (substitution_string substitution_dict)
                     (_ordered_parameter_dict g))) as [[] | e] eqn:Hr;
      cbn [fst snd _ordered_parameter_dict _parametrized].
    + destruct (resolve_ok _ _ Hr) as [Hl _].
      split; [rewrite symbolic_not_literal, Hl; reflexivity |].
      split; [rewrite Hk; exact Hkeys |].
      intros _. split; [exact Hl | reflexivity].
    + split; [rewrite (resolve_raise _ _ _ Hr); reflexivity |].
      split; [rewrite Hk; exact Hkeys |]. discriminate.
  - cbn [fst snd]. split; [rewrite Hflag; exact E2 |].
    split; [exact Hkeys |]. intros _. split; [| exact Hflag].
    rewrite symbolic_not_literal in E2.
    destruct (literal (_ordered_parameter_dict g));
      [reflexivity | discriminate].
Qed.

End Substituted.

(** [RotateX(qubit=0, theta="t").substitute_parameters({'t': 1.0})] *)
Lemma constructed_gate_substitutes_witness :
  literal (_ordered_parameter_dict
             (fst (@substitute_parameters samples.one_binding
                     samples.rotate_x_t samples.t_is_one))) = true.
Proof.
  apply (@constructed_gate_substitutes samples.one_binding
           (single_qubit.class_of single_qubit.RotateX)
           [("qubit"%string, 0%Z)] [("theta"%string, Str "t")]
           samples.t_is_one).
  - simpl. repeat constructor. intros [].
  - reflexivity.
Defined.

(** With one entry per key, the loop over the items is [remapped]. *)
Lemma loop_is_remapped (m : dict Z Z) (post : dict string Z) :
  forall pre : dict string Z,
  NoDup (keys (pre ++ post)) ->
  remap_loop m post (pre ++ post)
  = (pre ++ fst (remapped m post), snd (remapped m post)).
Proof.
  induction post as [| [k v] post IH]; intros pre Hnd.
  - reflexivity.
  - assert (Hk : ~ In k (keys pre)).
    { unfold keys in *. rewrite map_app in Hnd. cbn in Hnd.
      apply NoDup_remove_2 in Hnd. intros Hin. apply Hnd.
      apply in_or_app. left. exact Hin. }
    cbn [remap_loop remapped].
    destruct (get m v) as [q |]; [| reflexivity].
    rewrite (set_app_skip pre ((k, v) :: post) k q Hk).
    cbn [set keqb string_key]. rewrite String.eqb_refl.
    assert (Hnd' : NoDup (keys ((pre ++ [(k, q)]) ++ post))).
    { unfold keys in *. rewrite <- app_assoc. cbn.
      rewrite map_app in *. cbn in *. exact Hnd. }
    specialize (IH (pre ++ [(k, q)]) Hnd').
    rewrite <- app_assoc in IH. cbn [app] in IH. rewrite IH.
    destruct (remapped m post) as [rest1 r]. cbn [fst snd].
    rewrite <- app_assoc. reflexivity.
Qed.

Lemma remapped_all (m : dict Z Z) (f : Z -> Z) (d : dict string Z) :
  (forall q, In q (values d) -> get m q = Some (f q)) ->
  remapped m d = (map (fun kv => (fst kv, f (snd kv))) d, Ok tt).
Proof.
  induction d as [| [k v] d IH]; intros H; [reflexivity |].
  cbn [remapped]. rewrite (H v (or_introl Logic.eq_refl)).
  rewrite IH by (intros q Hq; apply H; right; exact Hq).
  reflexivity.
Qed.

Lemma remapped_missing (m : dict Z Z) (d : dict string Z) :
  (exists q, In q (values d) /\ get m q = None) ->
  snd (remapped m d) = Raise KeyError.
Proof.
  induction d as [| [k v] d IH]; intros (q & Hq & Hm); [destruct Hq |].
  cbn [remapped]. destruct (get m v) as [q1 |] eqn:Hv; [| reflexivity].
  destruct (remapped m d) as [rest1 r] eqn:Hr. cbn [snd] in *.
  apply IH. exists q. split; [| exact Hm].
  destruct Hq as [Hq | Hq]; [| exact Hq].
  cbn in Hq. subst v. congruence.
Qed.

(** X13.  [remap_qubits] with a mapping that has every qubit of the gate
    replaces each qubit by its image, role by role, sets the qubit set to
    the set of the images and leaves parameters and flag alone.  With a
    qubit missing from the mapping it raises [KeyError] and the qubit set
    is the one from before the call. *)
Theorem remap_qubits_maps_every_qubit (g : GateOperation) (m : dict Z Z)
  (f : Z -> Z) :
  NoDup (keys (_ordered_qubits_dict g)) ->
  ((forall q, In q (values (_ordered_qubits_dict g)) ->
      get m q = Some (f q)) ->
   remap_qubits g m
   = ({| _ordered_qubits_dict :=
           map (fun kv => (fst kv, f (snd kv))) (_ordered_qubits_dict g);
         _ordered_parameter_dict := _ordered_parameter_dict g;
         _parametrized := _parametrized g;
         _involved_qubits :=
           set_of (map f (values (_ordered_qubits_dict g))) |}, Ok tt))
  /\ ((exists q, In q (values (_ordered_qubits_dict g)) /\ get m q = None) ->
      snd (remap_qubits g m) = Raise KeyError
      /\ _involved_qubits (fst (remap_qubits g m)) = _involved_qubits g
      /\ _ordered_parameter_dict (fst (remap_qubits g m))
         = _ordered_parameter_dict g).
Proof.
  intros Hnd.
  pose proof (loop_is_remapped m (_ordered_qubits_dict g) [] Hnd) as Hloop.
  cbn [app] in Hloop. unfold remap_qubits. rewrite Hloop. split.
  - intros Hall. rewrite (remapped_all m f _ Hall). cbn [fst snd].
    do 2 f_equal. unfold values. rewrite !map_map. reflexivity.
  - intros Hmiss. rewrite (remapped_missing m _ Hmiss).
    repeat split; reflexivity.
Qed.

(** [RotateX(qubit=0, theta=3).remap_qubits({0: 2})] *)
Lemma remap_qubits_maps_every_qubit_witness :
  _ordered_qubits_dict (fst (remap_qubits samples.rotate_x_3 [(0, 2)]%Z))
  = [("qubit"%string, 2%Z)].
Proof.
  rewrite (proj1 (remap_qubits_maps_every_qubit samples.rotate_x_3
                    [(0, 2)]%Z (fun _ => 2%Z)
                    ltac:(simpl; repeat constructor; intros []))).
  - reflexivity.
  - intros q [<- | []]. reflexivity.
Defined.

(** X14.  Remapping with a mapping and then with one that sends every
    image back gives the qubit dictionary back, and the qubit set of a
    gate of its class. *)
Theorem remap_there_and_back (cls : GateClass) (g : GateOperation)
  (m back : dict Z Z) (f : Z -> Z) :
  instance_of cls g ->
  NoDup (keys (_ordered_qubits_dict g)) ->
  (forall q, In q (values (_ordered_qubits_dict g)) ->
     get m q = Some (f q) /\ get back (f q) = Some q) ->
  snd (remap_qubits g m) = Ok tt
  /\ remap_qubits (fst (remap_qubits g m)) back = (g, Ok tt).
Proof.
  intros (_ & _ & Hinv) Hnd Hall.
  destruct (remap_qubits_maps_every_qubit g m f Hnd) as [Hthere _].
  rewrite Hthere by (intros q Hq; apply Hall; exact Hq).
  cbn [fst snd]. split; [reflexivity |].
  set (g1 := {| _ordered_qubits_dict :=
                  map (fun kv => (fst kv, f (snd kv))) (_ordered_qubits_dict g);
                _ordered_parameter_dict := _ordered_parameter_dict g;
                _parametrized := _parametrized g;
                _involved_qubits :=
                  set_of (map f (values (_ordered_qubits_dict g))) |}).
  assert (Hnd1 : NoDup (keys (_ordered_qubits_dict g1)))
    by (cbn [g1 _ordered_qubits_dict]; rewrite keys_chosen_value; exact Hnd).
  pose proof (loop_is_remapped back (_ordered_qubits_dict g1) [] Hnd1)
    as Hloop.
  cbn [app] in Hloop. unfold remap_qubits. rewrite Hloop.
  assert (Hback : remapped back (_ordered_qubits_dict g1)
                  = (_ordered_qubits_dict g, Ok tt)).
  { cbn [g1 _ordered_qubits_dict]. clear - Hall.
    induction (_ordered_qubits_dict g) as [| [k v] d IH]; [reflexivity |].
    cbn [map remapped fst snd].
    destruct (Hall v (or_introl Logic.eq_refl)) as [_ Hb]. rewrite Hb.
    rewrite IH by (intros q Hq; apply Hall; right; exact Hq).
    reflexivity. }
  rewrite Hback. cbn [fst snd g1 _ordered_parameter_dict _parametrized].
  rewrite <- Hinv. destruct g; reflexivity.
Qed.

(** [RotateX(qubit=0, theta=3)] remapped with [{0: 2}] and back with
    [{2: 0}]. *)
Lemma remap_there_and_back_witness :
  remap_qubits (fst (remap_qubits samples.rotate_x_3 [(0, 2)]%Z)) [(2, 0)]%Z
  = (samples.rotate_x_3, Ok tt).
Proof.
  apply (remap_there_and_back (single_qubit.class_of single_qubit.RotateX)
           samples.rotate_x_3 [(0, 2)]%Z [(2, 0)]%Z (fun _ => 2%Z)).
  - repeat split; reflexivity.
  - simpl. repeat constructor. intros [].
  - intros q [<- | []]. split; reflexivity.
Defined.


End gate_laws.

(** ** Unitary matrices: self-inverse classes, rotations, periods *)

Module unitary_laws.

Import single_qubit single_qubit_theory.

Local Open Scope R_scope.

(** Two matrices are equal when their entries are, part by part. *)
Ltac entrywise :=
  repeat match goal with
         | |- @Ok _ _ = @Ok _ _ => apply f_equal
         | |- @cons _ _ _ = @cons _ _ _ => apply f_equal2
         | |- mkC _ _ = mkC _ _ => apply f_equal2
         | |- @nil _ = @nil _ => reflexivity
         end.

Ltac multiply :=
  unfold matmul, identity, dagger, scale, dot, column, Cexp_i, Cmul, Cadd,
    Csub, Copp, Cconj, RtoC, C0, C1, Ci;
  simpl.

(** X15.  Every class that sets [_is_self_inverse] has a matrix whose
    square is the identity: [PauliX], [PauliY] and [PauliZ] on one qubit,
    [CNOT], [SWAP], [ControlledPauliY] and [ControlledPauliZ] on two. *)
Theorem self_inverse_classes_square_to_one :
  (forall (v : single_qubit.variant)
          (parameters : dict string CalculatorFloat) (M : matrix),
     single_qubit._is_self_inverse v = true ->
     single_qubit.matrix_from_parameters v parameters = Ok M ->
     matmul M M = identity 2)
  /\ (forall (v : two_qubit_unitaries.variant)
             (parameters : dict string CalculatorFloat) (M : matrix),
        two_qubit_unitaries._is_self_inverse v = true ->
        two_qubit_unitaries.matrix_from_parameters v parameters = Ok M ->
        matmul M M = identity 4).
Proof.
  split; intros v parameters M Hflag HM;
    destruct v; try discriminate Hflag;
    simpl in HM; inversion HM; subst M; clear HM;
    multiply; entrywise; ring.
Qed.

Lemma self_inverse_classes_square_to_one_witness :
  exists M,
    two_qubit_unitaries.matrix_from_parameters two_qubit_unitaries.CNOT []
    = Ok M
    /\ matmul M M = identity 4.
Proof.
  eexists. split; [reflexivity |].
  apply (proj2 self_inverse_classes_square_to_one
           two_qubit_unitaries.CNOT [] _ Logic.eq_refl Logic.eq_refl).
Defined.

Lemma half_sum (a b : R) : (a + b) / 2 = a / 2 + b / 2.
Proof. lra. Qed.

(** Two rotations about one axis of norm one. *)
Lemma axis_rotations_add_up (a b vx vy vz : R) :
  vx * vx + vy * vy + vz * vz = 1 ->
  matmul
    (single_qubit.axis_rotation (Rtrigo_def.cos a) (Rtrigo_def.sin a) vx vy vz)
    (single_qubit.axis_rotation (Rtrigo_def.cos b) (Rtrigo_def.sin b) vx vy vz)
  = single_qubit.axis_rotation (Rtrigo_def.cos (a + b))
      (Rtrigo_def.sin (a + b)) vx vy vz.
Proof.
  intros Hv.
  pose proof (f_equal (Rmult (Rtrigo_def.sin a * Rtrigo_def.sin b)) Hv) as Hs.
  unfold single_qubit.axis_rotation. multiply.
  rewrite cos_plus, sin_plus. entrywise; try ring; nra.
Qed.

Lemma spherical_axis (theta phi : R) :
  Rtrigo_def.sin theta * Rtrigo_def.cos phi
  * (Rtrigo_def.sin theta * Rtrigo_def.cos phi)
  + Rtrigo_def.sin theta * Rtrigo_def.sin phi
    * (Rtrigo_def.sin theta * Rtrigo_def.sin phi)
  + Rtrigo_def.cos theta * Rtrigo_def.cos theta = 1.
Proof.
  replace (Rtrigo_def.sin theta * Rtrigo_def.cos phi
           * (Rtrigo_def.sin theta * Rtrigo_def.cos phi)
           + Rtrigo_def.sin theta * Rtrigo_def.sin phi
             * (Rtrigo_def.sin theta * Rtrigo_def.sin phi)
           + Rtrigo_def.cos theta * Rtrigo_def.cos theta)
    with (Rtrigo_def.sin theta * Rtrigo_def.sin theta
          * (Rtrigo_def.cos phi * Rtrigo_def.cos phi
             + Rtrigo_def.sin phi * Rtrigo_def.sin phi)
          + Rtrigo_def.cos theta * Rtrigo_def.cos theta) by ring.
  rewrite unit_circle, Rmult_1_r, Rplus_comm. apply unit_circle.
Qed.

(** X16.  Rotations add up, up to floating-point rounding.  Over the
    real numbers, which stand here for the doubles of the program: for
    every class that lists [theta] as its rotation strength (and has one
    angle), the matrix at [a] times the matrix at [b], the other
    parameters equal, is the matrix at [a + b]. *)
Theorem rotations_add_up (a b : R) (rest : dict string CalculatorFloat) :
  (forall (v : single_qubit.variant) (Ma Mb : matrix),
     single_qubit.rotation_strength v = Some ["theta"%string] ->
     single_qubit.matrix_from_parameters v (("theta"%string, Float a) :: rest)
     = Ok Ma ->
     single_qubit.matrix_from_parameters v (("theta"%string, Float b) :: rest)
     = Ok Mb ->
     single_qubit.matrix_from_parameters v
       (("theta"%string, Float (a + b)) :: rest)
     = Ok (matmul Ma Mb))
  /\ (forall (v : two_qubit_unitaries.variant) (Ma Mb : matrix),
        two_qubit_unitaries._rotation_strength_parameters v
        = Some ["theta"%string] ->
        two_qubit_unitaries.matrix_from_parameters v
          (("theta"%string, Float a) :: rest) = Ok Ma ->
        two_qubit_unitaries.matrix_from_parameters v
          (("theta"%string, Float b) :: rest) = Ok Mb ->
        two_qubit_unitaries.matrix_from_parameters v
          (("theta"%string, Float (a + b)) :: rest)
        = Ok (matmul Ma Mb)).
Proof.
  split; intros v Ma Mb Hv HMa HMb; destruct v; try discriminate Hv;
    unfold single_qubit.matrix_from_parameters,
      two_qubit_unitaries.matrix_from_parameters, single_qubit.keyword
      in *;
    cbn [get keqb string_key String.eqb Ascii.eqb Bool.eqb bind] in *.
  all: repeat match type of HMa with
              | context [get ?d ?k] =>
                  destruct (get d k) as [[? | ?] |];
                  cbn [bind] in HMa, HMb |- *; try discriminate HMa
              end.
  all: inversion HMa; subst Ma; clear HMa;
    inversion HMb; subst Mb; clear HMb.
  all: rewrite ?half_sum.
  all: try (f_equal; symmetry; apply axis_rotations_add_up;
            first [apply spherical_axis
                  | rewrite Rmult_0_l, Rplus_0_r; apply unit_circle]).
  all: unfold single_qubit.x_rotation.
  all: multiply; rewrite ?cos_plus, ?sin_plus; entrywise; ring.
Qed.

Lemma rotations_add_up_witness :
  exists Ma Mb,
    single_qubit.matrix_from_parameters single_qubit.RotateX
      [("theta"%string, Float 1)] = Ok Ma
    /\ single_qubit.matrix_from_parameters single_qubit.RotateX
         [("theta"%string, Float 2)] = Ok Mb
    /\ single_qubit.matrix_from_parameters single_qubit.RotateX
         [("theta"%string, Float (1 + 2))] = Ok (matmul Ma Mb).
Proof.
  do 2 eexists. split; [reflexivity |]. split; [reflexivity |].
  apply (proj1 (rotations_add_up 1 2 []) single_qubit.RotateX _ _
           Logic.eq_refl Logic.eq_refl Logic.eq_refl).
Defined.


Lemma cos_full_turn (x : R) : Rtrigo_def.cos (x + 2 * PI) = Rtrigo_def.cos x.
Proof. rewrite cos_plus, cos_2PI, sin_2PI. ring. Qed.

Lemma sin_full_turn (x : R) : Rtrigo_def.sin (x + 2 * PI) = Rtrigo_def.sin x.
Proof. rewrite sin_plus, cos_2PI, sin_2PI. ring. Qed.

(** X17.  The period a class declares in [_rotation_strength_modulo] is a
    period of its matrix, up to floating-point rounding.  Over the real
    numbers, which stand here for the doubles of the program: with [theta]
    moved by the period, the other parameters equal,
    [unitary_matrix_from_parameters] returns the same matrix.  The
    classes are [RotateX], [RotateY], [RotateZ],
    [RotateAroundSphericalAxis], [W], [VariableMSXX] and [XY] with
    [4 * pi], [ControlledPhaseShift] and [PMInteraction] with [2 * pi]. *)
Theorem declared_periods_are_periods (theta period : R)
  (rest : dict string CalculatorFloat) :
  (forall v : single_qubit.variant,
     get (single_qubit._rotation_strength_modulo v) "theta"%string
     = Some period ->
     single_qubit.matrix_from_parameters v
       (("theta"%string, Float (theta + period)) :: rest)
     = single_qubit.matrix_from_parameters v
         (("theta"%string, Float theta) :: rest))
  /\ (forall v : two_qubit_unitaries.variant,
        get (two_qubit_unitaries._rotation_strength_modulo v) "theta"%string
        = Some period ->
        two_qubit_unitaries.matrix_from_parameters v
          (("theta"%string, Float (theta + period)) :: rest)
        = two_qubit_unitaries.matrix_from_parameters v
            (("theta"%string, Float theta) :: rest)).
Proof.
  split; intros v Hperiod; destruct v; try discriminate Hperiod;
    cbn in Hperiod; inversion Hperiod; subst period; clear Hperiod;
    unfold single_qubit.matrix_from_parameters,
      two_qubit_unitaries.matrix_from_parameters, single_qubit.keyword;
    cbn [get keqb string_key String.eqb Ascii.eqb Bool.eqb bind].
  all: try replace ((theta + 4 * PI) / 2) with (theta / 2 + 2 * PI) by lra.
  all: unfold Cexp_i.
  all: rewrite ?cos_full_turn, ?sin_full_turn; reflexivity.
Qed.

Lemma declared_periods_are_periods_witness :
  single_qubit.matrix_from_parameters single_qubit.RotateZ
    [("theta"%string, Float (1 + 4 * PI))]
  = single_qubit.matrix_from_parameters single_qubit.RotateZ
      [("theta"%string, Float 1)].
Proof.
  apply (proj1 (declared_periods_are_periods 1 (4 * PI) [])
           single_qubit.RotateZ Logic.eq_refl).
Defined.


Section Unitarity.
Context {calc : Calculator}.

(** The five scalars of a literal gate of a class with fixed or angle
    parameters have norm one. *)
Lemma norm_of_class (v : variant) (g : GateOperation) (ar ai br bi : R) :
  v <> SingleQubitGate ->
  instance_of (class_of v) g ->
  literal (_ordered_parameter_dict g) = true ->
  alpha_r v g = Ok (Float ar) -> alpha_i v g = Ok (Float ai) ->
  beta_r v g = Ok (Float br) -> beta_i v g = Ok (Float bi) ->
  ar * ar + ai * ai + br * br + bi * bi = 1.
Proof.
  intros Hv (Hp & Hq & Hi) Hl.
  destruct g as [qs ps flag inv]. simpl in *.
  destruct v; try congruence; simpl in Hp; shape ps Hp; literals Hl;
    unfold alpha_r, alpha_i, beta_r, beta_i, half_angle, parameter, item;
    simpl; intros H1 H2 H3 H4;
    inversion H1; inversion H2; inversion H3; inversion H4; subst;
    clear H1 H2 H3 H4.
  all: try lra.
  all: try (unfold Rdiv; rewrite inv_sqrt2; pose proof sqrt2_sqrt2; nra).
  all: try match goal with
           | |- context [Rtrigo_def.sin (?t / 2) * Rtrigo_def.sin ?p
                         * Rtrigo_def.sin ?th] =>
               pose proof (f_equal
                             (Rmult (Rtrigo_def.sin (t / 2)
                                     * Rtrigo_def.sin (t / 2)))
                             (spherical_axis th p));
               pose proof (unit_circle (t / 2)); nra
           | |- context [Rtrigo_def.sin (?t / 2) * Rtrigo_def.sin ?p] =>
               pose proof (f_equal
                             (Rmult (Rtrigo_def.sin (t / 2)
                                     * Rtrigo_def.sin (t / 2)))
                             (unit_circle p));
               pose proof (unit_circle (t / 2)); nra
           end.
  all: match goal with
       | |- context [Rtrigo_def.cos ?t] => pose proof (unit_circle t); nra
       end.
Qed.

(** A matrix of the general form with scalars of norm one is unitary. *)
Lemma general_form_is_unitary (ar ai br bi ph : R) :
  ar * ar + ai * ai + br * br + bi * bi = 1 ->
  matmul (general_form ar ai br bi ph) (dagger (general_form ar ai br bi ph))
  = identity 2.
Proof.
  intros Hn. pose proof (unit_circle ph) as Hc.
  unfold general_form. multiply. entrywise; try ring.
  all: transitivity
         ((Rtrigo_def.cos ph * Rtrigo_def.cos ph
           + Rtrigo_def.sin ph * Rtrigo_def.sin ph)
          * (ar * ar + ai * ai + br * br + bi * bi));
    [ring | rewrite Hc, Hn; ring].
Qed.

Lemma scalars_are_normalised (v : variant) (g : GateOperation)
  (ar ai br bi : R) :
  (v = SingleQubitGate -> normalised (_ordered_parameter_dict g)) ->
  instance_of (class_of v) g ->
  literal (_ordered_parameter_dict g) = true ->
  alpha_r v g = Ok (Float ar) -> alpha_i v g = Ok (Float ai) ->
  beta_r v g = Ok (Float br) -> beta_i v g = Ok (Float bi) ->
  ar * ar + ai * ai + br * br + bi * bi = 1.
Proof.
  intros Hn Hinst Hl Har Hai Hbr Hbi.
  destruct (isinstance_SingleQubitGate v) eqn:Hv.
  - destruct v; try discriminate Hv.
    destruct (Hn Logic.eq_refl) as (x & y & z & w & Hx & Hy & Hz & Hw & H).
    unfold alpha_r, alpha_i, beta_r, beta_i, parameter, item in *.
    rewrite Hx in Har. rewrite Hy in Hai. rewrite Hz in Hbr.
    rewrite Hw in Hbi. cbn in Har, Hai, Hbr, Hbi.
    inversion Har; inversion Hai; inversion Hbr; inversion Hbi; subst.
    exact H.
  - apply (norm_of_class v g); try assumption.
    intros E. subst v. discriminate Hv.
Qed.

Lemma instance_is_unitary (v : variant) (g : GateOperation)
  (M : matrix) :
  instance_of (class_of v) g ->
  literal (_ordered_parameter_dict g) = true ->
  (v = SingleQubitGate -> normalised (_ordered_parameter_dict g)) ->
  unitary_matrix (class_of v) g = Ok M ->
  matmul M (dagger M) = identity 2.
Proof.
  intros Hinst Hl Hn HM.
  destruct (normal_form v g Hinst Hl)
    as (q & ar & ai & br & bi & ph & _ & _ & Har & Hai & Hbr & Hbi & _ & HMg).
  unfold unitary_matrix in HM. destruct (is_parametrized g); [discriminate |].
  cbn [class_of unitary_matrix_from_parameters] in HM.
  rewrite HMg in HM. inversion HM; subst M.
  apply general_form_is_unitary.
  apply (scalars_are_normalised v g); assumption.
Qed.

Lemma product_shape (va vb : variant) (A B P : GateOperation) :
  instance_of (class_of va) A ->
  instance_of (class_of vb) B ->
  literal (_ordered_parameter_dict A) = true ->
  literal (_ordered_parameter_dict B) = true ->
  (va = SingleQubitGate -> normalised (_ordered_parameter_dict A)) ->
  (vb = SingleQubitGate -> normalised (_ordered_parameter_dict B)) ->
  __mul__ va A vb B = Ok P ->
  normalised (_ordered_parameter_dict P)
  /\ instance_of (class_of SingleQubitGate) P
  /\ literal (_ordered_parameter_dict P) = true
  /\ is_parametrized P = false.
Proof.
  intros HA HB HlA HlB HnA HnB.
  destruct (normal_form va A HA HlA)
    as (qa & ar & ai & br & bi & ph & HqA & _ & Har & Hai & Hbr & Hbi & Hph
        & _).
  destruct (normal_form vb B HB HlB)
    as (qb & ar' & ai' & br' & bi' & ph' & HqB & _ & Har' & Hai' & Hbr'
        & Hbi' & Hph' & _).
  pose proof (scalars_are_normalised va A ar ai br bi HnA HA HlA
                Har Hai Hbr Hbi) as NA.
  pose proof (scalars_are_normalised vb B ar' ai' br' bi' HnB HB HlB
                Har' Hai' Hbr' Hbi') as NB.
  destruct (single_qubit_gate_parameters va A qa ar ai br bi ph HqA HA
              Har Hai Hbr Hbi Hph)
    as (s & Hs & Hsar & Hsai & Hsbr & Hsbi & Hsph).
  destruct (single_qubit_gate_parameters vb B qb ar' ai' br' bi' ph' HqB HB
              Har' Hai' Hbr' Hbi' Hph')
    as (o & Ho & Hoar & Hoai & Hobr & Hobi & Hoph).
  unfold __mul__.
  destruct (set_eqb (_involved_qubits A) (_involved_qubits B));
    [| discriminate].
  rewrite Ho, Hs. simpl. unfold product_parameters.
  rewrite Hsar, Hsai, Hsbr, Hsbi, Hsph, Hoar, Hoai, Hobr, Hobi, Hoph. simpl.
  rewrite HqA. simpl. intros HP. inversion HP; subst P; clear HP.
  split; [| split; [| split]].
  - do 4 eexists. repeat (split; [reflexivity |]).
    transitivity ((ar * ar + ai * ai + br * br + bi * bi)
                  * (ar' * ar' + ai' * ai' + br' * br' + bi' * bi'));
      [ring | rewrite NA, NB; ring].
  - repeat split; reflexivity.
  - reflexivity.
  - reflexivity.
Qed.
(** X18.  The unitary matrix of a literal gate is unitary, up to
    floating-point rounding.  Over the real numbers, which stand here for
    the doubles of the program, [M M^dagger] is the identity: for each of
    the thirteen classes with fixed or angle parameters always, for a
    [SingleQubitGate] when its four scalars have norm one. *)
Theorem single_qubit_matrices_are_unitary (v : variant) (g : GateOperation)
  (M : matrix) :
  instance_of (class_of v) g ->
  literal (_ordered_parameter_dict g) = true ->
  (v = SingleQubitGate -> normalised (_ordered_parameter_dict g)) ->
  unitary_matrix (class_of v) g = Ok M ->
  matmul M (dagger M) = identity 2.
Proof. apply instance_is_unitary. Qed.

(** X19.  The product [A * B] of two literal gates with scalars of norm
    one (as every gate of the thirteen classes has them) is a literal
    [SingleQubitGate] with a clear flag; up to floating-point rounding its
    scalars have norm one and its matrix is unitary.  Norm and unitarity
    are over the real numbers, which stand here for the doubles of the
    program. *)
Theorem products_are_normalised (va vb : variant) (A B P : GateOperation) :
  instance_of (class_of va) A ->
  instance_of (class_of vb) B ->
  literal (_ordered_parameter_dict A) = true ->
  literal (_ordered_parameter_dict B) = true ->
  (va = SingleQubitGate -> normalised (_ordered_parameter_dict A)) ->
  (vb = SingleQubitGate -> normalised (_ordered_parameter_dict B)) ->
  __mul__ va A vb B = Ok P ->
  normalised (_ordered_parameter_dict P)
  /\ instance_of (class_of SingleQubitGate) P
  /\ literal (_ordered_parameter_dict P) = true
  /\ is_parametrized P = false
  /\ exists M,
       unitary_matrix (class_of SingleQubitGate) P = Ok M
       /\ matmul M (dagger M) = identity 2.
Proof.
  intros HA HB HlA HlB HnA HnB HP.
  destruct (product_shape va vb A B P HA HB HlA HlB HnA HnB HP)
    as (Hn & Hi & Hl & Hf).
  repeat (split; [assumption |]).
  destruct (normal_form SingleQubitGate P Hi Hl)
    as (q & ar & ai & br & bi & ph & _ & _ & _ & _ & _ & _ & _ & HM).
  exists (general_form ar ai br bi ph). split.
  - unfold unitary_matrix. rewrite Hf. exact HM.
  - apply (instance_is_unitary SingleQubitGate P); try assumption.
    + intros _. exact Hn.
    + unfold unitary_matrix. rewrite Hf. exact HM.
Qed.

End Unitarity.

(** [Hadamard(qubit=0)] *)
Lemma single_qubit_matrices_are_unitary_witness :
  exists M,
    unitary_matrix (class_of Hadamard) samples.hadamard_0 = Ok M
    /\ matmul M (dagger M) = identity 2.
Proof.
  eexists. split; [reflexivity |].
  apply (@single_qubit_matrices_are_unitary samples.one_binding Hadamard
           samples.hadamard_0).
  - repeat split; reflexivity.
  - reflexivity.
  - discriminate.
  - reflexivity.
Defined.

(** [Hadamard(qubit=0) * RotateX(qubit=0, theta=3)] *)
Lemma products_are_normalised_witness :
  exists P,
    @__mul__ samples.one_binding Hadamard samples.hadamard_0
      RotateX samples.rotate_x_3 = Ok P
    /\ normalised (_ordered_parameter_dict P).
Proof.
  eexists. split; [reflexivity |].
  apply (@products_are_normalised samples.one_binding Hadamard RotateX
           samples.hadamard_0 samples.rotate_x_3).
  - repeat split; reflexivity.
  - repeat split; reflexivity.
  - reflexivity.
  - reflexivity.
  - discriminate.
  - discriminate.
  - reflexivity.
Defined.


(** X20.  Whatever matrix [unitary_matrix_from_parameters] of a two-qubit
    class returns is unitary, up to floating-point rounding: over the real
    numbers, which stand here for the doubles of the program, [M M^dagger]
    is the identity.  This for [CNOT], [ISwap], [FSwap], [SqrtISwap],
    [InvSqrtISwap], [MolmerSorensenXX], [SWAP], [ControlledPauliY],
    [ControlledPauliZ], [VariableMSXX], [ControlledPhaseShift],
    [PMInteraction] and [XY]. *)
Theorem two_qubit_matrices_are_unitary (v : two_qubit_unitaries.variant)
  (parameters : dict string CalculatorFloat) (M : matrix) :
  two_qubit_unitaries.matrix_from_parameters v parameters = Ok M ->
  matmul M (dagger M) = identity 4.
Proof.
  intros HM. destruct v;
    unfold two_qubit_unitaries.matrix_from_parameters, single_qubit.keyword
      in HM.
  all: repeat match type of HM with
              | context [get ?d ?k] =>
                  destruct (get d k) as [[? | ?] |];
                  cbn [bind] in HM; try discriminate HM
              end.
  all: inversion HM; subst M; clear HM.
  all: multiply; entrywise; try ring.
  all: try (unfold Rdiv; rewrite ?inv_sqrt2; pose proof sqrt2_sqrt2; nra).
  all: match goal with
       | |- context [Rtrigo_def.cos ?t] => pose proof (unit_circle t); nra
       end.
Qed.

(** [XY(theta=1)] *)
Lemma two_qubit_matrices_are_unitary_witness :
  exists M,
    two_qubit_unitaries.matrix_from_parameters two_qubit_unitaries.XY
      [("theta"%string, Float 1)] = Ok M
    /\ matmul M (dagger M) = identity 4.
Proof.
  eexists. split; [reflexivity |].
  apply (two_qubit_matrices_are_unitary two_qubit_unitaries.XY
           [("theta"%string, Float 1)] _ Logic.eq_refl).
Defined.


Section Products.
Context {calc : Calculator}.

(** What [product_parameters] returns has the five entries in order. *)
Lemma product_parameters_shape (s o : GateOperation)
  (d : dict string CalculatorFloat) :
  product_parameters s o = Ok d ->
  exists a b c e f,
    d = [("alpha_r", a); ("alpha_i", b); ("beta_r", c); ("beta_i", e);
         ("global_phase", f)]%string.
Proof.
  unfold product_parameters.
  repeat match goal with
         | |- context [bind ?x _] =>
             destruct x; cbn [bind]; [| discriminate]
         end.
  intros H. inversion H. do 5 eexists. reflexivity.
Qed.

(** X21.  On a [SingleQubitGate], [self *= other] and [self * other] raise
    together (a [ValueError] when the two gates involve different qubits)
    or return together, and then with the same parameters, the same
    qubits and the same qubit set; the flag of the product comes from its
    parameters, the flag of [self] after [*=] is the one it had. *)
Theorem imul_computes_the_product (self other : GateOperation)
  (vo : variant) :
  instance_of (class_of SingleQubitGate) self ->
  match __mul__ SingleQubitGate self vo other, __imul__ self vo other with
  | Ok P, Ok Q =>
      _ordered_parameter_dict P = _ordered_parameter_dict Q
      /\ _ordered_qubits_dict P = _ordered_qubits_dict Q
      /\ _involved_qubits P = _involved_qubits Q
      /\ is_parametrized P = symbolic (_ordered_parameter_dict P)
      /\ is_parametrized Q = is_parametrized self
  | Raise e1, Raise e2 =>
      e1 = e2
      /\ (set_eqb (_involved_qubits self) (_involved_qubits other) = false ->
          e1 = ValueError)
  | _, _ => False
  end.
Proof.
  intros (Hp & Hq & Hi). unfold __mul__, __imul__.
  destruct (set_eqb (_involved_qubits self) (_involved_qubits other));
    [| split; reflexivity].
  destruct (single_qubit_gate vo other) as [o | e]; cbn [bind];
    [| split; [reflexivity | discriminate]].
  cbn [single_qubit_gate isinstance_SingleQubitGate bind].
  destruct (product_parameters self o) as [d | e] eqn:Hd; cbn [bind];
    [| split; [reflexivity | discriminate]].
  destruct (product_parameters_shape self o d Hd)
    as (a & b & c & e & f & ->).
  destruct self as [qs ps flag inv]. cbn in Hp, Hq, Hi |- *.
  destruct qs as [| [k q] [| ? ?]]; cbn in Hq; try discriminate.
  injection Hq as Hq. subst k. cbn.
  shape ps Hp. cbn.
  unfold is_parametrized, symbolic, values. cbn.
  repeat split; try reflexivity.
  destruct a, b, c, e, f; reflexivity.
Qed.

End Products.

(** [SingleQubitGate(qubit=0)] times [RotateX(qubit=0, theta=3)] *)
Lemma imul_computes_the_product_witness :
  exists P Q,
    @__mul__ samples.one_binding SingleQubitGate samples.identity_gate
      RotateX samples.rotate_x_3 = Ok P
    /\ @__imul__ samples.one_binding samples.identity_gate
         RotateX samples.rotate_x_3 = Ok Q
    /\ _ordered_parameter_dict P = _ordered_parameter_dict Q.
Proof.
  do 2 eexists. split; [reflexivity |]. split; [reflexivity |].
  exact (proj1 (@imul_computes_the_product samples.one_binding
                  samples.identity_gate samples.rotate_x_3 RotateX
                  ltac:(repeat split; reflexivity))).
Defined.


End unitary_laws.

(** ** Registers *)

Module register_laws.

Import define_operations registers dict_theory.

(** X22.  [add_register] by the type of the definition: for [bit],
    [float] and [complex] the register dictionary gets a register of
    [length] zeros of the type under the name, and the output dictionary an
    empty output register when the definition is an output and nothing
    otherwise; a [complex] definition with a length below zero raises
    [ValueError] (the other two give an empty register); for every other
    type, [int] among them, both dictionaries stay as they are. *)
Theorem add_register_goes_by_type (register_dict : dict string Register)
  (output_dict : dict string RegisterOutput) (definition : DefinitionOp) :
  add_register register_dict output_dict definition
  = match zero_of (_vartype definition) with
    | Some zero =>
        if String.eqb (_vartype definition) "complex"
           && (_length definition <? 0)%Z
        then Raise ValueError
        else
          Ok (set register_dict (_name definition)
                {| vartype := _vartype definition;
                   name := _name definition;
                   length := _length definition;
                   is_output := _is_output definition;
                   register := filled zero (_length definition) |},
              if _is_output definition
              then set output_dict (_name definition)
                     {| output_name := _name definition;
                        output_vartype := _vartype definition;
                        output_length := _length definition;
                        output_register := [] |}
              else output_dict)
    | None => Ok (register_dict, output_dict)
    end.
Proof.
  destruct definition as [n vt l i o].
  unfold add_register, add_typed, zero_of, BitRegister, FloatRegister,
    ComplexRegister, TypedRegisterOutput.
  cbn [_vartype _name _length _is_output].
  destruct (String.eqb_spec vt "bit") as [-> | Hbit].
  - cbn. destruct o; reflexivity.
  - destruct (String.eqb_spec vt "float") as [-> | Hfloat].
    + cbn. destruct o; reflexivity.
    + destruct (String.eqb_spec vt "complex") as [-> | Hcomplex].
      * cbn. destruct (l <? 0)%Z; [reflexivity |]. destruct o; reflexivity.
      * reflexivity.
Qed.

Lemma append_compatible (o : RegisterOutput) (r : Register) :
  compatible o r = true ->
  append o r
  = Ok {| output_name := output_name o;
          output_vartype := output_vartype o;
          output_length := output_length o;
          output_register := output_register o ++ [Row (register r)] |}.
Proof. intros H. unfold append. rewrite H. reflexivity. Qed.

Lemma append_times_rows (r : Register) (n : nat) :
  forall o : RegisterOutput,
  compatible o r = true ->
  rows_of (List.length (register r)) o ->
  exists o1,
    append_times n o r = Ok o1
    /\ size o1 = (size o + Z.of_nat n)%Z
    /\ rows_of (List.length (register r)) o1.
Proof.
  induction n as [| n IH]; intros o Hc Hrows.
  - exists o. split; [reflexivity |]. split; [lia | exact Hrows].
  - cbn [append_times]. rewrite append_compatible by exact Hc. cbn [bind].
    destruct (IH {| output_name := output_name o;
                    output_vartype := output_vartype o;
                    output_length := output_length o;
                    output_register :=
                      output_register o ++ [Row (register r)] |})
      as (o1 & Hrun & Hsize & Hrows1).
    + exact Hc.
    + intros i Hi. cbn [output_register] in Hi. apply in_app_or in Hi.
      destruct Hi as [Hi | [<- | []]]; [apply Hrows; exact Hi |].
      eexists. split; reflexivity.
    + exists o1. split; [exact Hrun |]. split; [| exact Hrows1].
      rewrite Hsize. unfold size, len. cbn [output_register].
      rewrite length_app. cbn [List.length]. lia.
Qed.

(** X23.  After [add_register] for an output definition of one of the
    three types, the register and the output register stored under the
    name fit each other: appending the register once per shot never
    raises, and [n] appends give [n] items, each a row of [length]
    values.  [extend] instead adds one item per value. *)
Theorem shots_are_rows (register_dict register_dict1 : dict string Register)
  (output_dict output_dict1 : dict string RegisterOutput)
  (definition : DefinitionOp) :
  _is_output definition = true ->
  zero_of (_vartype definition) <> None ->
  add_register register_dict output_dict definition
  = Ok (register_dict1, output_dict1) ->
  exists r o,
    get register_dict1 (_name definition) = Some r
    /\ get output_dict1 (_name definition) = Some o
    /\ size o = 0%Z
    /\ (forall n, exists o1,
          append_times n o r = Ok o1
          /\ size o1 = Z.of_nat n
          /\ rows_of (Z.to_nat (_length definition)) o1)
    /\ (exists o1,
          extend o r = Ok o1
          /\ size o1 = Z.max 0 (_length definition)).
Proof.
  intros Hout Hzero. rewrite add_register_goes_by_type.
  destruct (zero_of (_vartype definition)) as [zero |]; [| contradiction].
  destruct (String.eqb (_vartype definition) "complex"
            && (_length definition <? 0)%Z); [discriminate |].
  rewrite Hout. intros H. inversion H; subst; clear H.
  do 2 eexists. split; [apply get_set_same |].
  split; [apply get_set_same |]. split; [reflexivity |].
  assert (Hc : compatible
                 {| output_name := _name definition;
                    output_vartype := _vartype definition;
                    output_length := _length definition;
                    output_register := [] |}
                 {| vartype := _vartype definition;
                    name := _name definition;
                    length := _length definition;
                    is_output := true;
                    register := filled zero (_length definition) |} = true).
  { unfold compatible. cbn. rewrite !String.eqb_refl, Z.eqb_refl.
    reflexivity. }
  split.
  - intros n.
    destruct (append_times_rows
                {| vartype := _vartype definition;
                   name := _name definition;
                   length := _length definition;
                   is_output := true;
                   register := filled zero (_length definition) |} n
                {| output_name := _name definition;
                   output_vartype := _vartype definition;
                   output_length := _length definition;
                   output_register := [] |} Hc)
      as (o1 & Hrun & Hsize & Hrows).
    + intros i [].
    + exists o1. split; [exact Hrun |]. split; [exact Hsize |].
      cbn [register] in Hrows. unfold filled in Hrows.
      rewrite repeat_length in Hrows. exact Hrows.
  - unfold extend. rewrite Hc. cbn [negb]. eexists. split; [reflexivity |].
    unfold size, len, filled. cbn [output_register register app].
    rewrite length_map, repeat_length. lia.
Qed.

(** [Definition("ro", "bit", 1, is_output=True)] *)
Lemma shots_are_rows_witness :
  exists r o o1,
    add_register [] [] samples.ro_bit_output
    = Ok ([("ro"%string, r)], [("ro"%string, o)])
    /\ append_times 2 o r = Ok o1
    /\ size o1 = 2%Z.
Proof.
  destruct (shots_are_rows []
              [("ro"%string,
                {| vartype := "bit"; name := "ro"; length := 1;
                   is_output := true; register := [VBit false] |})]
              []
              [("ro"%string,
                {| output_name := "ro"; output_vartype := "bit";
                   output_length := 1; output_register := [] |})]
              samples.ro_bit_output Logic.eq_refl
              ltac:(discriminate) Logic.eq_refl)
    as (r & o & Hr & Ho & _ & Happ & _).
  cbn in Hr, Ho. inversion Hr; inversion Ho; subst.
  destruct (Happ 2%nat) as (o1 & Hrun & Hsize & _).
  do 2 eexists. exists o1. split; [reflexivity |].
  split; [exact Hrun | exact Hsize].
Defined.

End register_laws.

(** * Powers of powers *)

Module power_laws.

Import dict_theory store_theory.

Section Composition.
Context {calc : Calculator}.

(** One [__pow__] on a gate that has its rotation-strength parameters: the
    store grows by the copy, whose parameters are those of the gate, the
    rotation strengths multiplied. *)
Lemma power_step (s : store) (self : addr) (cls : GateClass)
  (g : GateOperation) (l : list string) (other : CalculatorFloat) :
  view s self = Some (cls, g) ->
  _rotation_strength_parameters cls = Some l ->
  (forall k, In k l -> In k (keys (_ordered_parameter_dict g))) ->
  exists ps1,
    __pow__ self other s
    = (s ++ copied (List.length s) cls g ps1
              (if symbolic ps1 then true else _parametrized g),
       Ok (List.length s + 2))
    /\ (forall k v, get (_ordered_parameter_dict g) k = Some v ->
          get ps1 k = Some (if in_dec string_dec k l then mul v other else v))
    /\ keys ps1 = keys (_ordered_parameter_dict g).
Proof.
  intros Hview Hl Hin.
  pose proof (power_run s self cls g other Hview) as Hrun.
  cbv zeta in Hrun. rewrite Hl in Hrun.
  destruct (scaled_ok (_ordered_parameter_dict g) other l Hin
              (_ordered_parameter_dict g))
    as (ps1 & Hscaled & Hmul & Hkept & Hkeys).
  rewrite Hscaled in Hrun. exists ps1. split; [exact Hrun |].
  split; [| apply Hkeys; exact Hin].
  intros k v Hv. destruct (in_dec string_dec k l) as [Hk | Hk].
  - destruct (Hmul k Hk) as (v1 & Hv1 & Hget). congruence.
  - rewrite (Hkept k Hk). exact Hv.
Qed.

(** X25.  For a stored gate of a class that declares rotation-strength
    parameters, all of them parameters of the gate, [(G ** p) ** q] with
    numbers [p] and [q] returns a gate of the class of [G] on the qubits
    of [G] in which a rotation strength that is the number [x] in [G] is
    [(x * p) * q], the two products taken in this order, and every other
    number is the one of [G]; [G] itself is in the store as it was. *)
Theorem power_of_a_power (s : store) (self : addr) (cls : GateClass)
  (g : GateOperation) (l : list string) (p q : R) :
  view s self = Some (cls, g) ->
  _rotation_strength_parameters cls = Some l ->
  (forall k, In k l -> In k (keys (_ordered_parameter_dict g))) ->
  exists s1 a1 s2 a2 g2,
    __pow__ self (Float p) s = (s1, Ok a1)
    /\ __pow__ a1 (Float q) s1 = (s2, Ok a2)
    /\ view s2 a2 = Some (cls, g2)
    /\ view s2 self = Some (cls, g)
    /\ (forall k x,
          get (_ordered_parameter_dict g) k = Some (Float x) ->
          get (_ordered_parameter_dict g2) k
          = Some (Float (if in_dec string_dec k l then (x * p) * q else x)))
    /\ keys (_ordered_parameter_dict g2) = keys (_ordered_parameter_dict g)
    /\ _ordered_qubits_dict g2 = _ordered_qubits_dict g
    /\ _involved_qubits g2 = _involved_qubits g.
Proof.
  intros Hview Hl Hin.
  destruct (power_step s self cls g l (Float p) Hview Hl Hin)
    as (ps1 & Hrun1 & Hget1 & Hkeys1).
  set (s1 := s ++ copied (List.length s) cls g ps1
                    (if symbolic ps1 then true else _parametrized g)) in *.
  pose proof (view_copied s cls g ps1
                (if symbolic ps1 then true else _parametrized g)) as Hview1.
  fold s1 in Hview1.
  set (g1 := {| _ordered_qubits_dict := _ordered_qubits_dict g;
                _ordered_parameter_dict := ps1;
                _parametrized := if symbolic ps1 then true else _parametrized g;
                _involved_qubits := _involved_qubits g |}) in *.
  destruct (power_step s1 (List.length s + 2) cls g1 l (Float q) Hview1 Hl)
    as (ps2 & Hrun2 & Hget2 & Hkeys2).
  { intros k Hk. cbn [g1 _ordered_parameter_dict]. rewrite Hkeys1.
    apply Hin. exact Hk. }
  set (s2 := s1 ++ copied (List.length s1) cls g1 ps2
                     (if symbolic ps2 then true else _parametrized g1)) in *.
  pose proof (view_copied s1 cls g1 ps2
                (if symbolic ps2 then true else _parametrized g1)) as Hview2.
  fold s2 in Hview2.
  do 5 eexists.
  split; [exact Hrun1 |]. split; [exact Hrun2 |]. split; [exact Hview2 |].
  split; [unfold s2, s1; apply view_prefix; apply view_prefix; exact Hview |].
  cbn [_ordered_parameter_dict _ordered_qubits_dict _involved_qubits g1].
  split; [| split; [| split; reflexivity]].
  - intros k x Hx.
    pose proof (Hget1 k (Float x) Hx) as H1.
    pose proof (Hget2 k _ H1) as H2. rewrite H2.
    destruct (in_dec string_dec k l); reflexivity.
  - cbn [g1 _ordered_parameter_dict] in Hkeys2. congruence.
Qed.

End Composition.

(** [(RotateX(qubit=0, theta=3) ** 2) ** 5] has [theta = (3 * 2) * 5]. *)
Lemma power_of_a_power_witness :
  exists s1 a1 s2 a2 g2,
    @__pow__ samples.one_binding 3 (Float 2) samples.rotate_x_store
    = (s1, Ok a1)
    /\ @__pow__ samples.one_binding a1 (Float 5) s1 = (s2, Ok a2)
    /\ view s2 a2 = Some (single_qubit.class_of single_qubit.RotateX, g2)
    /\ get (_ordered_parameter_dict g2) "theta"%string
       = Some (Float ((3 * 2) * 5)%R).
Proof.
  destruct (@power_of_a_power samples.one_binding
              samples.rotate_x_store 3
              (single_qubit.class_of single_qubit.RotateX)
              samples.rotate_x_3 ["theta"%string] 2%R 5%R)
    as (s1 & a1 & s2 & a2 & g2 & Hrun1 & Hrun2 & Hview2 & _ & Hget & _).
  - reflexivity.
  - reflexivity.
  - intros k Hk. exact Hk.
  - exists s1, a1, s2, a2, g2.
    repeat (split; [eassumption |]).
    rewrite (Hget "theta"%string 3%R) by reflexivity.
    destruct (in_dec string_dec "theta"%string ["theta"%string])
      as [_ | Hn]; [reflexivity |].
    exfalso. apply Hn. left. reflexivity.
Defined.

End power_laws.

(** * A measurement without a result *)

Module measurement_laws.

Import dict_theory basis_rotation.

Section Dispatch.
Variables (self : BasisRotationMeasurement) (b : Backend).

Lemma raised_stays (e : exception) (l : list (nat * circuit.Circuit)) :
  fold_left (turn self b) l (Raise e) = Raise e.
Proof.
  induction l as [| [co c] l IH]; [reflexivity |].
  cbn [fold_left turn bind]. exact IH.
Qed.

(** The loop from turn [s] on: it returns when every turn returns, with
    the flag set when it was set or a turn returned [None]; it raises what
    the first turn that raises does. *)
Lemma turns (l : list circuit.Circuit) :
  forall (s : nat) (state : dict string RegisterOutput * bool),
  match fold_left (turn self b) (combine (seq s (List.length l)) l) (Ok state) with
  | Ok (regs, flag) =>
      (forall i c, nth_error l i = Some c ->
         exists t, run_circuit self b (s + i) c = Ok t)
      /\ (flag = true <->
          snd state = true
          \/ exists i c, nth_error l i = Some c
                         /\ run_circuit self b (s + i) c = Ok None)
  | Raise e =>
      exists i c,
        nth_error l i = Some c
        /\ run_circuit self b (s + i) c = Raise e
        /\ forall j c1, (j < i)%nat -> nth_error l j = Some c1 ->
             exists t, run_circuit self b (s + j) c1 = Ok t
  end.
Proof.
  induction l as [| c l IH]; intros s state.
  - cbn. destruct state as [regs flag]. split.
    + intros [| i] c H; discriminate H.
    + cbn. split; [intros H; left; exact H |].
      intros [H | (i & c & H & _)]; [exact H |].
      destruct i; discriminate H.
  - cbn [List.length seq combine fold_left]. cbn [turn bind].
    destruct (run_circuit self b s c) as [t | e] eqn:Hrun; cbn [bind].
    + set (state1 := match t with
                     | Some tmp => (update (fst state) tmp, snd state)
                     | None => (fst state, true)
                     end).
      assert (Hstate : match t with
                       | Some tmp =>
                           Ok (update (fst state) tmp, snd state)
                       | None => Ok (fst state, true)
                       end = Ok state1) by (destruct t; reflexivity).
      rewrite Hstate. specialize (IH (S s) state1).
      destruct (fold_left (turn self b) (combine (seq (S s) (List.length l)) l)
                  (Ok state1)) as [[regs flag] | e].
      * destruct IH as [Hall Hflag]. split.
        -- intros [| i] c1 Hc.
           ++ inversion Hc; subst c1. rewrite Nat.add_0_r. exists t.
              exact Hrun.
           ++ destruct (Hall i c1 Hc) as (t1 & Ht1). exists t1.
              rewrite <- Ht1. f_equal. lia.
        -- rewrite Hflag. split.
           ++ intros [Hs | (i & c1 & Hc & Hn)].
              ** destruct t as [tmp |]; cbn in Hs.
                 --- left. exact Hs.
                 --- right. exists O, c. split; [reflexivity |].
                     rewrite Nat.add_0_r. exact Hrun.
              ** right. exists (S i), c1. split; [exact Hc |].
                 rewrite <- Hn. f_equal. lia.
           ++ intros [Hs | (i & c1 & Hc & Hn)].
              ** left. destruct t; cbn; [exact Hs | reflexivity].
              ** destruct i as [| i].
                 --- inversion Hc; subst c1. rewrite Nat.add_0_r in Hn.
                     rewrite Hrun in Hn. inversion Hn; subst t.
                     left. reflexivity.
                 --- right. exists i, c1. split; [exact Hc |].
                     rewrite <- Hn. f_equal. lia.
      * destruct IH as (i & c1 & Hc & Hraise & Hbefore).
        exists (S i), c1. split; [exact Hc |]. split.
        -- rewrite <- Hraise. f_equal. lia.
        -- intros [| j] c2 Hj Hc2.
           ++ inversion Hc2; subst c2. rewrite Nat.add_0_r. exists t.
              exact Hrun.
           ++ destruct (Hbefore j c2) as (t2 & Ht2); [lia | exact Hc2 |].
              exists t2. rewrite <- Ht2. f_equal. lia.
    + rewrite raised_stays. exists O, c. split; [reflexivity |].
      split; [rewrite Nat.add_0_r; exact Hrun |].
      intros j c1 Hj. lia.
Qed.

End Dispatch.

(** After the dispatch loop without a [None], [__call__] does not return
    [None]. *)
Lemma reconstruction_is_not_none (self : BasisRotationMeasurement)
  (b : Backend) (regs : dict string RegisterOutput) :
  backend self = Some b ->
  dispatch self b = Ok (regs, false) ->
  __call__ self <> Done None.
Proof.
  intros Hb Hd. unfold __call__. rewrite Hb, Hd. cbv zeta.
  cbn [lift obind].
  repeat match goal with
         | |- context [obind ?m _] =>
             destruct m; cbn [obind]; try discriminate
         end.
Qed.

(** X26.  With a backend, the measurement returns [None] exactly when
    every turn of the dispatch loop returned and one of them returned
    [None], whatever the others returned.  When a turn raises and the
    turns before it returned, the measurement raises the same exception.
    A turn whose number is not an index of the resume list raises
    [IndexError]. *)
Theorem none_exactly_when_a_run_gave_none (self : BasisRotationMeasurement)
  (b : Backend) :
  backend self = Some b ->
  (__call__ self = Done None
   <-> (forall co circuit,
          nth_error (_circuit_list self) co = Some circuit ->
          exists t, run_circuit self b co circuit = Ok t)
       /\ exists co circuit,
            nth_error (_circuit_list self) co = Some circuit
            /\ run_circuit self b co circuit = Ok None)
  /\ (forall co circuit e,
        nth_error (_circuit_list self) co = Some circuit ->
        run_circuit self b co circuit = Raise e ->
        (forall j c, (j < co)%nat ->
           nth_error (_circuit_list self) j = Some c ->
           exists t, run_circuit self b j c = Ok t) ->
        __call__ self = Failed e)
  /\ (forall resume_list co circuit,
        _resume_list self = Some resume_list ->
        nth_error (_circuit_list self) co = Some circuit ->
        (List.length resume_list <= co)%nat ->
        run_circuit self b co circuit = Raise IndexError).
Proof.
  intros Hb.
  pose proof (turns self b (_circuit_list self) 0 ([], false)) as Hturns.
  change (fold_left (turn self b)
            (combine (seq 0 (List.length (_circuit_list self)))
               (_circuit_list self)) (Ok ([], false)))
    with (dispatch self b) in Hturns.
  cbn [Nat.add snd] in Hturns.
  split; [| split].
  - destruct (dispatch self b) as [[regs flag] | e] eqn:Hd.
    + destruct Hturns as [Hall Hflag]. destruct flag.
      * split.
        -- intros _. split; [exact Hall |].
           destruct (proj1 Hflag Logic.eq_refl) as [H | H];
             [discriminate H | exact H].
        -- intros _. unfold __call__. rewrite Hb, Hd. reflexivity.
      * split.
        -- intros Hcall. exfalso.
           apply (reconstruction_is_not_none self b regs Hb Hd Hcall).
        -- intros [_ Hnone].
           assert (Hf : false = true)
             by (apply Hflag; right; exact Hnone).
           discriminate Hf.
    + destruct Hturns as (i & c & Hc & Hraise & _). split.
      * unfold __call__. rewrite Hb, Hd. discriminate.
      * intros [Hall _]. destruct (Hall i c Hc) as (t & Ht). congruence.
  - intros co circuit e Hc Hraise Hbefore.
    unfold __call__. rewrite Hb.
    destruct (dispatch self b) as [[regs flag] | e1] eqn:Hd.
    + destruct Hturns as [Hall _]. destruct (Hall co circuit Hc) as (t & Ht).
      congruence.
    + destruct Hturns as (i & c & Hi & Hraise1 & Hbefore1).
      cbn [lift obind].
      destruct (Nat.lt_trichotomy i co) as [Hlt | [Heq | Hgt]].
      * destruct (Hbefore i c Hlt Hi) as (t & Ht). congruence.
      * subst i. assert (c = circuit) by congruence. subst c. congruence.
      * destruct (Hbefore1 co circuit Hgt Hc) as (t & Ht). congruence.
  - intros resume_list co circuit Hr Hc Hlen. unfold run_circuit.
    rewrite Hr. unfold getitem, normalize_index, len.
    assert (H1 : (0 <=? Z.of_nat co)%Z = true) by (apply Z.leb_le; lia).
    assert (H2 : (Z.of_nat co <? Z.of_nat (List.length resume_list))%Z
                 = false) by (apply Z.ltb_ge; lia).
    assert (H3 : (Z.of_nat co <? 0)%Z = false) by (apply Z.ltb_ge; lia).
    rewrite H1, H2, H3. cbn [andb]. rewrite andb_false_r. reflexivity.
Qed.

(** Two circuits; the backend has registers for the first and [None] for
    the second: the measurement returns [None]. *)
Lemma none_exactly_when_a_run_gave_none_witness :
  __call__
    {| backend :=
         Some {| number_qubits := 1;
                 run := fun co _ _ =>
                          match co with
                          | O => Ok (Some [("ro"%string,
                                            samples.zero_shots 2)])
                          | _ => Ok None
                          end |};
       measurement_input := samples.example_input;
       _circuit_list := [circuit.empty; circuit.empty];
       _constant_circuit := circuit.empty;
       _resume_list := None;
       _device := None |}
  = Done None.
Proof.
  apply (none_exactly_when_a_run_gave_none
           {| backend :=
                Some {| number_qubits := 1;
                        run := fun co _ _ =>
                                 match co with
                                 | O => Ok (Some [("ro"%string,
                                                   samples.zero_shots 2)])
                                 | _ => Ok None
                                 end |};
              measurement_input := samples.example_input;
              _circuit_list := [circuit.empty; circuit.empty];
              _constant_circuit := circuit.empty;
              _resume_list := None;
              _device := None |}
           {| number_qubits := 1;
              run := fun co _ _ =>
                       match co with
                       | O => Ok (Some [("ro"%string, samples.zero_shots 2)])
                       | _ => Ok None
                       end |}
           Logic.eq_refl).
  split.
  - intros [| [| co]] circuit Hc; cbn in Hc.
    + eexists. reflexivity.
    + eexists. reflexivity.
    + destruct co; discriminate Hc.
  - exists 1%nat, circuit.empty. split; reflexivity.
Defined.

End measurement_laws.
